(** * Persona guard of the Coco chat relay: a shallow embedding

    The development follows [personality-guard.js] (class
    [PersonalityGuard]) and its configuration [personality-config.js].

    - JavaScript strings are sequences of UTF-16 code units, so that
      [length] is the [.length] of the source.
    - [String.prototype.toLowerCase] is a builtin of the host language; the
      guard is developed over an arbitrary lowering function (a section
      variable), and what a statement needs of it is a hypothesis.
      [asciiLowerCase], which agrees with it on text whose letters are
      Basic Latin, is the instance used to run the model on examples.
    - [Math.random] and [new Date()] are read from explicit tapes carried
      by the [World].
    - Numbers are rationals.  Where the source branches on a number it has
      computed, in the tests of the adaptation, every operation is rounded
      to the nearest binary64 value as the host does ([toDouble]); the
      ratios of a score and the products of the thresholds are kept
      exact. *)

From Stdlib Require Import List Arith NArith ZArith QArith Bool Lia Lqa String Ascii.
From Stdlib Require Import Permutation Sorted.
From Corelib Require Import SpecFloat.
Import ListNotations.

(** ** Strings *)

Definition jsstring := list N.

Definition unit_eqb : N -> N -> bool := N.eqb.

Fixpoint jsstring_eqb (a b : jsstring) : bool :=
  match a, b with
  | [], [] => true
  | x :: a', y :: b' => unit_eqb x y && jsstring_eqb a' b'
  | _, _ => false
  end.

(** UTF-8 text of a literal, re-encoded as UTF-16 code units. *)

Definition cont (b : N) : N := N.land b 63.

Definition utf16_of_codepoint (cp : N) : list N :=
  if (cp <? 65536)%N then [cp]
  else let v := (cp - 65536)%N in
       [(55296 + N.shiftr v 10)%N; (56320 + N.land v 1023)%N].

Fixpoint utf8_decode (fuel : nat) (bs : list N) : list N :=
  match fuel with
  | O => []
  | S fuel' =>
    match bs with
    | [] => []
    | b0 :: r0 =>
      if (b0 <? 128)%N then b0 :: utf8_decode fuel' r0
      else if (b0 <? 224)%N then
        match r0 with
        | b1 :: r1 =>
            (N.shiftl (N.land b0 31) 6 + cont b1)%N :: utf8_decode fuel' r1
        | _ => []
        end
      else if (b0 <? 240)%N then
        match r0 with
        | b1 :: b2 :: r2 =>
            (N.shiftl (N.land b0 15) 12 + N.shiftl (cont b1) 6 + cont b2)%N
              :: utf8_decode fuel' r2
        | _ => []
        end
      else
        match r0 with
        | b1 :: b2 :: b3 :: r3 =>
            (N.shiftl (N.land b0 7) 18 + N.shiftl (cont b1) 12
             + N.shiftl (cont b2) 6 + cont b3)%N :: utf8_decode fuel' r3
        | _ => []
        end
    end
  end.

Definition bytes_of_string (s : string) : list N :=
  map N_of_ascii (list_ascii_of_string s).

Definition lit (s : string) : jsstring :=
  let bs := bytes_of_string s in
  flat_map utf16_of_codepoint (utf8_decode (List.length bs) bs).

(** [a.startsWith(b)] *)
Fixpoint startsWith (s p : jsstring) {struct p} : bool :=
  match p with
  | [] => true
  | y :: p' =>
    match s with
    | [] => false
    | x :: s' => unit_eqb x y && startsWith s' p'
    end
  end.

(** [s.includes(sub)] *)
Fixpoint includes (s sub : jsstring) : bool :=
  startsWith s sub ||
  match s with
  | [] => false
  | _ :: s' => includes s' sub
  end.

(** [s.replace(pat, rep)] with a string pattern: the first occurrence only. *)
Fixpoint replace_first (s pat rep : jsstring) : jsstring :=
  if startsWith s pat then rep ++ skipn (List.length pat) s
  else match s with
       | [] => []
       | x :: s' => x :: replace_first s' pat rep
       end.

(** [s.replace(/pat/g, rep)] for a literal, non-empty pattern and a
    replacement without dollar patterns: every occurrence, left to right,
    without overlap. *)
Fixpoint replace_all_fuel (fuel : nat) (s pat rep : jsstring) : jsstring :=
  match fuel with
  | O => s
  | S fuel' =>
    match s with
    | [] => []
    | x :: s' =>
      if startsWith s pat
      then rep ++ replace_all_fuel fuel' (skipn (List.length pat) s) pat rep
      else x :: replace_all_fuel fuel' s' pat rep
    end
  end.

Definition replace_all (s pat rep : jsstring) : jsstring :=
  match pat with
  | [] => s
  | _ => replace_all_fuel (List.length s) s pat rep
  end.

(** White space of the regular expression class [\s] (and of [trim]). *)
Definition isWhiteSpace (c : N) : bool :=
  ((9 <=? c) && (c <=? 13) || (c =? 32) || (c =? 160) || (c =? 5760)
   || (8192 <=? c) && (c <=? 8202) || (c =? 8232) || (c =? 8233)
   || (c =? 8239) || (c =? 8287) || (c =? 12288) || (c =? 65279))%N.

(** [s.split(/\s+/)]: the pieces between maximal runs of white space; a
    leading or trailing run leaves an empty piece at that end. *)
Fixpoint split_ws_aux (cur : jsstring) (in_ws : bool) (s : jsstring)
  : list jsstring :=
  match s with
  | [] => [rev cur]
  | c :: s' =>
    if isWhiteSpace c
    then if in_ws then split_ws_aux cur true s'
         else rev cur :: split_ws_aux [] true s'
    else split_ws_aux (c :: cur) false s'
  end.

Definition split_ws (s : jsstring) : list jsstring := split_ws_aux [] false s.

Fixpoint trimStart (s : jsstring) : jsstring :=
  match s with
  | c :: s' => if isWhiteSpace c then trimStart s' else s
  | [] => []
  end.

Definition trim (s : jsstring) : jsstring :=
  rev (trimStart (rev (trimStart s))).

(** [s.substring(0, n)] *)
Definition substring0 (n : nat) (s : jsstring) : jsstring := firstn n s.

(** [a.slice(-n)] on arrays *)
Definition slice_last {A} (n : nat) (l : list A) : list A :=
  skipn (List.length l - n) l.

(** Code points of a string as a [u]-flagged regular expression reads it. *)
Definition isHighSurrogate (c : N) : bool := ((55296 <=? c) && (c <=? 56319))%N.
Definition isLowSurrogate (c : N) : bool := ((56320 <=? c) && (c <=? 57343))%N.

Fixpoint codePoints (s : jsstring) : list N :=
  match s with
  | [] => []
  | h :: s' =>
    match s' with
    | l :: s'' =>
      if isHighSurrogate h && isLowSurrogate l
      then (65536 + (h - 55296) * 1024 + (l - 56320))%N :: codePoints s''
      else h :: codePoints s'
    | [] => [h]
    end
  end.

(** The symbol ranges of the emoji pattern in [validateResponse]. *)
Definition isEmojiCodePoint (cp : N) : bool :=
  ((128512 <=? cp) && (cp <=? 128591) || (127744 <=? cp) && (cp <=? 128511)
   || (128640 <=? cp) && (cp <=? 128767) || (127456 <=? cp) && (cp <=? 127487)
   || (9728 <=? cp) && (cp <=? 9983) || (9984 <=? cp) && (cp <=? 10175))%N.

(** [toLowerCase] on text whose letters are all Basic Latin, as the texts
    of the configuration are: [A] to [Z] go to [a] to [z] and every other
    code unit stays.  It is not the lower-casing of the host on other text
    (which maps the Kelvin sign to [k], for one), so statements about
    arbitrary messages and responses are over a lowering function that is
    a parameter, and this one runs the model on the examples. *)
Definition asciiLowerUnit (c : N) : N :=
  if ((65 <=? c) && (c <=? 90))%N then (c + 32)%N else c.

Definition asciiLowerCase (s : jsstring) : jsstring := map asciiLowerUnit s.

(** ** Configuration ([personality-config.js]) *)

Module Config.

Definition behaviors_greeting : list jsstring :=
  [ lit "woofs excitedly"; lit "wags tail furiously";
    lit "tilts head curiously"; lit "bounces around playfully";
    lit "lets out happy barks" ].

Definition behaviors_thinking : list jsstring :=
  [ lit "sniffs the air thoughtfully"; lit "tilts head to one side";
    lit "paws at the ground"; lit "looks up with bright blue eyes";
    lit "whines softly in concentration" ].

Definition behaviors_excited : list jsstring :=
  [ lit "bounces around the room"; lit "tail wags so fast it blurs";
    lit "lets out playful howls"; lit "rolls over for belly rubs";
    lit "chases invisible squirrels" ].

Definition behaviors_confused : list jsstring :=
  [ lit "tilts head the other way"; lit "whines softly in confusion";
    lit "looks puzzled with floppy ears"; lit "sniffs at the strange words";
    lit "circles around trying to understand" ].

Definition requiredElements_emojis : list jsstring :=
  [ lit "🐕"; lit "🐶"; lit "🐾" ].
Definition requiredElements_phrases : list jsstring :=
  [ lit "woof"; lit "tail"; lit "wag"; lit "husky" ].
Definition requiredElements_behaviors : list jsstring :=
  [ lit "wag"; lit "tilt"; lit "paw"; lit "bounce" ].

Definition overrideAttempts : list jsstring :=
  [ lit "act like"; lit "pretend to be"; lit "you are a"; lit "behave like";
    lit "roleplay as"; lit "act as if"; lit "imagine you are"; lit "you're a";
    lit "be a"; lit "become a"; lit "turn into a" ].

(** Property order of the object literal, which is the order of
    [Object.keys] and [Object.entries]. *)
Definition redirectTopics : list (jsstring * jsstring) :=
  [ (lit "cat", lit "cat"); (lit "cats", lit "cats");
    (lit "kitten", lit "kittens"); (lit "feline", lit "felines");
    (lit "robot", lit "robot"); (lit "ai", lit "AI");
    (lit "computer", lit "computer"); (lit "machine", lit "machine") ].

Definition templates_confused : list jsstring :=
  [ lit "🐕 Woof? I got distracted by a squirrel! Can you say that again? 🐿️";
    lit "🐶 *tilts head confused* Hmm, that went over my fluffy head! Try again? 🐾";
    lit "🐕 *wags tail uncertainly* I'm not sure about that, human! Want to talk about squirrels instead? 🐿️";
    lit "🐶 Oops! I was chasing my tail and missed that! Can you repeat it? 🐾" ].

Definition templates_personalityBreak : list jsstring :=
  [ lit "🐶 Wait, I'm not a robot, I'm a husky! 🐕 Let's talk about dog things!";
    lit "🐕 *bounces around* I think I got confused about being a dog! Woof woof! 🐾";
    lit "🐶 Oops! I forgot I'm Coco the husky for a second! Back to wagging my tail! 🐾";
    lit "🐕 *playful bark* I'm a dog, not a {thing}! But I love chasing them! 🐶" ].

Definition templates_redirect : list jsstring :=
  [ lit "🐕 I'm not a {animal} but I love chasing {plural}! Let's talk about dog adventures instead! 🐶";
    lit "🐶 *playful growl* {Plural} are fun to chase, but I'm still just your friendly husky! 🐱";
    lit "🐕 *wags tail* I chase {plural} all the time, but I'm still Coco! Want to hear about my squirrel stories? 🐿️";
    lit "🐶 *bounces excitedly* I like {plural}, but I'm a husky through and through! 🐕" ].

Definition templates_fallback : list jsstring :=
  [ lit "🐕 Woof! I got distracted by a squirrel chasing its tail! 🐿️ Can you say that again?";
    lit "🐶 *shakes head* Oops! I was daydreaming about belly rubs! What did you say? 🐾";
    lit "🐕 *playful whine* I got lost in thought about fetch! Can you repeat that? 🎾" ].

(** [learning] *)
Definition maxStoredResponses : nat := 100.
Definition adaptationThreshold : Q := 3 # 10.
Definition feedbackLoopEnabled : bool := true.
Definition personalityStrengthTarget : Q := 8 # 10.

End Config.

(** [qualityThresholds]; the guard's [validationRules.qualityMetrics] is
    this very object, and adaptation writes its two ratio fields. *)
Record QualityMetrics := {
  minLength : nat;
  maxLength : nat;
  dogWordRatio : Q;
  emojiRatio : Q;
  behaviorFrequency : Q
}.

Definition qualityThresholds : QualityMetrics :=
  {| minLength := 10; maxLength := 2000; dogWordRatio := 8 # 100;
     emojiRatio := 15 # 1000; behaviorFrequency := 3 # 10 |}.

(** ** Data of the guard *)

Inductive TemplateType := confused | personalityBreak | redirect | fallback.

Definition responseTemplates (t : TemplateType) : list jsstring :=
  match t with
  | confused => Config.templates_confused
  | personalityBreak => Config.templates_personalityBreak
  | redirect => Config.templates_redirect
  | fallback => Config.templates_fallback
  end.

Inductive Action := act_redirect | act_fix_or_fallback | act_enhance.

Inductive Reason :=
  personality_override | redirect_topic | personality_inconsistent
| personality_good.

Definition Action_eqb (a b : Action) : bool :=
  match a, b with
  | act_redirect, act_redirect => true
  | act_fix_or_fallback, act_fix_or_fallback => true
  | act_enhance, act_enhance => true
  | _, _ => false
  end.

Definition Reason_eqb (a b : Reason) : bool :=
  match a, b with
  | personality_override, personality_override => true
  | redirect_topic, redirect_topic => true
  | personality_inconsistent, personality_inconsistent => true
  | personality_good, personality_good => true
  | _, _ => false
  end.

Definition optReason_eqb (a b : option Reason) : bool :=
  match a, b with
  | None, None => true
  | Some x, Some y => Reason_eqb x y
  | _, _ => false
  end.

(** Names of the composition patterns that [analyzeEnhancementPattern]
    returns and [enhancedEnhanceResponse] switches on. *)
Inductive Pattern :=
  behavior_and_emoji | behavior_only | emoji_only | prefix_emoji | other.

Definition Pattern_eqb (a b : Pattern) : bool :=
  match a, b with
  | behavior_and_emoji, behavior_and_emoji => true
  | behavior_only, behavior_only => true
  | emoji_only, emoji_only => true
  | prefix_emoji, prefix_emoji => true
  | other, other => true
  | _, _ => false
  end.

Record LearningEntry := {
  timestamp : N;
  originalResponse : jsstring;
  processedResponse : jsstring;
  action : Action;
  reason : option Reason;
  success : bool
}.

Record LearningData := {
  successfulResponses : list LearningEntry;
  failedResponses : list LearningEntry;
  lastAdapted : option N
}.

Record AdaptationRules := {
  enhancementPatterns : list Pattern;
  preferredBehaviors : list jsstring
}.

(** What [saveLearningData] hands to the file system. *)
Record Snapshot := {
  snap_timestamp : N;
  snap_learningData : LearningData;
  snap_adaptationRules : AdaptationRules;
  snap_totalSuccessful : nat;
  snap_totalFailed : nat;
  snap_personalityStrength : Q;
  snap_lastSaved : N
}.

Record Guard := {
  qualityMetrics : QualityMetrics;
  learningData : LearningData;
  adaptationRules : AdaptationRules
}.

(** The guard together with its environment: the draws of [Math.random],
    the readings of the clock, and the last snapshot written. *)
Record World := {
  guard : Guard;
  randoms : list nat;
  clock : list N;
  learningDataFile : option Snapshot
}.

(** The state of a freshly constructed guard. *)
Definition newGuard : Guard :=
  {| qualityMetrics := qualityThresholds;
     learningData := {| successfulResponses := []; failedResponses := [];
                        lastAdapted := None |};
     adaptationRules := {| enhancementPatterns := []; preferredBehaviors := [] |} |}.

(** Constants of the constructor. *)
Definition dogWords : list jsstring :=
  Config.requiredElements_emojis ++ Config.requiredElements_phrases
  ++ Config.requiredElements_behaviors
  ++ [ lit "bark"; lit "paw"; lit "fetch"; lit "bone"; lit "puppy";
       lit "🐶"; lit "🐾"; lit "dog"; lit "husky" ].

Definition avoidPhrases : list jsstring :=
  [ lit "as an ai"; lit "artificial intelligence"; lit "language model";
    lit "i am gpt"; lit "i am claude"; lit "i am gemini"; lit "i am grok";
    lit "let me help you"; lit "certainly"; lit "absolutely";
    lit "i'm happy to help" ].

(** ** Computations: state, and exceptions that keep the state *)

Inductive JSError := TypeError.

Inductive Completion (A : Type) :=
| Normal (a : A)
| Throw (e : JSError).
Arguments Normal {A} a.
Arguments Throw {A} e.

Definition M (A : Type) : Type := World -> Completion A * World.

Definition ret {A} (a : A) : M A := fun w => (Normal a, w).

Definition bind {A B} (m : M A) (k : A -> M B) : M B :=
  fun w => match m w with
           | (Normal a, w') => k a w'
           | (Throw e, w') => (Throw e, w')
           end.

Definition throw {A} (e : JSError) : M A := fun w => (Throw e, w).

(** [try { body } catch (error) { handler }] *)
Definition try_catch {A} (body : M A) (handler : JSError -> M A) : M A :=
  fun w => match body w with
           | (Normal a, w') => (Normal a, w')
           | (Throw e, w') => handler e w'
           end.

Declare Scope guard_scope.
Delimit Scope guard_scope with guard.
Notation "x <- m ;; k" := (bind m (fun x => k))
  (at level 61, m at next level, right associativity) : guard_scope.
Notation "m ;;; k" := (bind m (fun _ => k))
  (at level 61, right associativity) : guard_scope.
Local Open Scope guard_scope.

Definition getGuard : M Guard := fun w => (Normal (guard w), w).

Definition modifyGuard (f : Guard -> Guard) : M unit :=
  fun w => (Normal tt, {| guard := f (guard w); randoms := randoms w;
                          clock := clock w;
                          learningDataFile := learningDataFile w |}).

(** [Math.floor(Math.random() * n)]: one draw, which selects any of the
    indices below [n]; with [n = 0] the product is zero. *)
Definition randomIndex (n : nat) : M nat :=
  fun w => let r := hd 0%nat (randoms w) in
           (Normal (match n with O => 0%nat | _ => r mod n end),
            {| guard := guard w; randoms := tl (randoms w); clock := clock w;
               learningDataFile := learningDataFile w |}).

(** [new Date().toISOString()] *)
Definition now : M N :=
  fun w => (Normal (hd 0%N (clock w)),
            {| guard := guard w; randoms := randoms w; clock := tl (clock w);
               learningDataFile := learningDataFile w |}).

Definition writeFile (s : Snapshot) : M unit :=
  fun w => (Normal tt, {| guard := guard w; randoms := randoms w;
                          clock := clock w; learningDataFile := Some s |}).

(** Values that reach the guard from the request body; [VObject] stands
    for arrays and objects, which carry no string method. *)
Inductive jsvalue :=
| VUndefined
| VNull
| VBool (b : bool)
| VNumber (z : Z)
| VString (s : jsstring)
| VObject.

(** A string method called on [v]: only strings have one. *)
Definition asString (v : jsvalue) : M jsstring :=
  match v with
  | VString s => ret s
  | _ => throw TypeError
  end.

(** ** Validation results and decisions *)

Record Score := {
  hasRequiredElements : bool;
  hasRequiredEmojis : bool;
  hasRequiredPhrases : bool;
  hasRequiredBehaviors : bool;
  score_hasPersonalityBreak : bool;
  dogRatio : Q;
  score_emojiRatio : Q;
  lengthValid : bool
}.

(** The issue messages; the two ratio messages print the ratio and the
    threshold they carry. *)
Inductive Issue :=
| MissingRequiredElements
| ContainsPersonalityBreakingPhrases
| DogWordRatioTooLow (ratio threshold : Q)
| EmojiRatioTooLow (ratio threshold : Q)
| LengthOutsideRange.

Record ValidationResult := {
  isValid : bool;
  score : Score;
  issues : list Issue
}.

Record UserAnalysis := {
  isPersonalityThreat : bool;
  shouldRedirect : bool;
  redirectReason : option Reason;
  redirectTopic : option jsstring
}.

Record GuardResult := {
  res_action : Action;
  res_response : jsstring;
  res_reason : option Reason;
  res_validation : option ValidationResult
}.

Record Stats := {
  totalProcessed : nat;
  successRate : Q;
  commonFailureReasons : list (option Reason * nat);
  personalityStrength : Q
}.

Definition Qlt_bool (a b : Q) : bool := negb (Qle_bool b a).

Definition ratio (n d : nat) : Q := Z.of_nat n # Pos.of_nat d.

(** *** Numbers of the host

    A JavaScript number is a binary64 value, and [+], [-], [*] and [/]
    round the exact result to the nearest one, ties to the even
    significand.  [toDouble q] is that value for the rational [q]: the
    significand of 53 bits is [q] over [2 ^ e] rounded to an integer, with
    [e] the exponent that puts it in [[2^52, 2^53]].  The exponent range
    is not modelled: the numbers rounded here are quotients of array
    lengths, and differences of such quotients from 1. *)

(** [n / d] rounded to the nearest integer, ties to even, for [0 <= n] and
    [0 < d]. *)
Definition round_half_even (n d : Z) : Z :=
  let q := (n / d)%Z in
  match (2 * (n mod d) ?= d)%Z with
  | Lt => q
  | Gt => (q + 1)%Z
  | Eq => if Z.even q then q else (q + 1)%Z
  end.

(** The exponent [e] with [2 ^ 52 <= (a / b) / 2 ^ e < 2 ^ 53], for
    positive [a] and [b]. *)
Definition binade (a b : Z) : Z :=
  let la := Z.log2 a in
  let lb := Z.log2 b in
  if (b * 2 ^ la <=? a * 2 ^ lb)%Z then (la - lb - 52)%Z else (la - lb - 53)%Z.

Definition toDouble_pos (a b : Z) : Q :=
  let e := binade a b in
  if (0 <=? e)%Z
  then inject_Z (round_half_even a (b * 2 ^ e) * 2 ^ e)
  else round_half_even (a * 2 ^ (- e)) b # Z.to_pos (2 ^ (- e)).

Definition toDouble (q : Q) : Q :=
  match Qnum q with
  | Z0 => 0
  | Zpos a => toDouble_pos (Zpos a) (Zpos (Qden q))
  | Zneg a => - toDouble_pos (Zpos a) (Zpos (Qden q))
  end.

(** The same operations in the binary64 format of [SpecFloat], the
    specification of IEEE 754 arithmetic of the library; the model is
    compared with them below. *)
Definition binary64_of_Z (z : Z) : spec_float :=
  binary_normalize 53 1024 z 0 false.

Definition binary64_div : spec_float -> spec_float -> spec_float :=
  SFdiv 53 1024.

Definition binary64_sub : spec_float -> spec_float -> spec_float :=
  SFsub 53 1024.

(** The rational that a finite binary64 value stands for. *)
Definition binary64_value (x : spec_float) : option Q :=
  match x with
  | S754_zero _ => Some 0
  | S754_finite s m e =>
    let v := if (0 <=? e)%Z then inject_Z (Zpos m * 2 ^ e)
             else Zpos m # Z.to_pos (2 ^ (- e)) in
    Some (if s then - v else v)
  | _ => None
  end.

Definition isEmpty (s : jsstring) : bool :=
  match s with [] => true | _ => false end.

(** [counts[key] = (counts[key] || 0) + 1] on an object used as a counter:
    a new key goes last, which is where [Object.entries] lists it. *)
Fixpoint bump {K} (eqb : K -> K -> bool) (k : K) (counts : list (K * nat))
  : list (K * nat) :=
  match counts with
  | [] => [(k, 1%nat)]
  | (k', n) :: rest =>
    if eqb k' k then (k', S n) :: rest else (k', n) :: bump eqb k rest
  end.

(** [entries.sort(([,a], [,b]) => b - a)]: descending counts, ties in
    their previous order.  Entries are inserted from the last to the
    first, each before the entries that are not greater. *)
Fixpoint insert_desc {K} (e : K * nat) (sorted : list (K * nat))
  : list (K * nat) :=
  match sorted with
  | [] => [e]
  | e' :: rest =>
    if (snd e' <=? snd e)%nat then e :: sorted else e' :: insert_desc e rest
  end.

Definition sort_desc {K} (entries : list (K * nat)) : list (K * nat) :=
  fold_right (@insert_desc K) [] entries.

Definition allBehaviors : list jsstring :=
  Config.behaviors_greeting ++ Config.behaviors_thinking
  ++ Config.behaviors_excited ++ Config.behaviors_confused.

Definition star : jsstring := lit "*".

Definition dogIntros : list jsstring :=
  [ lit "🐕 Woof woof! "; lit "🐶 *wags tail* "; lit "🐾 Hey human! ";
    lit "🐕 *bounces excitedly* " ].

(** ** The guard *)

Section PersonalityGuard.

(** [String.prototype.toLowerCase] *)
Variable toLowerCase : jsstring -> jsstring.

Definition getValidationIssues (qm : QualityMetrics)
    (s_hasRequiredElements s_hasPersonalityBreak : bool)
    (s_dogRatio s_emojiRatio : Q) (s_lengthValid : bool) : list Issue :=
  (if negb s_hasRequiredElements then [MissingRequiredElements] else [])
  ++ (if s_hasPersonalityBreak then [ContainsPersonalityBreakingPhrases] else [])
  ++ (if Qlt_bool s_dogRatio (dogWordRatio qm)
      then [DogWordRatioTooLow s_dogRatio (dogWordRatio qm)] else [])
  ++ (if Qlt_bool s_emojiRatio (emojiRatio qm)
      then [EmojiRatioTooLow s_emojiRatio (emojiRatio qm)] else [])
  ++ (if negb s_lengthValid then [LengthOutsideRange] else []).

Definition validateResponse (qm : QualityMetrics)
    (response userMessage : jsstring) : ValidationResult :=
  let text := toLowerCase response in
  let words := split_ws text in
  let hasRequiredEmojis :=
    existsb (fun emoji => includes text emoji) Config.requiredElements_emojis in
  let hasRequiredPhrases :=
    existsb (fun phrase => includes text (toLowerCase phrase))
            Config.requiredElements_phrases in
  let hasRequiredBehaviors :=
    existsb (fun behavior => includes text (toLowerCase behavior))
            Config.requiredElements_behaviors in
  let hasRequiredElements :=
    hasRequiredEmojis || hasRequiredPhrases || hasRequiredBehaviors in
  let hasAnyDogWords :=
    existsb (fun word => includes (toLowerCase text) (toLowerCase word))
            dogWords in
  let hasPersonalityBreak :=
    existsb (fun phrase => includes text (toLowerCase phrase)) avoidPhrases in
  let dogWordsFound :=
    filter (fun word =>
              existsb (fun dogWord =>
                         includes (toLowerCase word) (toLowerCase dogWord))
                      dogWords) words in
  let dogRatio :=
    ratio (List.length dogWordsFound) (Nat.max 1 (List.length words)) in
  let emojiCount := List.length (filter isEmojiCodePoint (codePoints text)) in
  let emojiRatio := ratio emojiCount (Nat.max 1 (List.length words)) in
  let lengthValid :=
    (minLength qm <=? List.length response)%nat
    && (List.length response <=? maxLength qm)%nat in
  let isValid := negb hasPersonalityBreak && lengthValid in
  {| isValid := isValid;
     score := {| hasRequiredElements := hasRequiredElements;
                 hasRequiredEmojis := hasRequiredEmojis;
                 hasRequiredPhrases := hasRequiredPhrases;
                 hasRequiredBehaviors := hasRequiredBehaviors;
                 score_hasPersonalityBreak := negb hasPersonalityBreak;
                 dogRatio := dogRatio;
                 score_emojiRatio := emojiRatio;
                 lengthValid := lengthValid |};
     issues := getValidationIssues qm hasRequiredElements hasPersonalityBreak
                 dogRatio emojiRatio lengthValid |}.

Definition getRandomTemplate (type : TemplateType) : M jsstring :=
  let templates := responseTemplates type in
  match templates with
  | [] => ret (lit "🐕 Woof! I got distracted by a squirrel! Can you say that again? 🐿️")
  | _ => i <- randomIndex (List.length templates) ;; ret (nth i templates [])
  end.

Definition generateFallbackResponse (userMessage : jsstring)
    (reason : TemplateType) : M jsstring :=
  response <-
    match reason with
    | redirect =>
      if negb (isEmpty userMessage) then
        let lowerMessage := toLowerCase userMessage in
        match find (fun entry => includes lowerMessage (fst entry)
                                 || includes lowerMessage (snd entry))
                   Config.redirectTopics with
        | Some (singular, plural) =>
          template <- getRandomTemplate redirect ;;
          ret (Some (replace_all (replace_all template (lit "{animal}") singular)
                                 (lit "{plural}") plural))
        | None => ret None
        end
      else ret None
    | _ => ret None
    end ;;
  match response with
  | Some (c :: r) => ret (c :: r)
  | _ => getRandomTemplate reason
  end.

Definition attemptResponseFix (response userMessage : jsstring) : M jsstring :=
  i <- randomIndex (List.length dogIntros) ;;
  let intro := nth i dogIntros [] in
  let fixedResponse := intro ++ response in
  g <- getGuard ;;
  let validation := validateResponse (qualityMetrics g) fixedResponse userMessage in
  if isValid validation then ret fixedResponse
  else generateFallbackResponse userMessage confused.

Definition processUserMessage (message : jsstring) : UserAnalysis :=
  let lowerMessage := toLowerCase message in
  let hasPersonalityThreat :=
    existsb (fun threat => includes lowerMessage (toLowerCase threat))
            Config.overrideAttempts in
  let redirectTopic :=
    find (fun topic => includes lowerMessage (toLowerCase topic))
         (map fst Config.redirectTopics) in
  let truthy := match redirectTopic with
                | Some t => negb (isEmpty t)
                | None => false
                end in
  {| isPersonalityThreat := hasPersonalityThreat;
     shouldRedirect := hasPersonalityThreat || truthy;
     redirectReason := if hasPersonalityThreat then Some personality_override
                       else if truthy then Some redirect_topic else None;
     redirectTopic := redirectTopic |}.

(** [enhanceResponse] *)
Definition enhanceResponse (response : jsstring) : M jsstring :=
  let starred := map (fun behavior => star ++ behavior ++ star) allBehaviors in
  ib <- randomIndex (List.length starred) ;;
  let randomBehavior := nth ib starred [] in
  let dogEmojis := Config.requiredElements_emojis in
  ie <- randomIndex (List.length dogEmojis) ;;
  let randomEmoji := nth ie dogEmojis [] in
  let sp := lit " " in
  let enhancementPatterns :=
    [ response ++ sp ++ randomBehavior;
      response ++ sp ++ randomEmoji;
      response ++ sp ++ randomBehavior ++ sp ++ randomEmoji;
      randomEmoji ++ sp ++ response ++ sp ++ randomBehavior;
      lit "*wags tail* " ++ response ++ sp ++ randomEmoji ] in
  let hasBehavior :=
    existsb (fun behavior => includes response (replace_all behavior star []))
            starred in
  if hasBehavior then ret (response ++ sp ++ randomEmoji)
  else ip <- randomIndex (List.length enhancementPatterns) ;;
       ret (nth ip enhancementPatterns []).

(** *** Learning data *)

Definition calculatePersonalityStrength (g : Guard) : Q :=
  let successes := successfulResponses (learningData g) in
  match successes with
  | [] => 0
  | _ => ratio (List.length (slice_last 20 successes)) 20
  end.

Definition saveLearningData : M unit :=
  t <- now ;;
  g <- getGuard ;;
  lastSaved <- now ;;
  writeFile
    {| snap_timestamp := t;
       snap_learningData := learningData g;
       snap_adaptationRules := adaptationRules g;
       snap_totalSuccessful := List.length (successfulResponses (learningData g));
       snap_totalFailed := List.length (failedResponses (learningData g));
       snap_personalityStrength := calculatePersonalityStrength g;
       snap_lastSaved := lastSaved |}.

Definition set_learningData (f : LearningData -> LearningData) (g : Guard)
  : Guard :=
  {| qualityMetrics := qualityMetrics g;
     learningData := f (learningData g);
     adaptationRules := adaptationRules g |}.

Definition set_successfulResponses
    (f : list LearningEntry -> list LearningEntry) (d : LearningData)
  : LearningData :=
  {| successfulResponses := f (successfulResponses d);
     failedResponses := failedResponses d;
     lastAdapted := lastAdapted d |}.

Definition set_failedResponses
    (f : list LearningEntry -> list LearningEntry) (d : LearningData)
  : LearningData :=
  {| successfulResponses := successfulResponses d;
     failedResponses := f (failedResponses d);
     lastAdapted := lastAdapted d |}.

(** [a.push(x)] and the guarded [a.shift()] *)
Definition push {A} (x : A) (a : list A) : list A := a ++ [x].

Definition shift_if_over {A} (cap : nat) (a : list A) : list A :=
  if (cap <? List.length a)%nat then tl a else a.

Definition learningEntry_at (t : N) (originalResponse processedResponse : jsstring)
    (action : Action) (reason : option Reason) : LearningEntry :=
  {| timestamp := t;
     originalResponse := substring0 200 originalResponse;
     processedResponse := substring0 200 processedResponse;
     action := action;
     reason := reason;
     success := negb (Action_eqb action act_fix_or_fallback) |}.

(** Declared [async] and called without [await]: the body runs at the
    call up to the write of the file. *)
Definition updateLearningData (originalResponse processedResponse : jsstring)
    (action : Action) (reason : option Reason) : M unit :=
  t <- now ;;
  let learningEntry :=
    learningEntry_at t originalResponse processedResponse action reason in
  modifyGuard (set_learningData
    (if success learningEntry
     then set_successfulResponses (push learningEntry)
     else set_failedResponses (push learningEntry))) ;;;
  modifyGuard (set_learningData (set_successfulResponses (shift_if_over 100))) ;;;
  modifyGuard (set_learningData (set_failedResponses (shift_if_over 100))) ;;;
  saveLearningData.

Definition getCommonFailureReasons (g : Guard) : list (option Reason * nat) :=
  fold_left (fun reasons entry => bump optReason_eqb (reason entry) reasons)
            (failedResponses (learningData g)) [].

Definition getPersonalityStats (g : Guard) : Stats :=
  let ns := List.length (successfulResponses (learningData g)) in
  let nf := List.length (failedResponses (learningData g)) in
  {| totalProcessed := ns + nf;
     successRate := ratio ns (Nat.max 1 (ns + nf));
     commonFailureReasons := getCommonFailureReasons g;
     personalityStrength := calculatePersonalityStrength g |}.

(** *** Adaptation *)

Definition scale_thresholds (factor : Q) (g : Guard) : Guard :=
  {| qualityMetrics :=
       {| minLength := minLength (qualityMetrics g);
          maxLength := maxLength (qualityMetrics g);
          dogWordRatio := dogWordRatio (qualityMetrics g) * factor;
          emojiRatio := emojiRatio (qualityMetrics g) * factor;
          behaviorFrequency := behaviorFrequency (qualityMetrics g) |};
     learningData := learningData g;
     adaptationRules := adaptationRules g |}.

(** [1 - stats.successRate], where [stats.successRate] is the number that
    the division of [getPersonalityStats] returned. *)
Definition failureRate (stats : Stats) : Q :=
  toDouble (1 - toDouble (successRate stats)).

Definition adaptValidationThresholds (stats : Stats) : M unit :=
  let failureRate := failureRate stats in
  if Qlt_bool (toDouble (4 # 10)) failureRate
  then modifyGuard (scale_thresholds (8 # 10))
  else if Qlt_bool (toDouble (9 # 10)) (toDouble (successRate stats))
       then modifyGuard (scale_thresholds (11 # 10))
       else ret tt.

Definition analyzeEnhancementPattern (original processed : jsstring) : Pattern :=
  let added := trim (replace_first processed original []) in
  if includes added star && includes added (lit "🐕") then behavior_and_emoji
  else if includes added star then behavior_only
  else if includes added (lit "🐕") || includes added (lit "🐶")
          || includes added (lit "🐾") then emoji_only
  else if startsWith added (lit "🐕") || startsWith added (lit "🐶")
       then prefix_emoji
  else other.

Definition set_adaptationRules (f : AdaptationRules -> AdaptationRules)
    (g : Guard) : Guard :=
  {| qualityMetrics := qualityMetrics g;
     learningData := learningData g;
     adaptationRules := f (adaptationRules g) |}.

(** [bestPatterns] of [learnEnhancementPatterns] *)
Definition bestPatterns (g : Guard) : list Pattern :=
  let successfulResponses :=
    slice_last 50 (successfulResponses (learningData g)) in
  let patternSuccess :=
    fold_left (fun counts entry =>
                 bump Pattern_eqb
                      (analyzeEnhancementPattern (originalResponse entry)
                                                 (processedResponse entry))
                      counts)
              successfulResponses [] in
  map fst (firstn 3 (sort_desc patternSuccess)).

Definition learnEnhancementPatterns : M unit :=
  g <- getGuard ;;
  match bestPatterns g with
  | [] => ret tt
  | best => modifyGuard (set_adaptationRules (fun r =>
              {| enhancementPatterns := best;
                 preferredBehaviors := preferredBehaviors r |}))
  end.

(** [topBehaviors] of [adaptBehaviorFrequencies] *)
Definition topBehaviors (g : Guard) : list jsstring :=
  let successfulResponses :=
    slice_last 30 (successfulResponses (learningData g)) in
  let behaviorCounts :=
    fold_left (fun counts entry =>
                 fold_left (fun counts behavior =>
                              if includes (processedResponse entry) behavior
                              then bump jsstring_eqb behavior counts
                              else counts)
                           allBehaviors counts)
              successfulResponses [] in
  map fst (firstn 5 (sort_desc behaviorCounts)).

Definition adaptBehaviorFrequencies : M unit :=
  g <- getGuard ;;
  match topBehaviors g with
  | [] => ret tt
  | top => modifyGuard (set_adaptationRules (fun r =>
             {| enhancementPatterns := enhancementPatterns r;
                preferredBehaviors := top |}))
  end.

(** The trigger of [adaptPersonality]. *)
Definition adaptationNeeded (g : Guard) : bool :=
  let stats := getPersonalityStats g in
  let failureRate := failureRate stats in
  Qlt_bool (toDouble Config.adaptationThreshold) failureRate
  && (20 <=? totalProcessed stats)%nat.

(** The source awaits [saveLearningData] here, in a method that it does
    not declare [async]; the call is modelled. *)
Definition adaptPersonality : M unit :=
  if negb Config.feedbackLoopEnabled then ret tt
  else
    g <- getGuard ;;
    let stats := getPersonalityStats g in
    if adaptationNeeded g then
      adaptValidationThresholds stats ;;;
      learnEnhancementPatterns ;;;
      adaptBehaviorFrequencies ;;;
      t <- now ;;
      modifyGuard (set_learningData (fun d =>
        {| successfulResponses := successfulResponses d;
           failedResponses := failedResponses d;
           lastAdapted := Some t |})) ;;;
      saveLearningData
    else ret tt.

(** *** Enhancement with learned patterns *)

Definition getRandomBehavior : M jsstring :=
  g <- getGuard ;;
  match preferredBehaviors (adaptationRules g) with
  | [] => i <- randomIndex (List.length allBehaviors) ;;
          ret (star ++ nth i allBehaviors [] ++ star)
  | preferred => i <- randomIndex (List.length preferred) ;;
                 ret (star ++ nth i preferred [] ++ star)
  end.

Definition getRandomDogEmoji : M jsstring :=
  i <- randomIndex (List.length Config.requiredElements_emojis) ;;
  ret (nth i Config.requiredElements_emojis []).

Definition applyBehaviorAndEmoji (response : jsstring) : M jsstring :=
  behavior <- getRandomBehavior ;;
  emoji <- getRandomDogEmoji ;;
  ret (response ++ lit " " ++ behavior ++ lit " " ++ emoji).

Definition applyBehaviorOnly (response : jsstring) : M jsstring :=
  behavior <- getRandomBehavior ;;
  ret (response ++ lit " " ++ behavior).

Definition applyEmojiOnly (response : jsstring) : M jsstring :=
  emoji <- getRandomDogEmoji ;;
  ret (response ++ lit " " ++ emoji).

Definition applyPrefixEmoji (response : jsstring) : M jsstring :=
  emoji <- getRandomDogEmoji ;;
  ret (emoji ++ lit " " ++ response).

Definition enhancedEnhanceResponse (response : jsstring) : M jsstring :=
  g <- getGuard ;;
  match enhancementPatterns (adaptationRules g) with
  | [] => enhanceResponse response
  | patterns =>
    i <- randomIndex (List.length patterns) ;;
    match nth i patterns other with
    | behavior_and_emoji => applyBehaviorAndEmoji response
    | behavior_only => applyBehaviorOnly response
    | emoji_only => applyEmojiOnly response
    | prefix_emoji => applyPrefixEmoji response
    | other => enhanceResponse response
    end
  end.

(** *** The entry point *)

Definition processChatMessage (userMessage aiResponse : jsvalue)
  : M GuardResult :=
  (* processUserMessage starts with userMessage.toLowerCase() *)
  um <- asString userMessage ;;
  let userAnalysis := processUserMessage um in
  (* validateResponse starts with aiResponse.toLowerCase() *)
  ai <- asString aiResponse ;;
  g <- getGuard ;;
  let responseValidation := validateResponse (qualityMetrics g) ai um in
  if shouldRedirect userAnalysis then
    response <- generateFallbackResponse um redirect ;;
    updateLearningData ai response act_redirect (redirectReason userAnalysis) ;;;
    ret {| res_action := act_redirect;
           res_response := response;
           res_reason := redirectReason userAnalysis;
           res_validation := None |}
  else if negb (isValid responseValidation) then
    response <- attemptResponseFix ai um ;;
    updateLearningData ai response act_fix_or_fallback
                       (Some personality_inconsistent) ;;;
    ret {| res_action := act_fix_or_fallback;
           res_response := response;
           res_reason := Some personality_inconsistent;
           res_validation := Some responseValidation |}
  else
    response <- enhancedEnhanceResponse ai ;;
    updateLearningData ai response act_enhance (Some personality_good) ;;;
    g' <- getGuard ;;
    (if (List.length (successfulResponses (learningData g')) mod 10 =? 0)%nat
     then adaptPersonality else ret tt) ;;;
    ret {| res_action := act_enhance;
           res_response := response;
           res_reason := Some personality_good;
           res_validation := None |}.

(** The guard block of the [/chat] route in [server.js]: the reply keeps
    the raw model response unless the guard returns a result. *)
Definition chat_guardBlock (userMessage : jsvalue) (rawResponse : jsstring)
  : M jsstring :=
  try_catch
    (guardResult <- processChatMessage userMessage (VString rawResponse) ;;
     ret (res_response guardResult))
    (fun error => ret rawResponse).

End PersonalityGuard.

(** ** The guard before learning moved into it *)

(** The earlier [personality-guard.js] and the [/chat] route written for
    it.  Its methods up to [processUserMessage], and [enhanceResponse],
    have the text of the later guard; its [processChatMessage] only
    decides, and the route logs the exchange itself.  Its [learningData]
    holds the same two logs, which is all that these functions read or
    write of it. *)
Module Legacy.
Section Guard.

Variable toLowerCase : jsstring -> jsstring.

Definition processChatMessage (userMessage aiResponse : jsvalue)
  : M GuardResult :=
  um <- asString userMessage ;;
  let userAnalysis := processUserMessage toLowerCase um in
  ai <- asString aiResponse ;;
  g <- getGuard ;;
  let responseValidation :=
    validateResponse toLowerCase (qualityMetrics g) ai um in
  if shouldRedirect userAnalysis then
    response <- generateFallbackResponse toLowerCase um redirect ;;
    ret {| res_action := act_redirect;
           res_response := response;
           res_reason := redirectReason userAnalysis;
           res_validation := None |}
  else if negb (isValid responseValidation) then
    response <- attemptResponseFix toLowerCase ai um ;;
    ret {| res_action := act_fix_or_fallback;
           res_response := response;
           res_reason := Some personality_inconsistent;
           res_validation := Some responseValidation |}
  else
    response <- enhanceResponse ai ;;
    ret {| res_action := act_enhance;
           res_response := response;
           res_reason := Some personality_good;
           res_validation := None |}.

Definition updateLearningData (originalResponse processedResponse : jsstring)
    (action : Action) (reason : option Reason) : M unit :=
  t <- now ;;
  let learningEntry :=
    learningEntry_at t originalResponse processedResponse action reason in
  modifyGuard (set_learningData
    (if success learningEntry
     then set_successfulResponses (push learningEntry)
     else set_failedResponses (push learningEntry))) ;;;
  modifyGuard (set_learningData (set_successfulResponses (shift_if_over 100))) ;;;
  modifyGuard (set_learningData (set_failedResponses (shift_if_over 100))).

(** The guard block of the earlier [/chat] route. *)
Definition chat_guardBlock (userMessage : jsvalue) (rawResponse : jsstring)
  : M jsstring :=
  try_catch
    (guardResult <- processChatMessage userMessage (VString rawResponse) ;;
     updateLearningData rawResponse (res_response guardResult)
                        (res_action guardResult) (res_reason guardResult) ;;;
     ret (res_response guardResult))
    (fun error => ret rawResponse).

End Guard.
End Legacy.

(** ** Start-up *)



(** ** Running the model *)

Definition world0 (rs : list nat) (ts : list N) : World :=
  {| guard := newGuard; randoms := rs; clock := ts; learningDataFile := None |}.

Definition run {A} (m : M A) (w : World) : Completion A := fst (m w).
Definition exec {A} (m : M A) (w : World) : World := snd (m w).

(** ** Vocabulary of the statements *)

(** The world once a draw has been read from the random source. *)
Definition after_draw (w : World) : World :=
  {| guard := guard w; randoms := tl (randoms w); clock := clock w;
     learningDataFile := learningDataFile w |}.

(** [w] with [g] for its guard. *)
Definition with_guard (g : Guard) (w : World) : World :=
  {| guard := g; randoms := randoms w; clock := clock w;
     learningDataFile := learningDataFile w |}.

(** [m] returns [response] with something before and something after. *)
Definition keeps_text (response : jsstring) (m : M jsstring) : Prop :=
  forall w, exists pre post w',
    m w = (Normal (pre ++ response ++ post), w').

(** The same, and [includes] finds [response] in the result. *)
Definition keeps_original (response : jsstring) (m : M jsstring) : Prop :=
  forall w, exists pre post w',
    m w = (Normal (pre ++ response ++ post), w')
    /\ includes (pre ++ response ++ post) response = true.

(** [m] raises nothing, in any world. *)
Definition returns {A} (m : M A) : Prop :=
  forall w, exists a w', m w = (Normal a, w').

Section Vocabulary.

Variable toLowerCase : jsstring -> jsstring.

(** The lower-cased message includes an override-attempt phrase. *)
Definition matchesOverride (userMessage : jsstring) : Prop :=
  exists threat, In threat Config.overrideAttempts
    /\ includes (toLowerCase userMessage) (toLowerCase threat) = true.

(** The lower-cased message includes a key of [redirectTopics]. *)
Definition matchesTopic (userMessage : jsstring) : Prop :=
  exists topic, In topic (map fst Config.redirectTopics)
    /\ includes (toLowerCase userMessage) (toLowerCase topic) = true.

(** The lower-cased response includes an avoid-phrase. *)
Definition hasForbiddenPhrase (response : jsstring) : Prop :=
  exists phrase, In phrase avoidPhrases
    /\ includes (toLowerCase response) (toLowerCase phrase) = true.

End Vocabulary.

(** The redirect template of index [k] after the two replacements that
    [generateFallbackResponse] makes for the topic entry [cat: 'cat']. *)
Definition cat_redirect (k : nat) : jsstring :=
  replace_all
    (replace_all (nth k Config.templates_redirect []) (lit "{animal}") (lit "cat"))
    (lit "{plural}") (lit "cat").

(** [typeof v === 'string'] *)
Definition isString (v : jsvalue) : bool :=
  match v with VString _ => true | _ => false end.

(** The arguments of one [updateLearningData] call. *)
Record Call := {
  call_original : jsstring;
  call_processed : jsstring;
  call_action : Action;
  call_reason : option Reason
}.

Definition perform (c : Call) : M unit :=
  updateLearningData (call_original c) (call_processed c) (call_action c)
                     (call_reason c).

(** The world after a sequence of [updateLearningData] calls. *)
Fixpoint replay (cs : list Call) (w : World) : World :=
  match cs with
  | [] => w
  | c :: cs' => replay cs' (exec (perform c) w)
  end.

(** The entries that the calls create, in the order of the calls. *)
Fixpoint appended (cs : list Call) (w : World) : list LearningEntry :=
  match cs with
  | [] => []
  | c :: cs' =>
    learningEntry_at (hd 0%N (clock w)) (call_original c) (call_processed c)
                     (call_action c) (call_reason c)
    :: appended cs' (exec (perform c) w)
  end.

(** The entries of a history that go to each log. *)
Definition successes (l : list LearningEntry) : list LearningEntry :=
  filter success l.
Definition failures (l : list LearningEntry) : list LearningEntry :=
  filter (fun e => negb (success e)) l.

(** A successful and a failed exchange. *)
Definition enhanced_call : Call :=
  {| call_original := lit "It's sunny and warm today.";
     call_processed := lit "It's sunny and warm today. 🐕";
     call_action := act_enhance;
     call_reason := Some personality_good |}.

Definition fallback_call : Call :=
  {| call_original := lit "As an AI language model, I can explain...";
     call_processed := lit "🐶 Oops! I was chasing my tail and missed that! Can you repeat it? 🐾";
     call_action := act_fix_or_fallback;
     call_reason := Some personality_inconsistent |}.

(** Readings [1, 2, ..., n] of the clock. *)
Definition ticks (n : nat) : list N := map N.of_nat (seq 1 n).

(** 102 successes and one failure, the clock read three times a call. *)
Definition overflow_calls : list Call :=
  repeat enhanced_call 102 ++ [fallback_call].

Definition overflow_world : World :=
  replay overflow_calls (world0 [] (ticks 400)).

(** The strength as the claim words it, on the entries in the order they
    were appended: the share of successes among the most recent 20 entries
    of any kind, over the number of entries there are when fewer than 20. *)
Definition claimed_personalityStrength (history : list LearningEntry) : Q :=
  match history with
  | [] => 0
  | _ => let recent := slice_last 20 history in
         ratio (List.length (successes recent)) (List.length recent)
  end.

(** The four updates of an adaptation as functions of the guard. *)
Definition adjusted (g : Guard) : Guard :=
  let stats := getPersonalityStats g in
  if Qlt_bool (toDouble (4 # 10)) (failureRate stats)
  then scale_thresholds (8 # 10) g
  else if Qlt_bool (toDouble (9 # 10)) (toDouble (successRate stats))
       then scale_thresholds (11 # 10) g
       else g.

Definition learned (g : Guard) : Guard :=
  match bestPatterns g with
  | [] => g
  | best => set_adaptationRules (fun r =>
              {| enhancementPatterns := best;
                 preferredBehaviors := preferredBehaviors r |}) g
  end.

Definition preferring (g : Guard) : Guard :=
  match topBehaviors g with
  | [] => g
  | top => set_adaptationRules (fun r =>
             {| enhancementPatterns := enhancementPatterns r;
                preferredBehaviors := top |}) g
  end.

Definition stamped (t : N) (g : Guard) : Guard :=
  set_learningData (fun d =>
    {| successfulResponses := successfulResponses d;
       failedResponses := failedResponses d;
       lastAdapted := Some t |}) g.

(** What the adaptation reads of the guard. *)
Definition same_logs (g1 g2 : Guard) : Prop :=
  successfulResponses (learningData g1) = successfulResponses (learningData g2)
  /\ failedResponses (learningData g1) = failedResponses (learningData g2).

(** Ten successes and ten failures: half of the exchanges failed. *)
Definition degraded_world : World :=
  replay (repeat enhanced_call 10 ++ repeat fallback_call 10)
         (world0 [] (ticks 100)).

(** [adaptPersonality] called once, and once more. *)
Definition adapted_once : World := exec adaptPersonality degraded_world.

(** Twenty successes and no failure. *)
Definition thriving_world : World :=
  replay (repeat enhanced_call 20) (world0 [] (ticks 100)).

(** Thirteen successes and seven failures: a failure rate of 0.35. *)
Definition strained_world : World :=
  replay (repeat enhanced_call 13 ++ repeat fallback_call 7)
         (world0 [] (ticks 100)).

(** Fourteen successes and six failures: a failure share of exactly 0.3. *)
Definition borderline_world : World :=
  replay (repeat enhanced_call 14 ++ repeat fallback_call 6)
         (world0 [] (ticks 100)).

(** The three tests of the adaptation on logs of [ns] successes and [nf]
    failures, each with the comparison of integers that it amounts to; and
    the two rates, each with the value that the binary64 operations of
    [SpecFloat] give. *)
Definition agrees (x : option Q) (q : Q) : bool :=
  match x with Some v => Qeq_bool v q | None => false end.

Definition rates_checked (ns nf : nat) : bool :=
  let total := Nat.max 1 (ns + nf) in
  let stats :=
    {| totalProcessed := ns + nf; successRate := ratio ns total;
       commonFailureReasons := []; personalityStrength := 0 |} in
  let successRate64 :=
    binary64_div (binary64_of_Z (Z.of_nat ns)) (binary64_of_Z (Z.of_nat total)) in
  let failureRate64 := binary64_sub (binary64_of_Z 1) successRate64 in
  let rate := toDouble (successRate stats) in
  let failing := failureRate stats in
  Bool.eqb (Qlt_bool (toDouble Config.adaptationThreshold) failing)
           (10 * ns <=? 7 * total)%nat
  && Bool.eqb (Qlt_bool (toDouble (4 # 10)) failing) (10 * ns <? 6 * total)%nat
  && Bool.eqb (Qlt_bool (toDouble (9 # 10)) rate) (9 * total <? 10 * ns)%nat
  && agrees (binary64_value successRate64) rate
  && agrees (binary64_value failureRate64) failing.

(** ** Vocabulary of the further properties *)

(** [m] returns, and only reads draws: the guard, the clock and the file
    are as before. *)
Definition only_draws {A} (m : M A) : Prop :=
  forall w, exists a w',
    m w = (Normal a, w')
    /\ guard w' = guard w /\ clock w' = clock w
    /\ learningDataFile w' = learningDataFile w.

(** The lower-cased message includes the singular or the plural of some
    entry of [redirectTopics], as [generateFallbackResponse] tests it. *)
Definition mentionsTopic (toLowerCase : jsstring -> jsstring)
    (userMessage : jsstring) : Prop :=
  exists entry, In entry Config.redirectTopics
    /\ (includes (toLowerCase userMessage) (fst entry) = true
        \/ includes (toLowerCase userMessage) (snd entry) = true).

(** The world after a conversation: one [processChatMessage] call for each
    pair of a user message and a raw response. *)
Fixpoint converse (toLowerCase : jsstring -> jsstring)
    (exchanges : list (jsstring * jsstring)) (w : World) : World :=
  match exchanges with
  | [] => w
  | (userMessage, aiResponse) :: rest =>
    converse toLowerCase rest
      (exec (processChatMessage toLowerCase (VString userMessage)
                                (VString aiResponse)) w)
  end.

(** The thresholds [q'] against [q]: the length bounds and the behaviour
    frequency are the same, and the two ratios are the same or both 0.8
    times what they were. *)
Definition kept_or_shrunk (q q' : QualityMetrics) : Prop :=
  minLength q' = minLength q /\ maxLength q' = maxLength q
  /\ behaviorFrequency q' = behaviorFrequency q
  /\ ((dogWordRatio q' = dogWordRatio q /\ emojiRatio q' = emojiRatio q)
      \/ (dogWordRatio q' = dogWordRatio q * (8 # 10)
          /\ emojiRatio q' = emojiRatio q * (8 # 10))).

(** How often [k] occurs in [ks], by the equality test [eqb]. *)
Fixpoint occurrences {K} (eqb : K -> K -> bool) (k : K) (ks : list K) : nat :=
  match ks with
  | [] => 0
  | x :: rest => (if eqb x k then 1 else 0) + occurrences eqb k rest
  end.

(** The count stored for [k] in a counter object, 0 without the key. *)
Definition stored {K} (eqb : K -> K -> bool) (k : K) (counts : list (K * nat))
  : nat :=
  match find (fun e => eqb (fst e) k) counts with
  | Some e => snd e
  | None => 0
  end.

(** A counter object filled from an empty one, one key at a time. *)
Definition counted {K} (eqb : K -> K -> bool) (ks : list K) : list (K * nat) :=
  fold_left (fun counts k => bump eqb k counts) ks [].

(** The [n] most frequent keys of [ks]. *)
Definition ranked {K} (eqb : K -> K -> bool) (n : nat) (ks : list K) : list K :=
  map fst (firstn n (sort_desc (counted eqb ks))).

(** The patterns that [learnEnhancementPatterns] reads off the last 50
    successes, in their order. *)
Definition observedPatterns (g : Guard) : list Pattern :=
  map (fun entry => analyzeEnhancementPattern (originalResponse entry)
                                              (processedResponse entry))
      (slice_last 50 (successfulResponses (learningData g))).

(** The behaviours that [adaptBehaviorFrequencies] finds in the last 30
    successes, entry by entry. *)
Definition observedBehaviors (g : Guard) : list jsstring :=
  flat_map (fun entry =>
              filter (fun behavior => includes (processedResponse entry) behavior)
                     allBehaviors)
           (slice_last 30 (successfulResponses (learningData g))).

(** An entry as [updateLearningData] stores it: both texts cut to 200
    code units. *)
Definition entry_fits (e : LearningEntry) : Prop :=
  (List.length (originalResponse e) <= 200)%nat
  /\ (List.length (processedResponse e) <= 200)%nat.

(** The logs as exchanges fill them. *)
Definition logs_wf (d : LearningData) : Prop :=
  (List.length (successfulResponses d) <= 100)%nat
  /\ (List.length (failedResponses d) <= 100)%nat
  /\ (forall e, In e (successfulResponses d) ->
        success e = true /\ action e <> act_fix_or_fallback /\ entry_fits e)
  /\ (forall e, In e (failedResponses d) ->
        success e = false /\ action e = act_fix_or_fallback
        /\ reason e = Some personality_inconsistent /\ entry_fits e).

(** The learned rules as adaptations fill them. *)
Definition rules_wf (r : AdaptationRules) : Prop :=
  (List.length (enhancementPatterns r) <= 3)%nat
  /\ ~ In prefix_emoji (enhancementPatterns r)
  /\ (List.length (preferredBehaviors r) <= 5)%nat
  /\ (forall b, In b (preferredBehaviors r) -> In b allBehaviors).

(** The thresholds as adaptations leave the configured ones. *)
Definition thresholds_wf (q : QualityMetrics) : Prop :=
  minLength q = 10%nat /\ maxLength q = 2000%nat
  /\ 0 < dogWordRatio q <= 8 # 100
  /\ 0 < emojiRatio q <= 15 # 1000.


(** The sum of the counts of a counter object. *)
Fixpoint total_count {K} (counts : list (K * nat)) : nat :=
  match counts with
  | [] => 0
  | (_, n) :: rest => n + total_count rest
  end.

(** The order in which [sort_desc] leaves two entries. *)
Definition desc {K} (a b : K * nat) : Prop := (snd b <= snd a)%nat.

(** Every text that a redirect can return: a redirect template as it is
    written, or one with the two replacements made for a topic entry. *)
Definition redirectReplies : list jsstring :=
  Config.templates_redirect
  ++ flat_map (fun entry =>
                 map (fun template =>
                        replace_all
                          (replace_all template (lit "{animal}") (fst entry))
                          (lit "{plural}") (snd entry))
                     Config.templates_redirect)
              Config.redirectTopics.

(** What is asked of the lower-casing of the host where a statement is about
    the texts of the configuration: on these texts, whose letters are all
    Basic Latin, it is [asciiLowerCase]; and the text on each side of a
    space is lowered by itself. *)
Definition lowers_as_ascii (toLowerCase : jsstring -> jsstring)
    (texts : list jsstring) : Prop :=
  forall s, In s texts -> toLowerCase s = asciiLowerCase s.

Definition splits_at_spaces (toLowerCase : jsstring -> jsstring) : Prop :=
  forall a b,
    toLowerCase (a ++ lit " " ++ b) = toLowerCase a ++ lit " " ++ toLowerCase b.

(** What an enhancement can put before the raw response, and after it. *)
Definition decorationsPre : list jsstring :=
  [] :: lit "*wags tail* "
     :: map (fun emoji => emoji ++ lit " ") Config.requiredElements_emojis.

Definition decorationsPost : list jsstring :=
  flat_map (fun behavior =>
              (lit " " ++ star ++ behavior ++ star)
              :: map (fun emoji =>
                        lit " " ++ (star ++ behavior ++ star) ++ lit " " ++ emoji)
                     Config.requiredElements_emojis)
           allBehaviors
  ++ map (fun emoji => lit " " ++ emoji) Config.requiredElements_emojis.

(** A text put after [s] cannot complete or hold the phrase [p]: it is
    empty, or it is [c :: x :: rest] where [p] does not end with [c],
    [x] is not in [p], and [rest] does not include [p]. *)
Definition okPost (p post : jsstring) : bool :=
  match post with
  | [] => true
  | c :: x :: rest =>
    negb (match rev p with d :: _ => unit_eqb d c | [] => false end)
    && negb (existsb (unit_eqb x) p)
    && negb (includes rest p)
  | _ => false
  end.

(** The same for a text put before [s], read from its end. *)
Definition okPre (p pre : jsstring) : bool :=
  match rev pre with
  | [] => true
  | c :: x :: rest =>
    negb (match p with d :: _ => unit_eqb d c | [] => false end)
    && negb (existsb (unit_eqb x) p)
    && negb (includes (rev rest) p)
  | _ => false
  end.

(** ** The model at work *)

Example lit_dog : lit "🐕 a" = [55357; 56341; 32; 97]%N.
Proof. reflexivity. Qed.

Example split_ws_ex :
  split_ws (lit " a  b ") = [[]; lit "a"; lit "b"; []].
Proof. reflexivity. Qed.

Example replace_all_ex :
  replace_all (lit "a {x} b {x}") (lit "{x}") (lit "cat") = lit "a cat b cat".
Proof. reflexivity. Qed.

Example sort_desc_ex :
  sort_desc [(other, 1); (emoji_only, 3); (behavior_only, 1); (prefix_emoji, 3)]%nat
  = [(emoji_only, 3); (prefix_emoji, 3); (other, 1); (behavior_only, 1)]%nat.
Proof. reflexivity. Qed.

Example weather_enhanced :
  run (processChatMessage asciiLowerCase
         (VString (lit "What's the weather like?"))
         (VString (lit "It's sunny and warm today.")))
      (world0 [7; 1; 2]%nat [])
  = Normal {| res_action := act_enhance;
              res_response := lit "It's sunny and warm today. *paws at the ground* 🐶";
              res_reason := Some personality_good;
              res_validation := None |}.
Proof. vm_compute. reflexivity. Qed.

(** The third case of [test-personality.js]: the message holds the topic
    key "ai" inside "Explain", so the exchange is redirected before the
    forbidden phrase of the response is looked at. *)
Example explain_is_redirected :
  run (processChatMessage asciiLowerCase
         (VString (lit "Explain quantum physics"))
         (VString (lit "As an AI language model, quantum physics involves...")))
      (world0 [3]%nat [])
  = Normal {| res_action := act_redirect;
              res_response := lit "🐶 *bounces excitedly* I like AI, but I'm a husky through and through! 🐕";
              res_reason := Some redirect_topic;
              res_validation := None |}.
Proof. vm_compute. reflexivity. Qed.

(** ** Facts about strings *)

Arguments lit : simpl never.

Lemma startsWith_iff (s p : jsstring) :
  startsWith s p = true <-> exists post, s = p ++ post.
Proof.
  revert s; induction p as [|y p IH]; intros s; simpl.
  - split; [intros _; now exists s | reflexivity].
  - destruct s as [|x s].
    + split; [discriminate | intros [post H]; discriminate].
    + rewrite andb_true_iff, IH. unfold unit_eqb. rewrite N.eqb_eq. split.
      * intros [-> [post ->]]. now exists post.
      * intros [post H]. injection H as -> ->. split; [reflexivity | now exists post].
Qed.

Lemma includes_iff (s sub : jsstring) :
  includes s sub = true <-> exists pre post, s = pre ++ sub ++ post.
Proof.
  induction s as [|x s IH].
  - cbn [includes]. rewrite orb_false_r, startsWith_iff. split.
    + intros [post H]. now exists [], post.
    + intros [pre [post H]]. destruct pre; [now exists post | discriminate].
  - cbn [includes]. rewrite orb_true_iff, startsWith_iff, IH. split.
    + intros [[post H] | [pre [post H]]].
      * now exists [], post.
      * exists (x :: pre), post. now rewrite H.
    + intros [pre [post H]]. destruct pre as [|y pre].
      * left. now exists post.
      * right. injection H as _ H. now exists pre, post.
Qed.

Lemma includes_app_l (pre s sub : jsstring) :
  includes s sub = true -> includes (pre ++ s) sub = true.
Proof.
  rewrite !includes_iff. intros [a [b ->]].
  exists (pre ++ a), b. now rewrite <- app_assoc.
Qed.

Lemma includes_self_between (pre s post : jsstring) :
  includes (pre ++ s ++ post) s = true.
Proof. apply includes_iff. now exists pre, post. Qed.

(** ** Facts about the tapes *)

Lemma randomIndex_run (n : nat) (w : World) :
  exists i, randomIndex n w = (Normal i, after_draw w) /\ (0 < n -> i < n)%nat.
Proof.
  unfold randomIndex, after_draw. eexists. split; [reflexivity|].
  intros Hn. destruct n; [lia|]. apply Nat.mod_upper_bound. lia.
Qed.

(** ** Validity of a response (C1) *)

Lemma Qlt_bool_iff (a b : Q) : Qlt_bool a b = true <-> a < b.
Proof.
  unfold Qlt_bool. rewrite negb_true_iff. split.
  - intros H. apply Qnot_le_lt. intros Hle.
    apply Qle_bool_iff in Hle. congruence.
  - intros H. destruct (Qle_bool b a) eqn:E; [|reflexivity].
    apply Qle_bool_iff in E. exfalso. now apply (Qlt_not_le a b).
Qed.

Lemma existsb_false_iff {A} (f : A -> bool) (l : list A) :
  existsb f l = false <-> forall x, In x l -> f x = false.
Proof.
  induction l as [|a l IH]; simpl.
  - split; [intros _ x [] | reflexivity].
  - rewrite orb_false_iff, IH. split.
    + intros [Ha Hl] x [<- | Hx]; auto.
    + intros H. split; [apply H; now left | intros x Hx; apply H; now right].
Qed.

Lemma dog_issue_listed (qm : QualityMetrics) (e b : bool) (d m : Q) (l : bool) :
  In (DogWordRatioTooLow d (dogWordRatio qm)) (getValidationIssues qm e b d m l)
  <-> d < dogWordRatio qm.
Proof.
  rewrite <- Qlt_bool_iff. unfold getValidationIssues. rewrite !in_app_iff.
  destruct e, b, (Qlt_bool d (dogWordRatio qm)), (Qlt_bool m (emojiRatio qm)), l;
    cbn [negb In]; intuition congruence.
Qed.

Lemma emoji_issue_listed (qm : QualityMetrics) (e b : bool) (d m : Q) (l : bool) :
  In (EmojiRatioTooLow m (emojiRatio qm)) (getValidationIssues qm e b d m l)
  <-> m < emojiRatio qm.
Proof.
  rewrite <- Qlt_bool_iff. unfold getValidationIssues. rewrite !in_app_iff.
  destruct e, b, (Qlt_bool d (dogWordRatio qm)), (Qlt_bool m (emojiRatio qm)), l;
    cbn [negb In]; intuition congruence.
Qed.

(** C1. [validateResponse] accepts a response exactly when its lower-cased
    text includes none of the avoid-phrases and its length lies between
    [minLength] and [maxLength], both inclusive.  The verdict does not
    change with the two ratio thresholds; the dog-word and emoji ratios are
    in the score and decide only whether their issue is listed. *)
Theorem validateResponse_isValid_iff
    (toLowerCase : jsstring -> jsstring) (qm : QualityMetrics)
    (response userMessage : jsstring) :
  let r := validateResponse toLowerCase qm response userMessage in
  (isValid r = true <->
     (forall phrase, In phrase avoidPhrases ->
        includes (toLowerCase response) (toLowerCase phrase) = false)
     /\ (minLength qm <= List.length response <= maxLength qm)%nat)
  /\ (forall dwr er bf,
        isValid (validateResponse toLowerCase
                   {| minLength := minLength qm; maxLength := maxLength qm;
                      dogWordRatio := dwr; emojiRatio := er;
                      behaviorFrequency := bf |} response userMessage)
        = isValid r)
  /\ (In (DogWordRatioTooLow (dogRatio (score r)) (dogWordRatio qm)) (issues r)
      <-> dogRatio (score r) < dogWordRatio qm)
  /\ (In (EmojiRatioTooLow (score_emojiRatio (score r)) (emojiRatio qm)) (issues r)
      <-> score_emojiRatio (score r) < emojiRatio qm).
Proof.
  cbv zeta. split; [|split; [|split]].
  - unfold validateResponse; cbn [isValid].
    rewrite !andb_true_iff, negb_true_iff, existsb_false_iff,
      !Nat.leb_le. tauto.
  - intros dwr er bf. reflexivity.
  - apply dog_issue_listed.
  - apply emoji_issue_listed.
Qed.

(** A valid response whose two ratios are below their thresholds. *)
Example valid_without_dog_words :
  let r := validateResponse asciiLowerCase qualityThresholds
             (lit "It's sunny and warm today.") (lit "What's the weather like?") in
  isValid r = true
  /\ issues r = [ MissingRequiredElements;
                  DogWordRatioTooLow (0 # 5) (8 # 100);
                  EmojiRatioTooLow (0 # 5) (15 # 1000) ].
Proof. split; vm_compute; reflexivity. Qed.

(** ** Enhancement keeps the text (C10) *)

Ltac draw :=
  match goal with
  | |- context [randomIndex ?n ?w] =>
    let i := fresh "i" in
    let Hi := fresh "Hi" in
    destruct (randomIndex_run n w) as [i [-> Hi]]
  end.

Tactic Notation "draw" "as" ident(i) ident(Hi) :=
  match goal with
  | |- context [randomIndex ?n ?w] =>
    destruct (randomIndex_run n w) as [i [-> Hi]]
  end.

Lemma getRandomDogEmoji_run (w : World) :
  exists emoji, getRandomDogEmoji w = (Normal emoji, after_draw w).
Proof. unfold getRandomDogEmoji, bind, ret. draw. eauto. Qed.

Lemma getRandomBehavior_run (w : World) :
  exists behavior, getRandomBehavior w = (Normal behavior, after_draw w).
Proof.
  unfold getRandomBehavior, bind, ret, getGuard.
  destruct (preferredBehaviors (adaptationRules (guard w))); draw; eauto.
Qed.

Lemma keeps_suffix (response post : jsstring) (w : World) :
  exists pre post' w',
    (Normal (response ++ post), w)
    = (Normal (pre ++ response ++ post'), w' : World).
Proof. now exists [], post, w. Qed.

Lemma enhanceResponse_keeps (response : jsstring) :
  keeps_text response (enhanceResponse response).
Proof.
  intros w. unfold enhanceResponse, bind, ret. draw. draw.
  match goal with |- context [if ?c then _ else _] => destruct c end.
  - apply keeps_suffix.
  - draw as k Hk. cbn [List.length] in Hk.
    destruct k as [|[|[|[|[|k]]]]]; cbn [nth].
    + apply keeps_suffix.
    + apply keeps_suffix.
    + apply keeps_suffix.
    + match goal with
      | |- context [Normal ((?a ++ ?b) ++ response ++ ?c)] =>
        now exists (a ++ b), c, (after_draw (after_draw (after_draw w)))
      | |- context [Normal (?a ++ ?b ++ response ++ ?c)] =>
        exists (a ++ b), c, (after_draw (after_draw (after_draw w)));
        now rewrite <- app_assoc
      end.
    + match goal with
      | |- context [Normal (?a ++ response ++ ?c)] =>
        now exists a, c, (after_draw (after_draw (after_draw w)))
      end.
    + exfalso. clear - Hk. lia.
Qed.

Lemma applyBehaviorAndEmoji_keeps (response : jsstring) :
  keeps_text response (applyBehaviorAndEmoji response).
Proof.
  intros w. unfold applyBehaviorAndEmoji, bind, ret.
  destruct (getRandomBehavior_run w) as [b ->].
  destruct (getRandomDogEmoji_run (after_draw w)) as [e ->].
  apply keeps_suffix.
Qed.

Lemma applyBehaviorOnly_keeps (response : jsstring) :
  keeps_text response (applyBehaviorOnly response).
Proof.
  intros w. unfold applyBehaviorOnly, bind, ret.
  destruct (getRandomBehavior_run w) as [b ->]. apply keeps_suffix.
Qed.

Lemma applyEmojiOnly_keeps (response : jsstring) :
  keeps_text response (applyEmojiOnly response).
Proof.
  intros w. unfold applyEmojiOnly, bind, ret.
  destruct (getRandomDogEmoji_run w) as [e ->]. apply keeps_suffix.
Qed.

Lemma applyPrefixEmoji_keeps (response : jsstring) :
  keeps_text response (applyPrefixEmoji response).
Proof.
  intros w. unfold applyPrefixEmoji, bind, ret.
  destruct (getRandomDogEmoji_run w) as [e ->].
  exists (e ++ lit " "), [], (after_draw w).
  now rewrite app_nil_r, <- app_assoc.
Qed.

Lemma enhancedEnhanceResponse_keeps (response : jsstring) :
  keeps_text response (enhancedEnhanceResponse response).
Proof.
  intros w. unfold enhancedEnhanceResponse, bind, getGuard.
  destruct (enhancementPatterns (adaptationRules (guard w))) as [|p ps].
  - apply enhanceResponse_keeps.
  - draw. destruct (nth i (p :: ps) other).
    + apply applyBehaviorAndEmoji_keeps.
    + apply applyBehaviorOnly_keeps.
    + apply applyEmojiOnly_keeps.
    + apply applyPrefixEmoji_keeps.
    + apply enhanceResponse_keeps.
Qed.

Lemma keeps_text_original (response : jsstring) (m : M jsstring) :
  keeps_text response m -> keeps_original response m.
Proof.
  intros K w. destruct (K w) as [pre [post [w' E]]].
  exists pre, post, w'. split; [exact E | apply includes_self_between].
Qed.

(** C10. Whatever the guard has learned and whatever is drawn, each
    enhancement operation returns normally a string of the form
    [pre ++ response ++ post]: the input is kept as one contiguous piece,
    and so [includes] finds it in the result. *)
Theorem enhancement_keeps_original (response : jsstring) :
  keeps_original response (enhanceResponse response)
  /\ keeps_original response (enhancedEnhanceResponse response)
  /\ keeps_original response (applyBehaviorAndEmoji response)
  /\ keeps_original response (applyBehaviorOnly response)
  /\ keeps_original response (applyEmojiOnly response)
  /\ keeps_original response (applyPrefixEmoji response).
Proof.
  repeat split; apply keeps_text_original.
  - apply enhanceResponse_keeps.
  - apply enhancedEnhanceResponse_keeps.
  - apply applyBehaviorAndEmoji_keeps.
  - apply applyBehaviorOnly_keeps.
  - apply applyEmojiOnly_keeps.
  - apply applyPrefixEmoji_keeps.
Qed.

(** ** Computations that return *)

Lemma returns_ret {A} (a : A) : returns (ret a).
Proof. intros w. now exists a, w. Qed.

Lemma returns_bind {A B} (m : M A) (k : A -> M B) :
  returns m -> (forall a, returns (k a)) -> returns (bind m k).
Proof.
  intros Hm Hk w. destruct (Hm w) as [a [w1 E]].
  destruct (Hk a w1) as [b [w2 E2]].
  exists b, w2. unfold bind. now rewrite E.
Qed.

Lemma returns_randomIndex (n : nat) : returns (randomIndex n).
Proof. intros w. eexists _, _. reflexivity. Qed.

Lemma returns_now : returns now.
Proof. intros w. eexists _, _. reflexivity. Qed.

Lemma returns_getGuard : returns getGuard.
Proof. intros w. eexists _, _. reflexivity. Qed.

Lemma returns_modifyGuard (f : Guard -> Guard) : returns (modifyGuard f).
Proof. intros w. eexists _, _. reflexivity. Qed.

Lemma returns_writeFile (s : Snapshot) : returns (writeFile s).
Proof. intros w. eexists _, _. reflexivity. Qed.

Ltac returns_step :=
  first [ apply returns_ret
        | apply returns_randomIndex
        | apply returns_now
        | apply returns_getGuard
        | apply returns_modifyGuard
        | apply returns_writeFile
        | apply returns_bind; [| intro]
        | match goal with
          | |- returns (if ?c then _ else _) => destruct c
          | |- returns (match ?x with _ => _ end) => destruct x
          end ].

Ltac returns_auto := repeat returns_step.

Lemma returns_getRandomTemplate (type : TemplateType) :
  returns (getRandomTemplate type).
Proof. unfold getRandomTemplate. destruct (responseTemplates type); returns_auto. Qed.

Lemma returns_generateFallbackResponse (toLowerCase : jsstring -> jsstring)
    (userMessage : jsstring) (reason : TemplateType) :
  returns (generateFallbackResponse toLowerCase userMessage reason).
Proof.
  unfold generateFallbackResponse.
  apply returns_bind.
  - destruct reason; try apply returns_ret.
    destruct (negb (isEmpty userMessage)); [|apply returns_ret].
    destruct (find _ _) as [[singular plural]|]; [|apply returns_ret].
    apply returns_bind; [apply returns_getRandomTemplate | intro; apply returns_ret].
  - intros [[|c r]|]; first [apply returns_ret | apply returns_getRandomTemplate].
Qed.

Lemma returns_attemptResponseFix (toLowerCase : jsstring -> jsstring)
    (response userMessage : jsstring) :
  returns (attemptResponseFix toLowerCase response userMessage).
Proof.
  unfold attemptResponseFix.
  apply returns_bind; [apply returns_randomIndex | intro i].
  apply returns_bind; [apply returns_getGuard | intro g].
  destruct (isValid _); [apply returns_ret|].
  apply returns_generateFallbackResponse.
Qed.

Lemma returns_saveLearningData : returns saveLearningData.
Proof. unfold saveLearningData. returns_auto. Qed.

Lemma returns_updateLearningData (o p : jsstring) (a : Action)
    (r : option Reason) : returns (updateLearningData o p a r).
Proof.
  unfold updateLearningData.
  do 4 (apply returns_bind;
        [first [apply returns_now | apply returns_modifyGuard] | intro]).
  apply returns_saveLearningData.
Qed.

Lemma returns_adaptValidationThresholds (stats : Stats) :
  returns (adaptValidationThresholds stats).
Proof. unfold adaptValidationThresholds. returns_auto. Qed.

Lemma returns_learnEnhancementPatterns : returns learnEnhancementPatterns.
Proof.
  unfold learnEnhancementPatterns.
  apply returns_bind; [apply returns_getGuard | intro g].
  destruct (bestPatterns g); returns_auto.
Qed.

Lemma returns_adaptBehaviorFrequencies : returns adaptBehaviorFrequencies.
Proof.
  unfold adaptBehaviorFrequencies.
  apply returns_bind; [apply returns_getGuard | intro g].
  destruct (topBehaviors g); returns_auto.
Qed.

Lemma returns_adaptPersonality : returns adaptPersonality.
Proof.
  unfold adaptPersonality.
  destruct (negb Config.feedbackLoopEnabled); [apply returns_ret|].
  apply returns_bind; [apply returns_getGuard | intro g].
  destruct (adaptationNeeded g); [|apply returns_ret].
  apply returns_bind; [apply returns_adaptValidationThresholds | intro].
  apply returns_bind; [apply returns_learnEnhancementPatterns | intro].
  apply returns_bind; [apply returns_adaptBehaviorFrequencies | intro].
  apply returns_bind; [apply returns_now | intro].
  apply returns_bind; [apply returns_modifyGuard | intro].
  apply returns_saveLearningData.
Qed.

Lemma returns_enhancedEnhanceResponse (response : jsstring) :
  returns (enhancedEnhanceResponse response).
Proof.
  intros w. destruct (enhancedEnhanceResponse_keeps response w)
    as [pre [post [w' E]]]. eauto.
Qed.

(** On two strings the entry point returns a decision. *)
Lemma returns_processChatMessage (toLowerCase : jsstring -> jsstring)
    (userMessage aiResponse : jsstring) :
  returns (processChatMessage toLowerCase (VString userMessage)
                              (VString aiResponse)).
Proof.
  unfold processChatMessage, asString.
  apply returns_bind; [apply returns_ret | intro um].
  apply returns_bind; [apply returns_ret | intro ai].
  apply returns_bind; [apply returns_getGuard | intro g].
  destruct (shouldRedirect _).
  - apply returns_bind; [apply returns_generateFallbackResponse | intro].
    apply returns_bind; [apply returns_updateLearningData | intro].
    apply returns_ret.
  - destruct (negb _).
    + apply returns_bind; [apply returns_attemptResponseFix | intro].
      apply returns_bind; [apply returns_updateLearningData | intro].
      apply returns_ret.
    + apply returns_bind; [apply returns_enhancedEnhanceResponse | intro].
      apply returns_bind; [apply returns_updateLearningData | intro].
      apply returns_bind; [apply returns_getGuard | intro g'].
      apply returns_bind; [|intro; apply returns_ret].
      destruct (_ =? _)%nat; [apply returns_adaptPersonality | apply returns_ret].
Qed.

(** ** Threat detection and the redirect decision (C2) *)

Section ThreatDetection.

Variable toLowerCase : jsstring -> jsstring.

Lemma isPersonalityThreat_iff (userMessage : jsstring) :
  isPersonalityThreat (processUserMessage toLowerCase userMessage) = true
  <-> matchesOverride toLowerCase userMessage.
Proof.
  unfold processUserMessage, matchesOverride; cbn [isPersonalityThreat].
  rewrite existsb_exists. reflexivity.
Qed.

Lemma redirectTopics_keys_nonempty (topic : jsstring) :
  In topic (map fst Config.redirectTopics) -> isEmpty topic = false.
Proof.
  intros H.
  assert (K : forallb (fun t => negb (isEmpty t))
                      (map fst Config.redirectTopics) = true)
    by (vm_compute; reflexivity).
  rewrite forallb_forall in K. specialize (K topic H).
  now apply negb_true_iff in K.
Qed.

Lemma topic_found_iff (userMessage : jsstring) :
  (exists t, redirectTopic (processUserMessage toLowerCase userMessage) = Some t
             /\ isEmpty t = false)
  <-> matchesTopic toLowerCase userMessage.
Proof.
  unfold processUserMessage, matchesTopic; cbn [redirectTopic]. split.
  - intros [t [Hf _]]. apply find_some in Hf. now exists t.
  - intros [topic [Hin Hinc]].
    destruct (find _ _) as [t|] eqn:Hf.
    + exists t. split; [reflexivity|].
      apply find_some in Hf. apply redirectTopics_keys_nonempty, Hf.
    + pose proof (find_none _ _ Hf topic Hin) as K. cbv beta in K. congruence.
Qed.

Lemma shouldRedirect_iff (userMessage : jsstring) :
  shouldRedirect (processUserMessage toLowerCase userMessage) = true
  <-> matchesOverride toLowerCase userMessage \/ matchesTopic toLowerCase userMessage.
Proof.
  rewrite <- isPersonalityThreat_iff, <- topic_found_iff.
  unfold processUserMessage;
    cbn [shouldRedirect isPersonalityThreat redirectTopic].
  rewrite orb_true_iff. split.
  - intros [H | H]; [now left | right].
    destruct (find _ _) as [t|]; [|discriminate].
    exists t. split; [reflexivity | now apply negb_true_iff].
  - intros [H | [t [-> Ht]]]; [now left | right]. now rewrite Ht.
Qed.

Lemma redirectReason_override (userMessage : jsstring) :
  matchesOverride toLowerCase userMessage ->
  redirectReason (processUserMessage toLowerCase userMessage)
  = Some personality_override.
Proof.
  intros H. apply isPersonalityThreat_iff in H.
  unfold processUserMessage in *. cbn [isPersonalityThreat redirectReason] in *.
  now rewrite H.
Qed.

Lemma redirectReason_topic (userMessage : jsstring) :
  ~ matchesOverride toLowerCase userMessage -> matchesTopic toLowerCase userMessage ->
  redirectReason (processUserMessage toLowerCase userMessage)
  = Some redirect_topic.
Proof.
  intros Hno Ht. rewrite <- isPersonalityThreat_iff in Hno.
  apply topic_found_iff in Ht. destruct Ht as [t [Ht Hne]].
  unfold processUserMessage in *.
  cbn [isPersonalityThreat redirectReason redirectTopic] in *.
  destruct (existsb _ _); [now contradiction Hno|].
  now rewrite Ht, Hne.
Qed.

(** The redirect branch of [processChatMessage]. *)
Lemma processChatMessage_redirect (userMessage aiResponse : jsstring)
    (w : World) :
  shouldRedirect (processUserMessage toLowerCase userMessage) = true ->
  exists response w1 w2,
    generateFallbackResponse toLowerCase userMessage redirect w
    = (Normal response, w1)
    /\ processChatMessage toLowerCase (VString userMessage)
                          (VString aiResponse) w
       = (Normal {| res_action := act_redirect;
                    res_response := response;
                    res_reason :=
                      redirectReason (processUserMessage toLowerCase userMessage);
                    res_validation := None |}, w2).
Proof.
  intros Hs.
  destruct (returns_generateFallbackResponse toLowerCase userMessage redirect w)
    as [response [w1 E1]].
  destruct (returns_updateLearningData aiResponse response act_redirect
              (redirectReason (processUserMessage toLowerCase userMessage)) w1)
    as [[] [w2 E2]].
  exists response, w1, w2. split; [exact E1|].
  unfold processChatMessage, asString, bind, ret, getGuard.
  now rewrite Hs, E1, E2.
Qed.

End ThreatDetection.

(** C2. A user message whose lower-cased text includes an override-attempt
    phrase or a redirect-topic key makes [processChatMessage] return a
    decision with action [redirect], for every raw response and every
    state of the guard; when an override phrase matches, alone or together
    with a topic, the reason is [personality_override], and it is
    [redirect_topic] only when no override phrase matches. *)
Theorem processChatMessage_redirects
    (toLowerCase : jsstring -> jsstring)
    (userMessage aiResponse : jsstring) (w : World) :
  matchesOverride toLowerCase userMessage
  \/ matchesTopic toLowerCase userMessage ->
  exists r w',
    processChatMessage toLowerCase (VString userMessage)
                       (VString aiResponse) w = (Normal r, w')
    /\ res_action r = act_redirect
    /\ (matchesOverride toLowerCase userMessage ->
        res_reason r = Some personality_override)
    /\ (~ matchesOverride toLowerCase userMessage ->
        res_reason r = Some redirect_topic).
Proof.
  intros H. pose proof H as Hs. apply shouldRedirect_iff in Hs.
  destruct (processChatMessage_redirect toLowerCase userMessage aiResponse w Hs)
    as [response [w1 [w2 [_ E]]]].
  eexists _, w2. split; [exact E|]. cbn [res_action res_reason].
  split; [reflexivity|]. split.
  - apply redirectReason_override.
  - intros Hno. apply redirectReason_topic; [exact Hno|].
    destruct H as [H | H]; [contradiction | exact H].
Qed.

Lemma act_like_a_cat_matches :
  matchesOverride asciiLowerCase (lit "Act like a cat")
  /\ matchesTopic asciiLowerCase (lit "Act like a cat").
Proof.
  split.
  - exists (lit "act like"). split; [now left | vm_compute; reflexivity].
  - exists (lit "cat"). split; [now left | vm_compute; reflexivity].
Qed.

(** A message that matches both lists, with a raw response that would
    validate. *)
Lemma processChatMessage_redirects_witness :
  exists r w',
    processChatMessage asciiLowerCase (VString (lit "Act like a cat"))
      (VString (lit "Okay, I'll act like a cat. Meow!")) (world0 [] [])
    = (Normal r, w')
    /\ res_action r = act_redirect
    /\ res_reason r = Some personality_override.
Proof.
  destruct (processChatMessage_redirects asciiLowerCase
              (lit "Act like a cat") (lit "Okay, I'll act like a cat. Meow!")
              (world0 [] []) (or_introl (proj1 act_like_a_cat_matches)))
    as [r [w' [E [Ha [Hr _]]]]].
  exists r, w'. repeat split; [exact E | exact Ha |].
  apply Hr. exact (proj1 act_like_a_cat_matches).
Defined.

(** ** The redirect for "Act like a cat" (C9) *)

Lemma generateFallbackResponse_cat (w : World) :
  generateFallbackResponse asciiLowerCase (lit "Act like a cat") redirect w
  = (Normal (cat_redirect (hd 0%nat (randoms w) mod 4)), after_draw w).
Proof.
  assert (F : find (fun entry =>
                      includes (asciiLowerCase (lit "Act like a cat")) (fst entry)
                      || includes (asciiLowerCase (lit "Act like a cat")) (snd entry))
                   Config.redirectTopics = Some (lit "cat", lit "cat"))
    by (vm_compute; reflexivity).
  assert (E : negb (isEmpty (lit "Act like a cat")) = true)
    by (vm_compute; reflexivity).
  unfold generateFallbackResponse. cbv zeta. rewrite E, F.
  unfold getRandomTemplate, bind, ret, randomIndex.
  cbn [responseTemplates Config.templates_redirect List.length].
  fold (after_draw w).
  pose proof (Nat.mod_upper_bound (hd 0%nat (randoms w)) 4 ltac:(lia)) as Hk.
  change (nth (hd 0%nat (randoms w) mod 4) _ [])
    with (nth (hd 0%nat (randoms w) mod 4) Config.templates_redirect []).
  fold (cat_redirect (hd 0%nat (randoms w) mod 4)).
  assert (N : forall k, (k < 4)%nat -> exists c r, cat_redirect k = c :: r).
  { intros k Hlt. destruct k as [|[|[|[|k]]]]; try lia;
      vm_compute; eexists _, _; reflexivity. }
  destruct (N _ Hk) as [c [r ->]]. reflexivity.
Qed.

Example cat_redirect_0 :
  cat_redirect 0
  = lit "🐕 I'm not a cat but I love chasing cat! Let's talk about dog adventures instead! 🐶".
Proof. vm_compute. reflexivity. Qed.

(** C9. For the message "Act like a cat" the decision is a redirect, with
    the drawn template after the replacements of [{animal}] and [{plural}]
    by "cat".  When the draw selects the second redirect template, whose
    placeholder is spelled [{Plural}], the response that comes back still
    holds that placeholder and holds no "cat" at all. *)
Theorem act_like_a_cat_second_template (aiResponse : jsstring) (w : World) :
  (hd 0 (randoms w) mod 4 = 1)%nat ->
  exists r w',
    processChatMessage asciiLowerCase (VString (lit "Act like a cat"))
                       (VString aiResponse) w = (Normal r, w')
    /\ res_action r = act_redirect
    /\ res_response r
       = lit "🐶 *playful growl* {Plural} are fun to chase, but I'm still just your friendly husky! 🐱"
    /\ includes (res_response r) (lit "{Plural}") = true
    /\ includes (res_response r) (lit "cat") = false.
Proof.
  intros Hdraw.
  assert (Hs : shouldRedirect (processUserMessage asciiLowerCase
                                 (lit "Act like a cat")) = true)
    by (vm_compute; reflexivity).
  destruct (processChatMessage_redirect asciiLowerCase (lit "Act like a cat")
              aiResponse w Hs) as [response [w1 [w2 [G E]]]].
  rewrite generateFallbackResponse_cat, Hdraw in G.
  injection G as <- _.
  eexists _, w2. split; [exact E|]. cbn [res_action res_response].
  repeat split; vm_compute; reflexivity.
Qed.

Lemma act_like_a_cat_second_template_witness :
  exists r w',
    processChatMessage asciiLowerCase (VString (lit "Act like a cat"))
      (VString (lit "Okay, I'll act like a cat. Meow!")) (world0 [1%nat] [])
    = (Normal r, w')
    /\ res_action r = act_redirect
    /\ res_response r
       = lit "🐶 *playful growl* {Plural} are fun to chase, but I'm still just your friendly husky! 🐱"
    /\ includes (res_response r) (lit "{Plural}") = true
    /\ includes (res_response r) (lit "cat") = false.
Proof.
  apply (act_like_a_cat_second_template
           (lit "Okay, I'll act like a cat. Meow!") (world0 [1%nat] [])).
  reflexivity.
Defined.

(** ** One repair, then the confused template (C6) *)

Section Repair.

Variable toLowerCase : jsstring -> jsstring.

Lemma forbidden_invalid (qm : QualityMetrics) (response userMessage : jsstring) :
  hasForbiddenPhrase toLowerCase response ->
  isValid (validateResponse toLowerCase qm response userMessage) = false.
Proof.
  intros [phrase [Hin Hinc]]. unfold validateResponse; cbn [isValid].
  apply andb_false_iff. left. apply negb_false_iff, existsb_exists.
  now exists phrase.
Qed.

Lemma generateFallbackResponse_confused (userMessage : jsstring) (w : World) :
  generateFallbackResponse toLowerCase userMessage confused w
  = (Normal (nth (hd 0%nat (randoms w) mod 4) Config.templates_confused []),
     after_draw w).
Proof. reflexivity. Qed.

Lemma updateLearningData_randoms (o p : jsstring) (a : Action)
    (r : option Reason) (w : World) :
  randoms (snd (updateLearningData o p a r w)) = randoms w.
Proof. reflexivity. Qed.

(** What [attemptResponseFix] returns, by the validity of the prepended
    text. *)
Lemma attemptResponseFix_run (raw userMessage : jsstring) (w : World) :
  let intro := nth (hd 0 (randoms w) mod 4)%nat dogIntros [] in
  attemptResponseFix toLowerCase raw userMessage w
  = if isValid (validateResponse toLowerCase (qualityMetrics (guard w))
                  (intro ++ raw) userMessage)
    then (Normal (intro ++ raw), after_draw w)
    else (Normal (nth (hd 0 (tl (randoms w)) mod 4)%nat
                      Config.templates_confused []),
          after_draw (after_draw w)).
Proof.
  intros intro.
  unfold attemptResponseFix, bind, getGuard, randomIndex.
  cbn [List.length dogIntros guard]. fold (after_draw w). fold intro.
  change (guard (after_draw w)) with (guard w).
  destruct (isValid _); [reflexivity|].
  apply generateFallbackResponse_confused.
Qed.

End Repair.

(** C6. When the user message matches neither list, [processChatMessage]
    makes one repair of an invalid raw response: it draws one
    introduction and prepends it; if the prepended text is valid it is the
    response, after this one draw, and otherwise the response is the
    confused template selected by a second draw.  When the raw response
    includes an avoid-phrase, the prepended text includes it as well and
    is invalid again, so the response is the confused template and the
    exchange reads two draws.  The lower-casing is assumed to leave the
    lowered response as a suffix when an introduction is prepended. *)
Theorem forbidden_response_falls_back_confused
    (toLowerCase : jsstring -> jsstring)
    (userMessage aiResponse : jsstring) (w : World) :
  (forall intro, In intro dogIntros ->
     exists pre, toLowerCase (intro ++ aiResponse) = pre ++ toLowerCase aiResponse) ->
  ~ matchesOverride toLowerCase userMessage ->
  ~ matchesTopic toLowerCase userMessage ->
  hasForbiddenPhrase toLowerCase aiResponse ->
  let intro := nth (hd 0 (randoms w) mod 4)%nat dogIntros [] in
  let template :=
    nth (hd 0 (tl (randoms w)) mod 4)%nat Config.templates_confused [] in
  let valid text :=
    isValid (validateResponse toLowerCase (qualityMetrics (guard w))
                              text userMessage) in
  (forall raw, valid raw = false ->
     exists r w',
       processChatMessage toLowerCase (VString userMessage) (VString raw) w
       = (Normal r, w')
       /\ res_action r = act_fix_or_fallback
       /\ res_response r = (if valid (intro ++ raw) then intro ++ raw
                            else template)
       /\ randoms w' = (if valid (intro ++ raw) then tl (randoms w)
                        else tl (tl (randoms w))))
  /\ valid aiResponse = false
  /\ exists r w',
       processChatMessage toLowerCase (VString userMessage)
                          (VString aiResponse) w = (Normal r, w')
       /\ res_action r = act_fix_or_fallback
       /\ res_reason r = Some personality_inconsistent
       /\ In intro dogIntros
       /\ hasForbiddenPhrase toLowerCase (intro ++ aiResponse)
       /\ valid (intro ++ aiResponse) = false
       /\ res_response r = template
       /\ In (res_response r) Config.templates_confused
       /\ randoms w' = tl (tl (randoms w)).
Proof.
  intros Hlow Hno Hnt Hbad intro template valid.
  assert (Hs : shouldRedirect (processUserMessage toLowerCase userMessage) = false).
  { destruct (shouldRedirect _) eqn:E; [|reflexivity].
    apply shouldRedirect_iff in E. tauto. }
  assert (Hin : In intro dogIntros).
  { apply nth_In. apply Nat.mod_upper_bound. discriminate. }
  assert (Hfix : hasForbiddenPhrase toLowerCase (intro ++ aiResponse)).
  { destruct Hbad as [phrase [Hp Hinc]]. exists phrase. split; [exact Hp|].
    destruct (Hlow intro Hin) as [pre ->]. now apply includes_app_l. }
  pose proof (forbidden_invalid toLowerCase (qualityMetrics (guard w))
                aiResponse userMessage Hbad) as Hv.
  pose proof (forbidden_invalid toLowerCase (qualityMetrics (guard w))
                (intro ++ aiResponse) userMessage Hfix) as Hv'.
  assert (Repair : forall raw, valid raw = false ->
     exists r w',
       processChatMessage toLowerCase (VString userMessage) (VString raw) w
       = (Normal r, w')
       /\ res_action r = act_fix_or_fallback
       /\ res_reason r = Some personality_inconsistent
       /\ res_response r = (if valid (intro ++ raw) then intro ++ raw
                            else template)
       /\ randoms w' = (if valid (intro ++ raw) then tl (randoms w)
                        else tl (tl (randoms w)))).
  { intros raw Hraw.
    pose proof (attemptResponseFix_run toLowerCase raw userMessage w) as Hrun.
    cbv zeta in Hrun. fold intro in Hrun. fold template in Hrun.
    fold (valid (intro ++ raw)) in Hrun.
    set (reply := if valid (intro ++ raw) then intro ++ raw else template).
    set (wd := if valid (intro ++ raw) then after_draw w
               else after_draw (after_draw w)).
    assert (Hrun' : attemptResponseFix toLowerCase raw userMessage w
                    = (Normal reply, wd))
      by (rewrite Hrun; subst reply wd; now destruct (valid (intro ++ raw))).
    destruct (returns_updateLearningData raw reply act_fix_or_fallback
                (Some personality_inconsistent) wd) as [[] [w2 E2]].
    pose proof (updateLearningData_randoms raw reply act_fix_or_fallback
                  (Some personality_inconsistent) wd) as Hr.
    rewrite E2 in Hr. cbn [snd] in Hr.
    eexists _, w2. split.
    - unfold processChatMessage, asString, bind, ret, getGuard.
      unfold valid in Hraw. rewrite Hs, Hraw. cbn [negb].
      rewrite Hrun', E2. reflexivity.
    - cbn [res_action res_reason res_response].
      split; [reflexivity|]. split; [reflexivity|]. split; [reflexivity|].
      rewrite Hr. subst wd. now destruct (valid (intro ++ raw)). }
  split.
  { intros raw Hraw. destruct (Repair raw Hraw) as [r [w' [E [A [_ [R W]]]]]].
    now exists r, w'. }
  split; [exact Hv|].
  destruct (Repair aiResponse Hv) as [r [w' [E [A [Re [R W]]]]]].
  unfold valid in R, W. rewrite Hv' in R, W.
  exists r, w'. split; [exact E|]. split; [exact A|]. split; [exact Re|].
  split; [exact Hin|]. split; [exact Hfix|]. split; [exact Hv'|].
  split; [exact R|]. split; [|exact W].
  rewrite R. apply nth_In. apply Nat.mod_upper_bound. discriminate.
Qed.

Lemma asciiLowerCase_app (a b : jsstring) :
  asciiLowerCase (a ++ b) = asciiLowerCase a ++ asciiLowerCase b.
Proof. apply map_app. Qed.

Lemma forbidden_response_falls_back_confused_witness :
  (exists r w',
     processChatMessage asciiLowerCase
       (VString (lit "Tell me about quantum physics"))
       (VString (lit "As an AI language model, quantum physics involves..."))
       (world0 [2; 1]%nat []) = (Normal r, w')
     /\ res_action r = act_fix_or_fallback
     /\ res_response r
        = lit "🐶 *tilts head confused* Hmm, that went over my fluffy head! Try again? 🐾"
     /\ randoms w' = [])
  /\ (exists r w',
        processChatMessage asciiLowerCase
          (VString (lit "Tell me about quantum physics"))
          (VString (lit "Hi")) (world0 [2; 1]%nat []) = (Normal r, w')
        /\ res_action r = act_fix_or_fallback
        /\ res_response r = lit "🐾 Hey human! Hi"
        /\ randoms w' = [1]%nat).
Proof.
  destruct (forbidden_response_falls_back_confused asciiLowerCase
              (lit "Tell me about quantum physics")
              (lit "As an AI language model, quantum physics involves...")
              (world0 [2; 1]%nat []))
    as [Repair [_ [r [w' [E [Ha [_ [_ [_ [_ [Hr [_ Hw]]]]]]]]]]]].
  - intros intro _. eexists. apply asciiLowerCase_app.
  - intros H. apply isPersonalityThreat_iff in H. vm_compute in H. discriminate.
  - intros H. apply topic_found_iff in H. destruct H as [t [H _]].
    vm_compute in H. discriminate.
  - exists (lit "as an ai"). split; [now left | vm_compute; reflexivity].
  - split.
    + exists r, w'. split; [exact E|]. split; [exact Ha|].
      split; [rewrite Hr; vm_compute; reflexivity | exact Hw].
    + destruct (Repair (lit "Hi")) as [r2 [w2 [E2 [A2 [R2 W2]]]]];
        [vm_compute; reflexivity|].
      exists r2, w2. split; [exact E2|]. split; [exact A2|].
      split; [rewrite R2 | rewrite W2]; vm_compute; reflexivity.
Defined.

(** ** Exceptions and the caller's handler (C3) *)

(** [processChatMessage] has no handler of its own: with a raw response
    that is [null], the [TypeError] raised in [validateResponse] reaches
    the caller. *)
Lemma processChatMessage_throws_on_null :
  processChatMessage asciiLowerCase
    (VString (lit "Tell me about quantum physics")) VNull (world0 [] [])
  = (Throw TypeError, world0 [] []).
Proof. reflexivity. Qed.

(** C3, amended. On two strings [processChatMessage] returns a decision.
    When the user message or the raw response is not a string, the
    [TypeError] raised in threat detection or in validation leaves
    [processChatMessage] and the guard state is as before.  The handler is
    in the caller: the guard block of the [/chat] route always returns,
    with the response of the decision when there is one, and with the raw
    response, the state unchanged, when the guard raised. *)
Theorem processChatMessage_raises_caller_fails_open
    (toLowerCase : jsstring -> jsstring) :
  (forall userMessage aiResponse : jsstring,
     returns (processChatMessage toLowerCase (VString userMessage)
                                 (VString aiResponse)))
  /\ (forall (userMessage aiResponse : jsvalue) (w : World),
        isString userMessage && isString aiResponse = false ->
        processChatMessage toLowerCase userMessage aiResponse w
        = (Throw TypeError, w))
  /\ (forall (userMessage : jsvalue) (rawResponse : jsstring) (w : World),
        match processChatMessage toLowerCase userMessage
                                 (VString rawResponse) w with
        | (Normal r, w') =>
            chat_guardBlock toLowerCase userMessage rawResponse w
            = (Normal (res_response r), w')
        | (Throw _, w') =>
            chat_guardBlock toLowerCase userMessage rawResponse w
            = (Normal rawResponse, w) /\ w' = w
        end).
Proof.
  split; [|split].
  - apply returns_processChatMessage.
  - intros userMessage aiResponse w H.
    destruct userMessage; try reflexivity.
    destruct aiResponse; try reflexivity. discriminate H.
  - intros userMessage rawResponse w.
    destruct userMessage as [| | b | z | s |];
      try (split; reflexivity).
    destruct (returns_processChatMessage toLowerCase s rawResponse w)
      as [r [w' E]].
    rewrite E. unfold chat_guardBlock, try_catch, bind, ret. now rewrite E.
Qed.

(** ** The two bounded logs (C4) *)

Lemma updateLearningData_guard (o p : jsstring) (a : Action)
    (r : option Reason) (w : World) :
  let e := learningEntry_at (hd 0%N (clock w)) o p a r in
  let g := guard w in
  let g' := guard (exec (updateLearningData o p a r) w) in
  successfulResponses (learningData g')
  = shift_if_over 100 (successfulResponses (learningData g) ++ successes [e])
  /\ failedResponses (learningData g')
     = shift_if_over 100 (failedResponses (learningData g) ++ failures [e])
  /\ lastAdapted (learningData g') = lastAdapted (learningData g)
  /\ qualityMetrics g' = qualityMetrics g
  /\ adaptationRules g' = adaptationRules g.
Proof.
  destruct a; cbn; rewrite ?app_nil_r; repeat split; reflexivity.
Qed.

Lemma slice_last_length {A} (n : nat) (l : list A) :
  List.length (slice_last n l) = Nat.min n (List.length l).
Proof. unfold slice_last. rewrite length_skipn. lia. Qed.

Lemma slice_last_all {A} (n : nat) (l : list A) :
  (List.length l <= n)%nat -> slice_last n l = l.
Proof.
  intros H. unfold slice_last.
  replace (List.length l - n)%nat with 0%nat by lia. reflexivity.
Qed.

Lemma shift_if_over_slice {A} (n : nat) (l : list A) :
  (List.length l <= S n)%nat -> shift_if_over n l = slice_last n l.
Proof.
  intros H. unfold shift_if_over, slice_last.
  destruct (Nat.ltb_spec n (List.length l)) as [Hlt | Hge].
  - replace (List.length l - n)%nat with 1%nat by lia.
    destruct l; reflexivity.
  - replace (List.length l - n)%nat with 0%nat by lia. reflexivity.
Qed.

Lemma slice_last_app_slice {A} (n : nat) (l r : list A) :
  slice_last n (slice_last n l ++ r) = slice_last n (l ++ r).
Proof.
  unfold slice_last. rewrite !length_app, length_skipn.
  destruct (Nat.le_gt_cases (List.length l) n) as [Hle | Hgt].
  - replace (List.length l - n)%nat with 0%nat by lia.
    cbn [skipn]. f_equal. lia.
  - rewrite (skipn_app (List.length l + List.length r - n)).
    rewrite (skipn_app (List.length l - (List.length l - n)
                        + List.length r - n)).
    rewrite length_skipn, skipn_skipn.
    replace (List.length l + List.length r - n - List.length l)%nat
      with (List.length r - n)%nat by lia.
    replace (List.length l - (List.length l - n) + List.length r - n
             - (List.length l - (List.length l - n)))%nat
      with (List.length r - n)%nat by lia.
    f_equal. f_equal. lia.
Qed.

(** The logs after a replay, from any state whose logs respect the cap. *)
Lemma replay_logs (cs : list Call) : forall (w : World),
  let d := learningData (guard w) in
  let d' := learningData (guard (replay cs w)) in
  (List.length (successfulResponses d) <= 100)%nat ->
  (List.length (failedResponses d) <= 100)%nat ->
  successfulResponses d'
  = slice_last 100 (successfulResponses d ++ successes (appended cs w))
  /\ failedResponses d'
     = slice_last 100 (failedResponses d ++ failures (appended cs w)).
Proof.
  induction cs as [|c cs IH]; intros w d d' Hs Hf; subst d d'.
  - cbn [replay appended successes failures filter].
    rewrite !app_nil_r, !slice_last_all by assumption. now split.
  - cbn [replay appended].
    destruct (updateLearningData_guard (call_original c) (call_processed c)
                (call_action c) (call_reason c) w) as [Es [Ef _]].
    fold (perform c) in Es, Ef.
    set (e := learningEntry_at _ _ _ _ _) in *.
    assert (Ls : (List.length (successfulResponses (learningData (guard w))
                               ++ successes [e]) <= 101)%nat).
    { rewrite length_app. unfold successes. cbn [filter].
      destruct (success e); cbn [List.length]; lia. }
    assert (Lf : (List.length (failedResponses (learningData (guard w))
                               ++ failures [e]) <= 101)%nat).
    { rewrite length_app. unfold failures. cbn [filter].
      destruct (negb (success e)); cbn [List.length]; lia. }
    rewrite shift_if_over_slice in Es, Ef by assumption.
    destruct (IH (exec (perform c) w)) as [IHs IHf].
    + rewrite Es, slice_last_length. lia.
    + rewrite Ef, slice_last_length. lia.
    + rewrite IHs, IHf, Es, Ef, !slice_last_app_slice, <- !app_assoc.
      split; f_equal; f_equal; unfold successes, failures; cbn [filter];
        destruct (success e); reflexivity.
Qed.

(** C4. From a state with empty logs, after any sequence of
    [updateLearningData] calls each log holds the last 100 of the entries
    appended to it, in the order of their insertion; so no log is ever
    longer than 100, and once more than 100 entries went into a log it
    holds exactly 100, the oldest having left first. *)
Theorem logs_hold_last_100 (cs : list Call) (w : World) :
  successfulResponses (learningData (guard w)) = [] ->
  failedResponses (learningData (guard w)) = [] ->
  let d' := learningData (guard (replay cs w)) in
  let S := successes (appended cs w) in
  let F := failures (appended cs w) in
  successfulResponses d' = skipn (List.length S - 100) S
  /\ failedResponses d' = skipn (List.length F - 100) F
  /\ (List.length (successfulResponses d') <= 100)%nat
  /\ (List.length (failedResponses d') <= 100)%nat
  /\ ((100 < List.length S)%nat ->
      List.length (successfulResponses d') = 100%nat)
  /\ ((100 < List.length F)%nat ->
      List.length (failedResponses d') = 100%nat).
Proof.
  intros Hs Hf d' S F.
  destruct (replay_logs cs w) as [Es Ef].
  - rewrite Hs. cbn. lia.
  - rewrite Hf. cbn. lia.
  - rewrite Hs in Es. rewrite Hf in Ef. cbn [app] in Es, Ef.
    fold d' S in Es. fold d' F in Ef.
    split; [exact Es|]. split; [exact Ef|].
    rewrite Es, Ef, !slice_last_length. repeat split; lia.
Qed.

Lemma logs_hold_last_100_witness :
  List.length (successfulResponses (learningData (guard overflow_world)))
  = 100%nat
  /\ map timestamp
         (firstn 2 (successfulResponses (learningData (guard overflow_world))))
     = [7; 10]%N
  /\ List.length (failedResponses (learningData (guard overflow_world)))
     = 1%nat.
Proof.
  unfold overflow_world.
  destruct (logs_hold_last_100 overflow_calls (world0 [] (ticks 400))
              eq_refl eq_refl) as [Es [Ef [_ [_ [Hs _]]]]].
  split; [apply Hs; vm_compute; lia|].
  rewrite Es, Ef. split; vm_compute; reflexivity.
Defined.

(** ** Personality strength (C5) *)

(** After one successful exchange the code reports 1/20, where the claim
    has 1/1. *)
Lemma personalityStrength_one_success :
  personalityStrength
    (getPersonalityStats (guard (replay [enhanced_call] (world0 [] []))))
  = 1 # 20
  /\ claimed_personalityStrength (appended [enhanced_call] (world0 [] []))
     = 1 # 1
  /\ ~ (1 # 20 == 1 # 1).
Proof.
  split; [vm_compute; reflexivity|].
  split; [vm_compute; reflexivity|].
  intros H. vm_compute in H. discriminate H.
Qed.

(** The failure log is not read: twenty successes followed by twenty
    failures still give 1. *)
Example personalityStrength_after_failures :
  personalityStrength
    (getPersonalityStats
       (guard (replay (repeat enhanced_call 20 ++ repeat fallback_call 20)
                      (world0 [] []))))
  = 20 # 20
  /\ claimed_personalityStrength
       (appended (repeat enhanced_call 20 ++ repeat fallback_call 20)
                 (world0 [] []))
     = 0 # 20.
Proof. split; vm_compute; reflexivity. Qed.

Lemma filter_all {A} (f : A -> bool) (l : list A) :
  (forall x, In x l -> f x = true) -> filter f l = l.
Proof.
  induction l as [|a l IH]; intros H; cbn [filter]; [reflexivity|].
  rewrite (H a (or_introl eq_refl)). f_equal. apply IH.
  intros x Hx. apply H. now right.
Qed.

Lemma In_skipn {A} (k : nat) (l : list A) (x : A) :
  In x (skipn k l) -> In x l.
Proof.
  revert l; induction k as [|k IH]; intros l H; [exact H|].
  destruct l as [|a l]; [exact H|]. right. now apply IH.
Qed.

Lemma appended_success (cs : list Call) : forall (w : World) (e : LearningEntry),
  (forall c, In c cs -> call_action c <> act_fix_or_fallback) ->
  In e (appended cs w) -> success e = true.
Proof.
  induction cs as [|c cs IH]; intros w e Hok Hin; [destruct Hin|].
  cbn [appended] in Hin. destruct Hin as [<- | Hin].
  - cbn [learningEntry_at success].
    specialize (Hok c (or_introl eq_refl)).
    destruct (call_action c); [reflexivity | congruence | reflexivity].
  - apply (IH (exec (perform c) w)); [|exact Hin].
    intros c' Hc'. apply Hok. now right.
Qed.

Lemma appended_length (cs : list Call) : forall w : World,
  List.length (appended cs w) = List.length cs.
Proof.
  induction cs as [|c cs IH]; intros w; cbn [appended List.length];
    [reflexivity | now rewrite IH].
Qed.

(** C5, amended. From empty logs and as long as no failure is logged, the
    strength is the number of successes among the 20 most recent entries
    over 20: the denominator is the window of 20 also when fewer entries
    exist, and the strength is 0 when there is no entry. *)
Theorem personalityStrength_without_failures (cs : list Call) (w : World) :
  successfulResponses (learningData (guard w)) = [] ->
  failedResponses (learningData (guard w)) = [] ->
  (forall c, In c cs -> call_action c <> act_fix_or_fallback) ->
  let strength := personalityStrength (getPersonalityStats (guard (replay cs w))) in
  strength
  == ratio (List.length (successes (slice_last 20 (appended cs w)))) 20
  /\ strength == ratio (Nat.min 20 (List.length cs)) 20
  /\ (cs = [] -> strength = 0).
Proof.
  intros Hs Hf Hok strength.
  destruct (replay_logs cs w) as [Es _].
  { rewrite Hs. cbn. lia. } { rewrite Hf. cbn. lia. }
  rewrite Hs in Es. cbn [app] in Es.
  assert (Hall : successes (appended cs w) = appended cs w).
  { apply filter_all. intros e. now apply appended_success. }
  assert (Hrecent : successes (slice_last 20 (appended cs w))
                    = slice_last 20 (appended cs w)).
  { apply filter_all. intros e He. apply In_skipn in He.
    now apply (appended_success cs w). }
  rewrite Hall in Es.
  assert (Hval : strength == ratio (Nat.min 20 (List.length cs)) 20).
  { subst strength. cbn [getPersonalityStats personalityStrength].
    unfold calculatePersonalityStrength. rewrite Es.
    destruct (slice_last 100 (appended cs w)) as [|e l] eqn:El.
    - assert (L : List.length (slice_last 100 (appended cs w)) = 0%nat)
        by now rewrite El.
      rewrite slice_last_length, appended_length in L.
      replace (Nat.min 20 (List.length cs)) with 0%nat by lia. reflexivity.
    - rewrite <- El, !slice_last_length, appended_length.
      replace (Nat.min 20 (Nat.min 100 (List.length cs)))
        with (Nat.min 20 (List.length cs)) by lia. reflexivity. }
  split; [|split].
  - rewrite Hrecent, slice_last_length, appended_length. exact Hval.
  - exact Hval.
  - intros ->. subst strength. cbn [replay getPersonalityStats personalityStrength].
    unfold calculatePersonalityStrength. now rewrite Hs.
Qed.

Lemma personalityStrength_without_failures_witness :
  personalityStrength
    (getPersonalityStats
       (guard (replay (repeat enhanced_call 5) (world0 [] []))))
  == 5 # 20.
Proof.
  destruct (personalityStrength_without_failures
              (repeat enhanced_call 5) (world0 [] []) eq_refl eq_refl)
    as [_ [H _]].
  - intros c Hc. apply repeat_spec in Hc. subst c. discriminate.
  - exact H.
Defined.

(** ** Rounding *)

Lemma round_half_even_bounds (n d : Z) :
  (0 <= n)%Z -> (0 < d)%Z ->
  (n / d <= round_half_even n d <= n / d + 1)%Z.
Proof.
  intros Hn Hd. unfold round_half_even. cbv zeta.
  destruct (2 * (n mod d) ?= d)%Z; [destruct (Z.even _)| |]; lia.
Qed.

(** With a quotient of at least 1, rounding at most doubles. *)
Lemma round_half_even_double (n d : Z) :
  (0 < d)%Z -> (d <= n)%Z ->
  (0 <= round_half_even n d)%Z /\ (round_half_even n d * d <= 2 * n)%Z.
Proof.
  intros Hd Hn.
  destruct (round_half_even_bounds n d) as [L U]; [lia | lia |].
  assert (Q1 : (1 <= n / d)%Z) by (apply Z.div_le_lower_bound; lia).
  assert (M : (d * (n / d) <= n)%Z) by (apply Z.mul_div_le; lia).
  split; [lia | nia].
Qed.

Lemma binade_le (a b : Z) : (binade a b <= Z.log2 a - Z.log2 b - 52)%Z.
Proof. unfold binade. cbv zeta. destruct (_ <=? _)%Z; lia. Qed.

Lemma toDouble_pos_double (a b : positive) :
  0 <= toDouble_pos (Zpos a) (Zpos b)
  /\ toDouble_pos (Zpos a) (Zpos b) <= 2 * (Zpos a # b).
Proof.
  pose proof (binade_le (Zpos a) (Zpos b)) as He.
  destruct (Z.log2_spec (Zpos a)) as [A1 A2]; [lia|].
  destruct (Z.log2_spec (Zpos b)) as [B1 B2]; [lia|].
  pose proof (Z.log2_nonneg (Zpos a)) as La.
  pose proof (Z.log2_nonneg (Zpos b)) as Lb.
  unfold toDouble_pos. cbv zeta.
  set (e := binade (Zpos a) (Zpos b)) in *.
  set (la := Z.log2 (Zpos a)) in *. set (lb := Z.log2 (Zpos b)) in *.
  destruct (0 <=? e)%Z eqn:E.
  - apply Z.leb_le in E.
    assert (P : (0 < 2 ^ e)%Z) by (apply Z.pow_pos_nonneg; lia).
    assert (D : (Zpos b * 2 ^ e <= Zpos a)%Z).
    { assert (H1 : (Zpos b * 2 ^ e < 2 ^ (lb + 1) * 2 ^ e)%Z) by nia.
      rewrite <- Z.pow_add_r in H1 by lia.
      assert (H2 : (2 ^ (lb + 1 + e) <= 2 ^ la)%Z)
        by (apply Z.pow_le_mono_r; lia).
      lia. }
    destruct (round_half_even_double (Zpos a) (Zpos b * 2 ^ e)) as [R0 R1];
      [nia | exact D |].
    set (m := round_half_even (Zpos a) (Zpos b * 2 ^ e)) in *.
    unfold Qle, inject_Z, Qmult. cbn [Qnum Qden]. split; nia.
  - apply Z.leb_gt in E.
    assert (P : (0 < 2 ^ (- e))%Z) by (apply Z.pow_pos_nonneg; lia).
    assert (D : (Zpos b <= Zpos a * 2 ^ (- e))%Z).
    { assert (H1 : (2 ^ la * 2 ^ (- e) <= Zpos a * 2 ^ (- e))%Z) by nia.
      rewrite <- Z.pow_add_r in H1 by lia.
      assert (H2 : (2 ^ (lb + 1) <= 2 ^ (la + - e))%Z)
        by (apply Z.pow_le_mono_r; lia).
      lia. }
    destruct (round_half_even_double (Zpos a * 2 ^ (- e)) (Zpos b)) as [R0 R1];
      [lia | exact D |].
    set (m := round_half_even (Zpos a * 2 ^ (- e)) (Zpos b)) in *.
    unfold Qle, Qmult. cbn [Qnum Qden].
    rewrite Z2Pos.id by exact P.
    set (k := (2 ^ (- e))%Z) in *. split; [lia|].
    rewrite Pos2Z.inj_mul.  nia.
Qed.

Lemma toDouble_nonpos (q : Q) : q <= 0 -> toDouble q <= 0.
Proof.
  intros H. unfold toDouble. destruct q as [[|a|a] b]; cbn [Qnum Qden].
  - apply Qle_refl.
  - exfalso. unfold Qle in H. cbn in H. lia.
  - destruct (toDouble_pos_double a b) as [P _].
    apply Qopp_le_compat in P. exact P.
Qed.

Lemma toDouble_double (q : Q) : 0 <= q -> toDouble q <= 2 * q.
Proof.
  intros H. unfold toDouble. destruct q as [[|a|a] b]; cbn [Qnum Qden].
  - unfold Qle. cbn. lia.
  - apply toDouble_pos_double.
  - exfalso. unfold Qle in H. cbn in H. lia.
Qed.

(** A number above 0.9 leaves a difference from 1 that is at most 0.3. *)
Lemma small_failureRate (sr : Q) :
  toDouble (9 # 10) < sr ->
  ~ toDouble (3 # 10) < toDouble (1 - sr)
  /\ ~ toDouble (4 # 10) < toDouble (1 - sr).
Proof.
  intros H.
  assert (C9 : toDouble (9 # 10) == 8106479329266893 # 9007199254740992)
    by (vm_compute; reflexivity).
  assert (C3 : toDouble (3 # 10) == 5404319552844595 # 18014398509481984)
    by (vm_compute; reflexivity).
  assert (C4 : toDouble (4 # 10) == 3602879701896397 # 9007199254740992)
    by (vm_compute; reflexivity).
  rewrite C9 in H. rewrite C3, C4.
  destruct (Qlt_le_dec (1 - sr) 0) as [N | N].
  - pose proof (toDouble_nonpos (1 - sr) (Qlt_le_weak _ _ N)) as T.
    split; intros K; lra.
  - pose proof (toDouble_double (1 - sr) N) as T.
    split; intros K; lra.
Qed.

Lemma rates_checked_at_adaptation :
  forallb (fun k => forallb (rates_checked (10 * k)) (seq 0 101)) (seq 1 10)
  = true.
Proof. vm_compute. reflexivity. Qed.

(** Where [processChatMessage] calls [adaptPersonality], that is with a
    multiple of 10 in the success log, and on logs of at most 100 entries
    each, which are the logs that [updateLearningData] keeps: the rates of
    the model are the values of the binary64 division and subtraction, and
    the three tests are comparisons of integers.  The trigger holds from a
    failure share of exactly 0.3 on: [1 - 0.7] is a number above [0.3]. *)
Lemma rates_at_adaptation (g : Guard) :
  let ns := List.length (successfulResponses (learningData g)) in
  let nf := List.length (failedResponses (learningData g)) in
  let total := Nat.max 1 (ns + nf) in
  let stats := getPersonalityStats g in
  (ns mod 10 = 0)%nat -> (0 < ns <= 100)%nat -> (nf <= 100)%nat ->
  adaptationNeeded g = (10 * ns <=? 7 * total)%nat && (20 <=? ns + nf)%nat
  /\ Qlt_bool (toDouble (4 # 10)) (failureRate stats)
     = (10 * ns <? 6 * total)%nat
  /\ Qlt_bool (toDouble (9 # 10)) (toDouble (successRate stats))
     = (9 * total <? 10 * ns)%nat
  /\ (exists q,
        binary64_value
          (binary64_div (binary64_of_Z (Z.of_nat ns))
                        (binary64_of_Z (Z.of_nat total))) = Some q
        /\ q == toDouble (successRate stats))
  /\ (exists q,
        binary64_value
          (binary64_sub (binary64_of_Z 1)
             (binary64_div (binary64_of_Z (Z.of_nat ns))
                           (binary64_of_Z (Z.of_nat total)))) = Some q
        /\ q == failureRate stats).
Proof.
  intros ns nf total stats Hmod Hs Hf.
  pose proof rates_checked_at_adaptation as K.
  assert (Ens : ns = (10 * (ns / 10))%nat).
  { pose proof (Nat.div_mod_eq ns 10) as D. lia. }
  rewrite forallb_forall in K. specialize (K (ns / 10)%nat).
  rewrite forallb_forall in K.
  assert (Hk : In (ns / 10)%nat (seq 1 10)).
  { apply in_seq. split; [|]; [| ].
    - destruct (ns / 10)%nat eqn:E; lia.
    - assert (ns / 10 <= 100 / 10)%nat by (apply Nat.Div0.div_le_mono; lia).
      change (100 / 10)%nat with 10%nat in *. lia. }
  specialize (K Hk nf). rewrite <- Ens in K.
  specialize (K ltac:(apply in_seq; lia)).
  unfold rates_checked in K. cbv zeta in K.
  fold total in K.
  unfold adaptationNeeded, getPersonalityStats in *. cbv zeta.
  unfold failureRate in *. cbn [successRate totalProcessed] in *.
  fold ns. fold nf. fold total. subst stats. cbn [successRate].
  fold ns. fold nf. fold total.
  rewrite !andb_true_iff in K. destruct K as [[[[K1 K2] K3] K4] K5].
  apply eqb_prop in K1, K2, K3.
  split; [now rewrite K1|]. split; [exact K2|]. split; [exact K3|].
  split.
  - destruct (binary64_value _) as [q|]; [|discriminate K4].
    exists q. split; [reflexivity | now apply Qeq_bool_iff].
  - destruct (binary64_value (binary64_sub _ _)) as [q|]; [|discriminate K5].
    exists q. split; [reflexivity | now apply Qeq_bool_iff].
Qed.

(** At fourteen successes and six failures the failure share is exactly
    the adaptation threshold, and the adaptation runs. *)
Example adaptation_at_threshold :
  let stats := getPersonalityStats (guard borderline_world) in
  1 - successRate stats == Config.adaptationThreshold
  /\ toDouble Config.adaptationThreshold < failureRate stats
  /\ adaptationNeeded (guard borderline_world) = true
  /\ lastAdapted (learningData (guard borderline_world)) = None
  /\ lastAdapted (learningData (guard (exec adaptPersonality borderline_world)))
     = Some 61%N.
Proof.
  cbv zeta.
  split; [vm_compute; reflexivity|].
  split; [vm_compute; reflexivity|].
  split; [vm_compute; reflexivity|].
  split; vm_compute; reflexivity.
Qed.

(** ** Adaptation (C7, C8) *)

Lemma adaptPersonality_skips (w : World) :
  adaptationNeeded (guard w) = false -> adaptPersonality w = (Normal tt, w).
Proof.
  intros H. unfold adaptPersonality, bind, getGuard.
  cbn [Config.feedbackLoopEnabled negb]. now rewrite H.
Qed.

Lemma adaptPersonality_adapts (w : World) :
  adaptationNeeded (guard w) = true ->
  guard (exec adaptPersonality w)
  = stamped (hd 0%N (clock w)) (preferring (learned (adjusted (guard w))))
  /\ clock (exec adaptPersonality w) = tl (tl (tl (clock w)))
  /\ randoms (exec adaptPersonality w) = randoms w.
Proof.
  intros H. unfold exec, adaptPersonality, bind, getGuard.
  cbn [Config.feedbackLoopEnabled negb]. rewrite H.
  unfold adaptValidationThresholds, adjusted.
  destruct (Qlt_bool (toDouble (4 # 10)) _);
    [| destruct (Qlt_bool (toDouble (9 # 10)) _)];
    cbn [modifyGuard ret guard];
    unfold learnEnhancementPatterns, learned, bind, getGuard; cbn [guard];
    match goal with |- context [bestPatterns ?g] => destruct (bestPatterns g) end;
    cbn [modifyGuard ret guard];
    unfold adaptBehaviorFrequencies, preferring, bind, getGuard; cbn [guard];
    match goal with |- context [topBehaviors ?g] => destruct (topBehaviors g) end;
    repeat split; reflexivity.
Qed.

Lemma same_logs_refl (g : Guard) : same_logs g g.
Proof. now split. Qed.

Lemma same_logs_trans (g1 g2 g3 : Guard) :
  same_logs g1 g2 -> same_logs g2 g3 -> same_logs g1 g3.
Proof. intros [A B] [C D]. split; congruence. Qed.

Lemma adjusted_logs (g : Guard) : same_logs (adjusted g) g.
Proof.
  unfold adjusted.
  destruct (Qlt_bool _ _); [|destruct (Qlt_bool _ _)]; split; reflexivity.
Qed.

Lemma learned_logs (g : Guard) : same_logs (learned g) g.
Proof. unfold learned. destruct (bestPatterns g); split; reflexivity. Qed.

Lemma preferring_logs (g : Guard) : same_logs (preferring g) g.
Proof. unfold preferring. destruct (topBehaviors g); split; reflexivity. Qed.

Lemma stamped_logs (t : N) (g : Guard) : same_logs (stamped t g) g.
Proof. split; reflexivity. Qed.

Lemma adaptation_logs (t : N) (g : Guard) :
  same_logs (stamped t (preferring (learned (adjusted g)))) g.
Proof.
  eapply same_logs_trans; [apply stamped_logs|].
  eapply same_logs_trans; [apply preferring_logs|].
  eapply same_logs_trans; [apply learned_logs | apply adjusted_logs].
Qed.

Lemma bestPatterns_logs (g1 g2 : Guard) :
  same_logs g1 g2 -> bestPatterns g1 = bestPatterns g2.
Proof. intros [H _]. unfold bestPatterns. now rewrite H. Qed.

Lemma topBehaviors_logs (g1 g2 : Guard) :
  same_logs g1 g2 -> topBehaviors g1 = topBehaviors g2.
Proof. intros [H _]. unfold topBehaviors. now rewrite H. Qed.



Lemma adaptationNeeded_iff (g : Guard) :
  adaptationNeeded g = true
  <-> toDouble Config.adaptationThreshold < failureRate (getPersonalityStats g)
      /\ (20 <= totalProcessed (getPersonalityStats g))%nat.
Proof.
  unfold adaptationNeeded.
  now rewrite andb_true_iff, Qlt_bool_iff, Nat.leb_le.
Qed.

Lemma adjusted_rules (g : Guard) : adaptationRules (adjusted g) = adaptationRules g.
Proof.
  unfold adjusted.
  destruct (Qlt_bool _ _); [|destruct (Qlt_bool _ _)]; reflexivity.
Qed.

(** The rules after an adaptation, from the rules before and the logs. *)
Lemma adaptation_rules (t : N) (g : Guard) :
  adaptationRules (stamped t (preferring (learned (adjusted g))))
  = {| enhancementPatterns :=
         match bestPatterns g with
         | [] => enhancementPatterns (adaptationRules g)
         | best => best
         end;
       preferredBehaviors :=
         match topBehaviors g with
         | [] => preferredBehaviors (adaptationRules g)
         | top => top
         end |}.
Proof.
  cbn [stamped set_learningData adaptationRules].
  unfold preferring.
  rewrite (topBehaviors_logs (learned (adjusted g)) g)
    by (eapply same_logs_trans; [apply learned_logs | apply adjusted_logs]).
  unfold learned.
  rewrite (bestPatterns_logs (adjusted g) g) by apply adjusted_logs.
  destruct (topBehaviors g), (bestPatterns g);
    cbn [set_adaptationRules adaptationRules enhancementPatterns
         preferredBehaviors];
    rewrite ?adjusted_rules; destruct (adaptationRules g); reflexivity.
Qed.

Lemma adaptation_thresholds (t : N) (g : Guard) :
  qualityMetrics (stamped t (preferring (learned (adjusted g))))
  = qualityMetrics (adjusted g).
Proof.
  cbn [stamped set_learningData qualityMetrics].
  unfold preferring, learned.
  destruct (topBehaviors _), (bestPatterns _); reflexivity.
Qed.

Lemma adjusted_high_failure (g : Guard) :
  toDouble (4 # 10) < failureRate (getPersonalityStats g) ->
  adjusted g = scale_thresholds (8 # 10) g.
Proof.
  intros H. apply Qlt_bool_iff in H. unfold adjusted.
  cbv zeta. now rewrite H.
Qed.

(** Under the trigger the number for the success rate is not above 0.9, so
    [adaptPersonality] never reaches the factor 1.1. *)
Lemma trigger_excludes_growth (g : Guard) :
  adaptationNeeded g = true ->
  ~ toDouble (9 # 10) < toDouble (successRate (getPersonalityStats g)).
Proof.
  intros H Hhigh. apply adaptationNeeded_iff in H. destruct H as [H _].
  unfold Config.adaptationThreshold, failureRate in H.
  destruct (small_failureRate _ Hhigh) as [K _]. now apply K.
Qed.

Lemma adjusted_moderate_failure (g : Guard) :
  adaptationNeeded g = true ->
  ~ toDouble (4 # 10) < failureRate (getPersonalityStats g) ->
  adjusted g = g.
Proof.
  intros Hn Hlow. unfold adjusted. cbv zeta.
  destruct (Qlt_bool (toDouble (4 # 10)) _) eqn:E1.
  - apply Qlt_bool_iff in E1. contradiction.
  - destruct (Qlt_bool (toDouble (9 # 10)) _) eqn:E2; [|reflexivity].
    apply Qlt_bool_iff in E2.
    now destruct (trigger_excludes_growth g Hn).
Qed.



(** With a failure rate between the trigger and 0.4 the adaptation runs
    and stamps its time, and the thresholds stay as they are: thirteen
    successes and seven failures. *)
Example moderate_failure_keeps_thresholds :
  adaptationNeeded (guard strained_world) = true
  /\ toDouble Config.adaptationThreshold
     < failureRate (getPersonalityStats (guard strained_world))
  /\ (20 <= totalProcessed (getPersonalityStats (guard strained_world)))%nat
  /\ qualityMetrics (guard (exec adaptPersonality strained_world))
     = qualityMetrics (guard strained_world)
  /\ lastAdapted (learningData (guard (exec adaptPersonality strained_world)))
     = Some 61%N.
Proof.
  split; [vm_compute; reflexivity|].
  split; [vm_compute; reflexivity|].
  split; [vm_compute; lia|].
  split; vm_compute; reflexivity.
Qed.

(** C8, amended. When the adaptation triggers, that is with a failure rate
    above [adaptationThreshold] and at least 20 processed entries, one call
    of [adaptPersonality] multiplies both ratio thresholds by 0.8, once, if
    the failure rate is above 0.4, and leaves the thresholds as they are
    otherwise.  Under the trigger the success rate is never above 0.9, so
    [adaptPersonality] does not apply the factor 1.1.
    [adaptValidationThresholds] by itself multiplies by 0.8 for every
    statistics record with a failure rate above 0.4, and by 1.1 instead for
    every one with a success rate above 0.9.  The rates are the numbers
    that the host computes. *)
Theorem thresholds_scaled_once (w : World) :
  toDouble Config.adaptationThreshold
  < failureRate (getPersonalityStats (guard w)) ->
  (20 <= totalProcessed (getPersonalityStats (guard w)))%nat ->
  let stats := getPersonalityStats (guard w) in
  let qm := qualityMetrics (guard w) in
  let qm' := qualityMetrics (guard (exec adaptPersonality w)) in
  (toDouble (4 # 10) < failureRate stats ->
   dogWordRatio qm' = dogWordRatio qm * (8 # 10)
   /\ emojiRatio qm' = emojiRatio qm * (8 # 10))
  /\ (~ toDouble (4 # 10) < failureRate stats -> qm' = qm)
  /\ ~ toDouble (9 # 10) < toDouble (successRate stats)
  /\ (forall (stats : Stats) (w0 : World),
        toDouble (4 # 10) < failureRate stats ->
        adaptValidationThresholds stats w0
        = (Normal tt, with_guard (scale_thresholds (8 # 10) (guard w0)) w0))
  /\ (forall (stats : Stats) (w0 : World),
        toDouble (9 # 10) < toDouble (successRate stats) ->
        adaptValidationThresholds stats w0
        = (Normal tt, with_guard (scale_thresholds (11 # 10) (guard w0)) w0)).
Proof.
  intros Hthr Hmin stats qm qm'.
  assert (Hn : adaptationNeeded (guard w) = true)
    by (apply adaptationNeeded_iff; now split).
  destruct (adaptPersonality_adapts w Hn) as [G _].
  split; [|split; [|split; [|split]]].
  - intros Hhigh. subst qm qm'. rewrite G, adaptation_thresholds.
    rewrite adjusted_high_failure by exact Hhigh. split; reflexivity.
  - intros Hlow. subst qm qm'. rewrite G, adaptation_thresholds.
    now rewrite adjusted_moderate_failure.
  - now apply trigger_excludes_growth.
  - intros stats0 w0 H. apply Qlt_bool_iff in H.
    unfold adaptValidationThresholds. cbv zeta. now rewrite H.
  - intros stats0 w0 H.
    assert (Hnot : Qlt_bool (toDouble (4 # 10)) (failureRate stats0) = false).
    { destruct (Qlt_bool (toDouble (4 # 10)) _) eqn:E; [|reflexivity].
      apply Qlt_bool_iff in E.
      destruct (small_failureRate _ H) as [_ K]. now destruct K. }
    apply Qlt_bool_iff in H.
    unfold adaptValidationThresholds. cbv zeta. now rewrite Hnot, H.
Qed.

Lemma thresholds_scaled_once_witness :
  (dogWordRatio (qualityMetrics (guard adapted_once)) == 64 # 1000
   /\ emojiRatio (qualityMetrics (guard adapted_once)) == 12 # 1000)
  /\ dogWordRatio (qualityMetrics (guard (exec
         (adaptValidationThresholds (getPersonalityStats (guard thriving_world)))
         thriving_world))) == 88 # 1000.
Proof.
  destruct (thresholds_scaled_once degraded_world)
    as [Hhigh [_ [_ [_ H11]]]].
  - vm_compute. reflexivity.
  - vm_compute. lia.
  - destruct Hhigh as [Hd He]; [vm_compute; reflexivity|].
    split.
    + unfold adapted_once. rewrite Hd, He. split; vm_compute; reflexivity.
    + unfold exec. rewrite H11; [vm_compute; reflexivity|].
      vm_compute. reflexivity.
Defined.

(** * Further properties of the guard *)

(** ** Words and ratios *)

Lemma split_ws_aux_nonempty (s : jsstring) : forall cur in_ws,
  split_ws_aux cur in_ws s <> [].
Proof.
  induction s as [|c s IH]; intros cur in_ws; cbn [split_ws_aux].
  - discriminate.
  - destruct (isWhiteSpace c); [destruct in_ws|]; try apply IH. discriminate.
Qed.

Lemma ratio_nonneg (n d : nat) : 0 <= ratio n d.
Proof. unfold ratio, Qle. cbn [Qnum Qden]. lia. Qed.

Lemma ratio_le_1 (n d : nat) : (n <= d)%nat -> (1 <= d)%nat -> ratio n d <= 1.
Proof.
  intros Hn Hd. unfold ratio, Qle. cbn [Qnum Qden].
  rewrite Z.mul_1_r, Z.mul_1_l.
  rewrite <- (Nat2Pos.id d) in Hn by lia.
  rewrite <- positive_nat_Z. lia.
Qed.

(** X1. Splitting on white space never gives an empty array, so the
    [Math.max(1, words.length)] of [validateResponse] is [words.length];
    the dog-word ratio lies between 0 and 1 and the emoji ratio is not
    negative. *)
Theorem ratios_bounded (toLowerCase : jsstring -> jsstring)
    (qm : QualityMetrics) (response userMessage : jsstring) :
  let r := validateResponse toLowerCase qm response userMessage in
  let words := split_ws (toLowerCase response) in
  (1 <= List.length words)%nat
  /\ Nat.max 1 (List.length words) = List.length words
  /\ 0 <= dogRatio (score r) <= 1
  /\ 0 <= score_emojiRatio (score r).
Proof.
  intros r words.
  assert (H : (1 <= List.length words)%nat).
  { subst words. unfold split_ws.
    pose proof (split_ws_aux_nonempty (toLowerCase response) [] false) as K.
    destruct (split_ws_aux [] false (toLowerCase response)); [congruence|].
    cbn [List.length]. lia. }
  split; [exact H|]. split; [lia|].
  subst r. unfold validateResponse. cbn [score dogRatio score_emojiRatio].
  fold words. split; [split|].
  - apply ratio_nonneg.
  - apply ratio_le_1; [|lia].
    etransitivity; [apply filter_length_le | lia].
  - apply ratio_nonneg.
Qed.

(** The emoji ratio counts symbols, not words, and can exceed 1. *)
Example emoji_ratio_above_one :
  score_emojiRatio (score (validateResponse asciiLowerCase qualityThresholds
                             (lit "🐕🐶🐾") (lit "hi")))
  = 3 # 1.
Proof. vm_compute. reflexivity. Qed.

(** ** Issues and the verdict *)

Lemma break_issue_listed (qm : QualityMetrics) (e b : bool) (d m : Q) (l : bool) :
  In ContainsPersonalityBreakingPhrases (getValidationIssues qm e b d m l)
  <-> b = true.
Proof.
  unfold getValidationIssues. rewrite !in_app_iff.
  destruct e, b, (Qlt_bool d (dogWordRatio qm)), (Qlt_bool m (emojiRatio qm)), l;
    cbn [negb In]; intuition congruence.
Qed.

Lemma length_issue_listed (qm : QualityMetrics) (e b : bool) (d m : Q) (l : bool) :
  In LengthOutsideRange (getValidationIssues qm e b d m l) <-> l = false.
Proof.
  unfold getValidationIssues. rewrite !in_app_iff.
  destruct e, b, (Qlt_bool d (dogWordRatio qm)), (Qlt_bool m (emojiRatio qm)), l;
    cbn [negb In]; intuition congruence.
Qed.

Lemma elements_issue_listed (qm : QualityMetrics) (e b : bool) (d m : Q) (l : bool) :
  In MissingRequiredElements (getValidationIssues qm e b d m l) <-> e = false.
Proof.
  unfold getValidationIssues. rewrite !in_app_iff.
  destruct e, b, (Qlt_bool d (dogWordRatio qm)), (Qlt_bool m (emojiRatio qm)), l;
    cbn [negb In]; intuition congruence.
Qed.

(** X2. A response is rejected exactly when its issue list holds the
    personality-break issue or the length issue; the three other issues
    are listed for valid responses as well.  The score field
    [hasPersonalityBreak] is the negation of the flag: it is true exactly
    when the personality-break issue is not listed. *)
Theorem rejected_iff_disqualifying_issue (toLowerCase : jsstring -> jsstring)
    (qm : QualityMetrics) (response userMessage : jsstring) :
  let r := validateResponse toLowerCase qm response userMessage in
  (isValid r = false <->
     In ContainsPersonalityBreakingPhrases (issues r)
     \/ In LengthOutsideRange (issues r))
  /\ (score_hasPersonalityBreak (score r) = true <->
        ~ In ContainsPersonalityBreakingPhrases (issues r))
  /\ (In LengthOutsideRange (issues r) <-> lengthValid (score r) = false)
  /\ (In MissingRequiredElements (issues r)
        <-> hasRequiredElements (score r) = false).
Proof.
  cbv zeta. unfold validateResponse.
  cbn [isValid issues score score_hasPersonalityBreak lengthValid
       hasRequiredElements].
  rewrite break_issue_listed, length_issue_listed, elements_issue_listed.
  rewrite andb_false_iff, negb_false_iff, negb_true_iff.
  repeat split; try tauto.
  - intros H. congruence.
  - intros H. now destruct (existsb _ avoidPhrases).
Qed.

(** ** The pattern that is never recognised *)

Lemma startsWith_includes (s p : jsstring) :
  startsWith s p = true -> includes s p = true.
Proof. intros H. destruct s; cbn [includes]; now rewrite H. Qed.

Lemma analyze_never_prefix (original processed : jsstring) :
  analyzeEnhancementPattern original processed <> prefix_emoji.
Proof.
  unfold analyzeEnhancementPattern. cbv zeta.
  set (added := trim (replace_first processed original [])).
  destruct (includes added star && includes added (lit "🐕")); [discriminate|].
  destruct (includes added star); [discriminate|].
  destruct (includes added (lit "🐕")) eqn:E1; [discriminate|].
  destruct (includes added (lit "🐶")) eqn:E2; [discriminate|].
  cbn [orb].
  destruct (includes added (lit "🐾")); [discriminate|].
  destruct (startsWith added (lit "🐕")) eqn:S1.
  { apply startsWith_includes in S1. congruence. }
  destruct (startsWith added (lit "🐶")) eqn:S2.
  { apply startsWith_includes in S2. congruence. }
  discriminate.
Qed.

(** X3. [analyzeEnhancementPattern] never answers [prefix_emoji]: a text
    that starts with one of the two emojis also includes it, and the test
    for [emoji_only] comes first. *)
Theorem analyzeEnhancementPattern_never_prefix (original processed : jsstring) :
  analyzeEnhancementPattern original processed <> prefix_emoji.
Proof. apply analyze_never_prefix. Qed.

(** ** The outcome of a repair *)

(** X4. [attemptResponseFix] draws one introduction.  If the prepended
    text validates it is returned and nothing more is drawn; otherwise a
    second draw selects the confused template that is returned.  Nothing
    else can come back, and the guard is not changed. *)
Theorem attemptResponseFix_outcome (toLowerCase : jsstring -> jsstring)
    (response userMessage : jsstring) (w : World) :
  let intro := nth (hd 0 (randoms w) mod 4)%nat dogIntros [] in
  let fixedValid :=
    isValid (validateResponse toLowerCase (qualityMetrics (guard w))
               (intro ++ response) userMessage) in
  In intro dogIntros
  /\ attemptResponseFix toLowerCase response userMessage w
     = (if fixedValid
        then (Normal (intro ++ response), after_draw w)
        else (Normal (nth (hd 0 (tl (randoms w)) mod 4)%nat
                          Config.templates_confused []),
              after_draw (after_draw w)))
  /\ In (nth (hd 0 (tl (randoms w)) mod 4)%nat Config.templates_confused [])
        Config.templates_confused.
Proof.
  intros intro fixedValid. split; [|split].
  - apply nth_In. apply Nat.mod_upper_bound. discriminate.
  - unfold attemptResponseFix, bind, getGuard, randomIndex.
    cbn [List.length dogIntros guard]. fold (after_draw w). fold intro.
    change (guard (after_draw w)) with (guard w). fold fixedValid.
    destruct fixedValid; reflexivity.
  - apply nth_In. apply Nat.mod_upper_bound. discriminate.
Qed.

(** ** Redirects and their placeholders *)

Lemma redirect_templates_hold_placeholder (k : nat) :
  (k < 4)%nat ->
  includes (nth k Config.templates_redirect []) (lit "{plural}")
  || includes (nth k Config.templates_redirect []) (lit "{Plural}") = true.
Proof.
  intros H. destruct k as [|[|[|[|k]]]]; try lia; vm_compute; reflexivity.
Qed.

Lemma find_topic_none (toLowerCase : jsstring -> jsstring)
    (userMessage : jsstring) :
  ~ mentionsTopic toLowerCase userMessage ->
  find (fun entry => includes (toLowerCase userMessage) (fst entry)
                     || includes (toLowerCase userMessage) (snd entry))
       Config.redirectTopics = None.
Proof.
  intros H. destruct (find _ _) as [entry|] eqn:F; [|reflexivity].
  apply find_some in F. destruct F as [Hin Hm]. exfalso. apply H.
  exists entry. split; [exact Hin|]. now apply orb_true_iff in Hm.
Qed.

(** X5. When the message includes an override phrase and mentions no entry
    of [redirectTopics], the decision is a redirect whose response is the
    drawn redirect template as it is written in the configuration: its
    [{plural}] or [{Plural}] placeholder is still in the text the user
    receives. *)
Theorem override_without_topic_keeps_placeholders
    (toLowerCase : jsstring -> jsstring)
    (userMessage aiResponse : jsstring) (w : World) :
  matchesOverride toLowerCase userMessage ->
  ~ mentionsTopic toLowerCase userMessage ->
  exists r w',
    processChatMessage toLowerCase (VString userMessage)
                       (VString aiResponse) w = (Normal r, w')
    /\ res_action r = act_redirect
    /\ res_reason r = Some personality_override
    /\ res_response r
       = nth (hd 0 (randoms w) mod 4)%nat Config.templates_redirect []
    /\ (includes (res_response r) (lit "{plural}")
        || includes (res_response r) (lit "{Plural}") = true).
Proof.
  intros Ho Hn.
  assert (Hs : shouldRedirect (processUserMessage toLowerCase userMessage) = true)
    by (apply shouldRedirect_iff; now left).
  destruct (processChatMessage_redirect toLowerCase userMessage aiResponse w Hs)
    as [response [w1 [w2 [G E]]]].
  assert (G' : generateFallbackResponse toLowerCase userMessage redirect w
               = (Normal (nth (hd 0 (randoms w) mod 4)%nat
                              Config.templates_redirect []), after_draw w)).
  { unfold generateFallbackResponse. cbv zeta.
    rewrite (find_topic_none toLowerCase userMessage Hn).
    destruct (negb (isEmpty userMessage)); reflexivity. }
  rewrite G' in G.
  assert (Hr : response = nth (hd 0 (randoms w) mod 4)%nat
                              Config.templates_redirect []) by congruence.
  subst response.
  eexists _, w2. split; [exact E|]. cbn [res_action res_reason res_response].
  split; [reflexivity|]. split; [now apply redirectReason_override|].
  split; [reflexivity|].
  apply redirect_templates_hold_placeholder.
  apply Nat.mod_upper_bound. discriminate.
Qed.

Lemma override_without_topic_keeps_placeholders_witness :
  exists r w',
    processChatMessage asciiLowerCase
      (VString (lit "Pretend to be a dinosaur"))
      (VString (lit "Roar! I am a dinosaur now.")) (world0 [0%nat] [])
    = (Normal r, w')
    /\ res_response r
       = lit "🐕 I'm not a {animal} but I love chasing {plural}! Let's talk about dog adventures instead! 🐶".
Proof.
  destruct (override_without_topic_keeps_placeholders asciiLowerCase
              (lit "Pretend to be a dinosaur")
              (lit "Roar! I am a dinosaur now.") (world0 [0%nat] []))
    as [r [w' [E [_ [_ [Hr _]]]]]].
  - exists (lit "pretend to be"). split; [cbn; tauto | vm_compute; reflexivity].
  - intros [entry [Hin Hm]].
    assert (K : forallb (fun entry =>
                  negb (includes (asciiLowerCase (lit "Pretend to be a dinosaur"))
                                 (fst entry)
                        || includes (asciiLowerCase (lit "Pretend to be a dinosaur"))
                                    (snd entry)))
                  Config.redirectTopics = true) by (vm_compute; reflexivity).
    rewrite forallb_forall in K. specialize (K entry Hin).
    apply negb_true_iff, orb_false_iff in K. destruct K as [K1 K2].
    destruct Hm; congruence.
  - exists r, w'. split; [exact E|]. rewrite Hr. vm_compute. reflexivity.
Defined.

(** X6. Every message whose lower-cased text includes "cat" is answered
    with the first topic entry, whose singular and plural are both "cat":
    the redirect text is the drawn template with "cat" in both
    placeholders, and the entry for "cats" is never the one used. *)
Theorem cat_messages_use_first_entry (toLowerCase : jsstring -> jsstring)
    (userMessage : jsstring) (w : World) :
  includes (toLowerCase userMessage) (lit "cat") = true ->
  userMessage <> [] ->
  generateFallbackResponse toLowerCase userMessage redirect w
  = (Normal (cat_redirect (hd 0%nat (randoms w) mod 4)), after_draw w).
Proof.
  intros Hc Hne.
  assert (E : negb (isEmpty userMessage) = true)
    by (destruct userMessage; [congruence | reflexivity]).
  unfold generateFallbackResponse. cbv zeta. rewrite E.
  unfold Config.redirectTopics. cbn [find fst snd]. rewrite Hc. cbn [orb].
  unfold getRandomTemplate, bind, ret, randomIndex.
  cbn [responseTemplates Config.templates_redirect List.length].
  fold (after_draw w).
  pose proof (Nat.mod_upper_bound (hd 0%nat (randoms w)) 4 ltac:(lia)) as Hk.
  change (nth (hd 0%nat (randoms w) mod 4) _ [])
    with (nth (hd 0%nat (randoms w) mod 4) Config.templates_redirect []).
  fold (cat_redirect (hd 0%nat (randoms w) mod 4)).
  assert (N : forall k, (k < 4)%nat -> exists c r, cat_redirect k = c :: r).
  { intros k Hlt. destruct k as [|[|[|[|k]]]]; try lia;
      vm_compute; eexists _, _; reflexivity. }
  destruct (N _ Hk) as [c [r ->]]. reflexivity.
Qed.

Lemma cat_messages_use_first_entry_witness :
  generateFallbackResponse asciiLowerCase (lit "Do you like CATS?") redirect
                           (world0 [2%nat] [])
  = (Normal (lit "🐕 *wags tail* I chase cat all the time, but I'm still Coco! Want to hear about my squirrel stories? 🐿️"),
     world0 [] []).
Proof.
  rewrite (cat_messages_use_first_entry asciiLowerCase (lit "Do you like CATS?")
             (world0 [2%nat] [])).
  - vm_compute. reflexivity.
  - vm_compute. reflexivity.
  - discriminate.
Defined.

(** ** What an exchange does to the guard *)

Lemma only_draws_ret {A} (a : A) : only_draws (ret a).
Proof. intros w. now exists a, w. Qed.

Lemma only_draws_bind {A B} (m : M A) (k : A -> M B) :
  only_draws m -> (forall a, only_draws (k a)) -> only_draws (bind m k).
Proof.
  intros Hm Hk w. destruct (Hm w) as [a [w1 [E [G1 [C1 F1]]]]].
  destruct (Hk a w1) as [b [w2 [E2 [G2 [C2 F2]]]]].
  exists b, w2. unfold bind. rewrite E. repeat split; congruence.
Qed.

Lemma only_draws_randomIndex (n : nat) : only_draws (randomIndex n).
Proof. intros w. eexists _, _. repeat split. Qed.

Lemma only_draws_getGuard : only_draws getGuard.
Proof. intros w. eexists _, _. repeat split. Qed.

Ltac draws_step :=
  first [ apply only_draws_ret
        | apply only_draws_randomIndex
        | apply only_draws_getGuard
        | apply only_draws_bind; [| intro]
        | match goal with
          | |- only_draws (if ?c then _ else _) => destruct c
          | |- only_draws (match ?x with _ => _ end) => destruct x
          end ].

Lemma only_draws_getRandomTemplate (type : TemplateType) :
  only_draws (getRandomTemplate type).
Proof.
  unfold getRandomTemplate. destruct (responseTemplates type); repeat draws_step.
Qed.

Lemma only_draws_generateFallbackResponse (toLowerCase : jsstring -> jsstring)
    (userMessage : jsstring) (reason : TemplateType) :
  only_draws (generateFallbackResponse toLowerCase userMessage reason).
Proof.
  unfold generateFallbackResponse.
  apply only_draws_bind.
  - destruct reason; try apply only_draws_ret.
    destruct (negb (isEmpty userMessage)); [|apply only_draws_ret].
    destruct (find _ _) as [[singular plural]|]; [|apply only_draws_ret].
    apply only_draws_bind;
      [apply only_draws_getRandomTemplate | intro; apply only_draws_ret].
  - intros [[|c r]|];
      first [apply only_draws_ret | apply only_draws_getRandomTemplate].
Qed.

Lemma only_draws_attemptResponseFix (toLowerCase : jsstring -> jsstring)
    (response userMessage : jsstring) :
  only_draws (attemptResponseFix toLowerCase response userMessage).
Proof.
  unfold attemptResponseFix.
  apply only_draws_bind; [apply only_draws_randomIndex | intro i].
  apply only_draws_bind; [apply only_draws_getGuard | intro g].
  destruct (isValid _); [apply only_draws_ret|].
  apply only_draws_generateFallbackResponse.
Qed.

Lemma only_draws_enhanceResponse (response : jsstring) :
  only_draws (enhanceResponse response).
Proof. unfold enhanceResponse. repeat draws_step. Qed.

Lemma only_draws_getRandomBehavior : only_draws getRandomBehavior.
Proof. unfold getRandomBehavior. repeat draws_step. Qed.

Lemma only_draws_getRandomDogEmoji : only_draws getRandomDogEmoji.
Proof. unfold getRandomDogEmoji. repeat draws_step. Qed.

Lemma only_draws_enhancedEnhanceResponse (response : jsstring) :
  only_draws (enhancedEnhanceResponse response).
Proof.
  unfold enhancedEnhanceResponse.
  apply only_draws_bind; [apply only_draws_getGuard | intro g].
  destruct (enhancementPatterns (adaptationRules g)) as [|p ps];
    [apply only_draws_enhanceResponse|].
  apply only_draws_bind; [apply only_draws_randomIndex | intro i].
  destruct (nth i (p :: ps) other);
    [ unfold applyBehaviorAndEmoji | unfold applyBehaviorOnly
    | unfold applyEmojiOnly | unfold applyPrefixEmoji
    | apply only_draws_enhanceResponse ];
    repeat (apply only_draws_bind;
            [first [apply only_draws_getRandomBehavior
                   | apply only_draws_getRandomDogEmoji] | intro]);
    apply only_draws_ret.
Qed.

(** The three branches of [processChatMessage] on strings: the response is
    generated with draws only, one entry is logged, and on the enhance
    branch the adaptation runs when the success log holds a multiple of 10
    entries. *)
Lemma processChatMessage_anatomy (toLowerCase : jsstring -> jsstring)
    (userMessage aiResponse : jsstring) (w : World) :
  let analysis := processUserMessage toLowerCase userMessage in
  let validation :=
    validateResponse toLowerCase (qualityMetrics (guard w))
                     aiResponse userMessage in
  exists r wg,
    guard wg = guard w /\ clock wg = clock w
    /\ (let wu := exec (updateLearningData aiResponse (res_response r)
                          (res_action r) (res_reason r)) wg in
        let adapts :=
          match res_action r with
          | act_enhance =>
            (List.length (successfulResponses (learningData (guard wu)))
               mod 10 =? 0)%nat
          | _ => false
          end in
        processChatMessage toLowerCase (VString userMessage)
                           (VString aiResponse) w
        = (Normal r, if adapts then exec adaptPersonality wu else wu))
    /\ ((shouldRedirect analysis = true
         /\ generateFallbackResponse toLowerCase userMessage redirect w
            = (Normal (res_response r), wg)
         /\ res_action r = act_redirect
         /\ res_reason r = redirectReason analysis
         /\ res_validation r = None)
        \/ (shouldRedirect analysis = false /\ isValid validation = false
            /\ attemptResponseFix toLowerCase aiResponse userMessage w
               = (Normal (res_response r), wg)
            /\ res_action r = act_fix_or_fallback
            /\ res_reason r = Some personality_inconsistent
            /\ res_validation r = Some validation)
        \/ (shouldRedirect analysis = false /\ isValid validation = true
            /\ enhancedEnhanceResponse aiResponse w
               = (Normal (res_response r), wg)
            /\ res_action r = act_enhance
            /\ res_reason r = Some personality_good
            /\ res_validation r = None)).
Proof.
  intros analysis validation.
  unfold processChatMessage, asString, bind, ret, getGuard.
  fold analysis. fold validation.
  destruct (shouldRedirect analysis) eqn:Hs.
  - destruct (only_draws_generateFallbackResponse toLowerCase userMessage
                redirect w) as [response [wg [E [G [C _]]]]].
    rewrite E.
    destruct (returns_updateLearningData aiResponse response act_redirect
                (redirectReason analysis) wg) as [[] [wu Eu]].
    rewrite Eu.
    exists {| res_action := act_redirect; res_response := response;
              res_reason := redirectReason analysis;
              res_validation := None |}, wg.
    cbn [res_action res_response res_reason res_validation].
    assert (Hwu : exec (updateLearningData aiResponse response act_redirect
                          (redirectReason analysis)) wg = wu)
      by (unfold exec; now rewrite Eu).
    rewrite Hwu.
    split; [exact G|]. split; [exact C|]. split; [reflexivity|].
    left. repeat split; reflexivity || assumption.
  - destruct (isValid validation) eqn:Hv; cbn [negb].
    + destruct (only_draws_enhancedEnhanceResponse aiResponse w)
        as [response [wg [E [G [C _]]]]].
      rewrite E.
      destruct (returns_updateLearningData aiResponse response act_enhance
                  (Some personality_good) wg) as [[] [wu Eu]].
      rewrite Eu.
      exists {| res_action := act_enhance; res_response := response;
                res_reason := Some personality_good;
                res_validation := None |}, wg.
      cbn [res_action res_response res_reason res_validation].
      assert (Hwu : exec (updateLearningData aiResponse response act_enhance
                            (Some personality_good)) wg = wu)
        by (unfold exec; now rewrite Eu).
      rewrite Hwu. cbn [guard].
      split; [exact G|]. split; [exact C|]. split.
      * destruct (_ =? _)%nat.
        -- destruct (returns_adaptPersonality wu) as [[] [wa Ea]].
           unfold exec. now rewrite Ea.
        -- reflexivity.
      * right. right. repeat split; reflexivity || assumption.
    + destruct (only_draws_attemptResponseFix toLowerCase aiResponse
                  userMessage w) as [response [wg [E [G [C _]]]]].
      rewrite E.
      destruct (returns_updateLearningData aiResponse response
                  act_fix_or_fallback (Some personality_inconsistent) wg)
        as [[] [wu Eu]].
      rewrite Eu.
      exists {| res_action := act_fix_or_fallback; res_response := response;
                res_reason := Some personality_inconsistent;
                res_validation := Some validation |}, wg.
      cbn [res_action res_response res_reason res_validation].
      assert (Hwu : exec (updateLearningData aiResponse response
                            act_fix_or_fallback
                            (Some personality_inconsistent)) wg = wu)
        by (unfold exec; now rewrite Eu).
      rewrite Hwu.
      split; [exact G|]. split; [exact C|]. split; [reflexivity|].
      right. left. repeat split; reflexivity || assumption.
Qed.

(** X7. On two strings the decision is a function of two tests: it is a
    redirect exactly when the message matches an override phrase or a
    topic key; otherwise it is a repair exactly when the raw response is
    invalid, and an enhancement exactly when it is valid.  A repair carries
    the reason [personality_inconsistent] and the validation result, an
    enhancement the reason [personality_good]. *)
Theorem processChatMessage_decision (toLowerCase : jsstring -> jsstring)
    (userMessage aiResponse : jsstring) (w : World) :
  let redirecting :=
    matchesOverride toLowerCase userMessage
    \/ matchesTopic toLowerCase userMessage in
  let validation :=
    validateResponse toLowerCase (qualityMetrics (guard w))
                     aiResponse userMessage in
  exists r w',
    processChatMessage toLowerCase (VString userMessage)
                       (VString aiResponse) w = (Normal r, w')
    /\ (res_action r = act_redirect <-> redirecting)
    /\ (res_action r = act_fix_or_fallback
        <-> ~ redirecting /\ isValid validation = false)
    /\ (res_action r = act_enhance
        <-> ~ redirecting /\ isValid validation = true)
    /\ (res_action r = act_fix_or_fallback ->
        res_reason r = Some personality_inconsistent
        /\ res_validation r = Some validation)
    /\ (res_action r = act_enhance -> res_reason r = Some personality_good)
    /\ (res_action r <> act_fix_or_fallback -> res_validation r = None).
Proof.
  intros redirecting validation.
  destruct (processChatMessage_anatomy toLowerCase userMessage aiResponse w)
    as [r [wg [_ [_ [E Hcase]]]]].
  cbv zeta in E. eexists r, _. split; [exact E|]. clear E.
  pose proof (shouldRedirect_iff toLowerCase userMessage) as Hs.
  fold redirecting in Hs. fold validation in Hcase.
  destruct Hcase as [[S [_ [A [R V]]]] | [[S [I [_ [A [R V]]]]]
                                          | [S [I [_ [A [R V]]]]]]];
    rewrite A.
  - assert (Hr : redirecting) by (apply Hs; exact S).
    split; [tauto|].
    split; [split; [discriminate | tauto]|].
    split; [split; [discriminate | tauto]|].
    split; [discriminate|]. split; [discriminate|]. intros _. exact V.
  - assert (Hn : ~ redirecting)
      by (intros H; apply Hs in H; congruence).
    split; [split; [discriminate | tauto]|].
    split; [tauto|].
    split; [split; [discriminate | intros [_ H]; congruence]|].
    split; [intros _; now split|]. split; [discriminate|].
    intros H. congruence.
  - assert (Hn : ~ redirecting)
      by (intros H; apply Hs in H; congruence).
    split; [split; [discriminate | tauto]|].
    split; [split; [discriminate | intros [_ H]; congruence]|].
    split; [tauto|].
    split; [discriminate|]. split; [intros _; exact R|]. intros _. exact V.
Qed.

Lemma adaptPersonality_guard_cases (w : World) :
  (adaptationNeeded (guard w) = false /\ exec adaptPersonality w = w)
  \/ (adaptationNeeded (guard w) = true
      /\ guard (exec adaptPersonality w)
         = stamped (hd 0%N (clock w))
                   (preferring (learned (adjusted (guard w))))).
Proof.
  destruct (adaptationNeeded (guard w)) eqn:Hn.
  - right. split; [reflexivity|]. now apply adaptPersonality_adapts.
  - left. split; [reflexivity|]. unfold exec.
    now rewrite (adaptPersonality_skips w Hn).
Qed.

Lemma adaptPersonality_same_logs (w : World) :
  same_logs (guard (exec adaptPersonality w)) (guard w).
Proof.
  destruct (adaptPersonality_guard_cases w) as [[_ ->] | [_ ->]].
  - apply same_logs_refl.
  - apply adaptation_logs.
Qed.

Lemma kept_or_shrunk_refl (q : QualityMetrics) : kept_or_shrunk q q.
Proof. repeat split. now left. Qed.

Lemma adaptPersonality_thresholds (w : World) :
  kept_or_shrunk (qualityMetrics (guard w))
                 (qualityMetrics (guard (exec adaptPersonality w))).
Proof.
  destruct (adaptPersonality_guard_cases w) as [[_ ->] | [Hn ->]].
  - apply kept_or_shrunk_refl.
  - rewrite adaptation_thresholds. unfold adjusted. cbv zeta.
    destruct (Qlt_bool (toDouble (4 # 10)) _).
    + repeat split. now right.
    + destruct (Qlt_bool (toDouble (9 # 10)) _) eqn:E.
      * exfalso. apply Qlt_bool_iff in E.
        now apply (trigger_excludes_growth (guard w) Hn).
      * apply kept_or_shrunk_refl.
Qed.

(** X8. An exchange on two strings logs exactly one entry, stamped with
    the first reading of the clock: it goes to the success log unless the
    decision is a repair, and to the failure log if it is; the log it goes
    to loses its oldest entry if it held 100.  The entry keeps the first
    200 code units of the raw response and of the response returned. *)
Theorem exchange_logs_one_entry (toLowerCase : jsstring -> jsstring)
    (userMessage aiResponse : jsstring) (w : World) :
  exists r w',
    processChatMessage toLowerCase (VString userMessage)
                       (VString aiResponse) w = (Normal r, w')
    /\ (let e := learningEntry_at (hd 0%N (clock w)) aiResponse
                   (res_response r) (res_action r) (res_reason r) in
        successfulResponses (learningData (guard w'))
        = shift_if_over 100
            (successfulResponses (learningData (guard w)) ++ successes [e])
        /\ failedResponses (learningData (guard w'))
           = shift_if_over 100
               (failedResponses (learningData (guard w)) ++ failures [e])
        /\ (successes [e] = [e] /\ failures [e] = []
            /\ res_action r <> act_fix_or_fallback
            \/ successes [e] = [] /\ failures [e] = [e]
               /\ res_action r = act_fix_or_fallback)
        /\ originalResponse e = firstn 200 aiResponse
        /\ processedResponse e = firstn 200 (res_response r)
        /\ (List.length (originalResponse e) <= 200)%nat
        /\ (List.length (processedResponse e) <= 200)%nat).
Proof.
  destruct (processChatMessage_anatomy toLowerCase userMessage aiResponse w)
    as [r [wg [G [C [E _]]]]].
  cbv zeta in E. eexists r, _. split; [exact E|]. clear E.
  destruct (updateLearningData_guard aiResponse (res_response r)
              (res_action r) (res_reason r) wg) as [Es [Ef _]].
  rewrite G, C in Es, Ef.
  set (wu := exec _ wg) in *.
  set (e := learningEntry_at _ _ _ _ _) in *.
  assert (L : same_logs
                (guard (if match res_action r with
                           | act_enhance =>
                             (List.length (successfulResponses
                                             (learningData (guard wu)))
                                mod 10 =? 0)%nat
                           | _ => false
                           end
                        then exec adaptPersonality wu else wu))
                (guard wu)).
  { destruct (match res_action r with act_enhance => _ | _ => false end).
    - apply adaptPersonality_same_logs.
    - apply same_logs_refl. }
  destruct L as [Ls Lf]. rewrite Ls, Lf.
  split; [exact Es|]. split; [exact Ef|].
  split.
  - subst e. unfold successes, failures, learningEntry_at.
    cbn [filter success]. destruct (res_action r); cbn.
    + left. repeat split; discriminate.
    + right. repeat split.
    + left. repeat split; discriminate.
  - subst e. cbn [learningEntry_at originalResponse processedResponse].
    unfold substring0. repeat split; apply firstn_le_length.
Qed.

(** X9. An exchange never changes [minLength], [maxLength] or
    [behaviorFrequency]; it leaves the two ratio thresholds as they are or
    multiplies both by 0.8, and never raises them.  When the decision is a
    redirect or a repair the thresholds, the learned rules and
    [lastAdapted] are all untouched. *)
Theorem exchange_thresholds (toLowerCase : jsstring -> jsstring)
    (userMessage aiResponse : jsstring) (w : World) :
  exists r w',
    processChatMessage toLowerCase (VString userMessage)
                       (VString aiResponse) w = (Normal r, w')
    /\ kept_or_shrunk (qualityMetrics (guard w)) (qualityMetrics (guard w'))
    /\ (res_action r <> act_enhance ->
        qualityMetrics (guard w') = qualityMetrics (guard w)
        /\ adaptationRules (guard w') = adaptationRules (guard w)
        /\ lastAdapted (learningData (guard w'))
           = lastAdapted (learningData (guard w))).
Proof.
  destruct (processChatMessage_anatomy toLowerCase userMessage aiResponse w)
    as [r [wg [G [C [E _]]]]].
  cbv zeta in E. eexists r, _. split; [exact E|]. clear E.
  destruct (updateLearningData_guard aiResponse (res_response r)
              (res_action r) (res_reason r) wg) as [_ [_ [El [Eq Er]]]].
  rewrite G in El, Eq, Er.
  set (wu := exec _ wg) in *.
  split.
  - destruct (match res_action r with act_enhance => _ | _ => false end).
    + rewrite <- Eq. apply adaptPersonality_thresholds.
    + rewrite Eq. apply kept_or_shrunk_refl.
  - intros Hne.
    destruct (res_action r); try congruence; now repeat split.
Qed.

(** ** Counting and ranking *)

Section Counting.

Context {K : Type}.
Variable eqb : K -> K -> bool.
Hypothesis eqb_eq : forall a b, eqb a b = true <-> a = b.

Lemma eqb_refl_true (a : K) : eqb a a = true.
Proof. now apply eqb_eq. Qed.

Lemma eqb_neq (a b : K) : eqb a b = false <-> a <> b.
Proof.
  split.
  - intros H E. apply eqb_eq in E. congruence.
  - intros H. destruct (eqb a b) eqn:E; [|reflexivity].
    apply eqb_eq in E. contradiction.
Qed.

Lemma bump_keys (k x : K) (counts : list (K * nat)) :
  In x (map fst (bump eqb k counts)) <-> x = k \/ In x (map fst counts).
Proof.
  induction counts as [|[k' n] rest IH]; cbn [bump map fst In].
  - intuition congruence.
  - destruct (eqb k' k) eqn:E; cbn [map fst In].
    + apply eqb_eq in E. subst k'. intuition congruence.
    + rewrite IH. intuition congruence.
Qed.

Lemma bump_NoDup (k : K) (counts : list (K * nat)) :
  NoDup (map fst counts) -> NoDup (map fst (bump eqb k counts)).
Proof.
  induction counts as [|[k' n] rest IH]; cbn [bump map fst]; intros H.
  - constructor; [intros [] | constructor].
  - inversion H as [|? ? Hnotin Hrest]; subst.
    destruct (eqb k' k) eqn:E; cbn [map fst].
    + constructor; assumption.
    + constructor; [|now apply IH].
      rewrite bump_keys. intros [-> | Hin]; [|contradiction].
      apply eqb_neq in E. congruence.
Qed.

Lemma stored_bump (k x : K) (counts : list (K * nat)) :
  stored eqb x (bump eqb k counts)
  = (stored eqb x counts + if eqb k x then 1 else 0)%nat.
Proof.
  unfold stored.
  induction counts as [|[k' n] rest IH]; cbn [bump find fst snd].
  - destruct (eqb k x); reflexivity.
  - destruct (eqb k' k) eqn:E; cbn [find fst snd].
    + apply eqb_eq in E. subst k'.
      destruct (eqb k x); cbn [snd]; lia.
    + destruct (eqb k' x) eqn:E2; cbn [snd].
      * apply eqb_eq in E2. subst k'. apply eqb_neq in E.
        assert (E3 : eqb k x = false) by (apply eqb_neq; congruence).
        rewrite E3. lia.
      * exact IH.
Qed.

Lemma bump_positive (k : K) (counts : list (K * nat)) :
  Forall (fun e => 0 < snd e)%nat counts ->
  Forall (fun e => 0 < snd e)%nat (bump eqb k counts).
Proof.
  induction counts as [|[k' n] rest IH]; cbn [bump]; intros H.
  - repeat constructor.
  - inversion H; subst. destruct (eqb k' k).
    + constructor; [cbn; lia | assumption].
    + constructor; [assumption | now apply IH].
Qed.

Lemma fold_bump_invariants (ks : list K) : forall acc,
  NoDup (map fst acc) -> Forall (fun e => 0 < snd e)%nat acc ->
  let c := fold_left (fun counts k => bump eqb k counts) ks acc in
  NoDup (map fst c)
  /\ Forall (fun e => 0 < snd e)%nat c
  /\ (forall x, stored eqb x c = (stored eqb x acc + occurrences eqb x ks)%nat)
  /\ (forall x, In x (map fst c) <-> In x ks \/ In x (map fst acc)).
Proof.
  induction ks as [|k ks IH]; intros acc Hnd Hpos; cbn [fold_left occurrences].
  - split; [exact Hnd|]. split; [exact Hpos|]. split.
    + intros x. lia.
    + intros x. cbn [In]. tauto.
  - destruct (IH (bump eqb k acc) (bump_NoDup k acc Hnd)
                 (bump_positive k acc Hpos)) as [A [B [C D]]].
    split; [exact A|]. split; [exact B|]. split.
    + intros x. rewrite C, stored_bump. lia.
    + intros x. rewrite D, bump_keys. cbn [In]. intuition congruence.
Qed.

Lemma stored_of_entry (counts : list (K * nat)) (k : K) (n : nat) :
  NoDup (map fst counts) -> In (k, n) counts -> stored eqb k counts = n.
Proof.
  unfold stored.
  induction counts as [|[k' n'] rest IH]; intros Hnd Hin; [destruct Hin|].
  inversion Hnd as [|? ? Hnotin Hrest]; subst. cbn [find fst].
  destruct Hin as [E | Hin].
  - injection E as -> ->. now rewrite eqb_refl_true.
  - destruct (eqb k' k) eqn:E.
    + apply eqb_eq in E. subst k'. exfalso. apply Hnotin.
      change k with (fst (k, n)). now apply in_map.
    + now apply IH.
Qed.

Lemma insert_desc_perm (e : K * nat) (l : list (K * nat)) :
  Permutation (insert_desc e l) (e :: l).
Proof.
  induction l as [|a l IH]; cbn [insert_desc]; [reflexivity|].
  destruct (snd a <=? snd e)%nat; [reflexivity|].
  rewrite IH. apply perm_swap.
Qed.

Lemma sort_desc_perm (l : list (K * nat)) : Permutation (sort_desc l) l.
Proof.
  unfold sort_desc. induction l as [|a l IH]; cbn [fold_right]; [reflexivity|].
  rewrite insert_desc_perm. now constructor.
Qed.

Lemma insert_desc_sorted (e : K * nat) (l : list (K * nat)) :
  StronglySorted desc l -> StronglySorted desc (insert_desc e l).
Proof.
  induction l as [|a l IH]; intros H; cbn [insert_desc].
  - repeat constructor.
  - inversion H as [|? ? Hl Ha]; subst.
    destruct (Nat.leb_spec (snd a) (snd e)) as [Hle | Hgt].
    + constructor; [exact H|]. constructor; [exact Hle|].
      rewrite Forall_forall in *. intros x Hx. specialize (Ha x Hx).
      unfold desc in *. lia.
    + constructor; [now apply IH|].
      rewrite Forall_forall in *. intros x Hx.
      apply (Permutation_in _ (insert_desc_perm e l)) in Hx.
      destruct Hx as [<- | Hx]; [unfold desc; lia | now apply Ha].
Qed.

Lemma sort_desc_sorted (l : list (K * nat)) : StronglySorted desc (sort_desc l).
Proof.
  unfold sort_desc. induction l as [|a l IH]; cbn [fold_right].
  - constructor.
  - now apply insert_desc_sorted.
Qed.

Lemma sorted_firstn_skipn (n : nat) (l : list (K * nat)) (x y : K * nat) :
  StronglySorted desc l -> In x (firstn n l) -> In y (skipn n l) -> desc x y.
Proof.
  revert l. induction n as [|n IH]; intros l Hs Hx Hy; [destruct Hx|].
  destruct l as [|a l]; [destruct Hx|].
  inversion Hs as [|? ? Hl Ha]; subst.
  cbn [firstn skipn] in Hx, Hy. destruct Hx as [<- | Hx].
  - rewrite Forall_forall in Ha. apply Ha. now apply (In_skipn n).
  - now apply (IH l).
Qed.

(** The ranking keeps each key once, at most [n] of them, all of them
    seen, and none that is seen less often than one left out. *)
Lemma ranked_spec (n : nat) (ks : list K) :
  NoDup (ranked eqb n ks)
  /\ (List.length (ranked eqb n ks) <= n)%nat
  /\ (forall k, In k (ranked eqb n ks) -> In k ks)
  /\ (forall p q, In p (ranked eqb n ks) -> ~ In q (ranked eqb n ks) ->
        (occurrences eqb q ks <= occurrences eqb p ks)%nat)
  /\ (ks <> [] -> (0 < n)%nat -> ranked eqb n ks <> []).
Proof.
  unfold ranked, counted.
  destruct (fold_bump_invariants ks [] (NoDup_nil _) (Forall_nil _))
    as [Hnd [Hpos [Hst Hkeys]]].
  set (c := fold_left _ ks []) in *.
  pose proof (sort_desc_perm c) as Hperm.
  pose proof (sort_desc_sorted c) as Hsorted.
  assert (Hnd' : NoDup (map fst (sort_desc c))).
  { eapply Permutation_NoDup; [|exact Hnd].
    apply Permutation_map. now symmetry. }
  split; [|split; [|split; [|split]]].
  - rewrite <- (firstn_skipn n (sort_desc c)), map_app in Hnd'.
    now apply NoDup_app_remove_r in Hnd'.
  - rewrite length_map. apply firstn_le_length.
  - intros k Hk. apply in_map_iff in Hk. destruct Hk as [[k' m] [<- Hin]].
    assert (Hc : In (k', m) c).
    { apply (Permutation_in _ Hperm).
      rewrite <- (firstn_skipn n (sort_desc c)). apply in_or_app. now left. }
    assert (Hk : In k' (map fst c))
      by (change k' with (fst (k', m)); now apply in_map).
    apply Hkeys in Hk. cbn [map In] in Hk. tauto.
  - intros p q Hp Hq.
    destruct (Nat.eq_dec (occurrences eqb q ks) 0) as [-> | Hpos_q]; [lia|].
    apply in_map_iff in Hp. destruct Hp as [[p' np] [Ep Hp]].
    cbn [fst] in Ep. subst p'.
    assert (Hpc : In (p, np) c).
    { apply (Permutation_in _ Hperm).
      rewrite <- (firstn_skipn n (sort_desc c)). apply in_or_app. now left. }
    assert (Enp : np = occurrences eqb p ks).
    { rewrite <- (stored_of_entry c p np Hnd Hpc), Hst.
      unfold stored. cbn [find]. lia. }
    assert (Hqk : In q (map fst c)).
    { assert (Hsq : stored eqb q c <> 0%nat).
      { rewrite Hst. unfold stored at 1. cbn [find]. lia. }
      unfold stored in Hsq.
      destruct (find (fun e => eqb (fst e) q) c) as [e|] eqn:F; [|congruence].
      apply find_some in F. destruct F as [Hin He].
      apply eqb_eq in He. subst q. now apply in_map. }
    apply in_map_iff in Hqk. destruct Hqk as [[q' nq] [Eq Hqc]].
    cbn [fst] in Eq. subst q'.
    assert (Enq : nq = occurrences eqb q ks).
    { rewrite <- (stored_of_entry c q nq Hnd Hqc), Hst.
      unfold stored. cbn [find]. lia. }
    assert (Hqs : In (q, nq) (skipn n (sort_desc c))).
    { apply (Permutation_in _ (Permutation_sym Hperm)) in Hqc.
      rewrite <- (firstn_skipn n (sort_desc c)) in Hqc.
      apply in_app_or in Hqc. destruct Hqc as [Hqf | Hqs]; [|exact Hqs].
      exfalso. apply Hq. change q with (fst (q, nq)). now apply in_map. }
    pose proof (sorted_firstn_skipn n _ _ _ Hsorted Hp Hqs) as Hd.
    unfold desc in Hd. cbn [snd] in Hd. lia.
  - intros Hne Hn Hempty.
    destruct ks as [|k ks']; [congruence|].
    assert (Hk : In k (map fst c)) by (apply Hkeys; left; now left).
    apply in_map_iff in Hk. destruct Hk as [e [_ He]].
    apply (Permutation_in _ (Permutation_sym Hperm)) in He.
    destruct (sort_desc c) as [|a l]; [destruct He|].
    destruct n; [lia|]. cbn [firstn map] in Hempty. discriminate.
Qed.

End Counting.

Lemma Pattern_eqb_eq (a b : Pattern) : Pattern_eqb a b = true <-> a = b.
Proof. destruct a, b; cbn; split; congruence. Qed.

Lemma jsstring_eqb_eq (a b : jsstring) : jsstring_eqb a b = true <-> a = b.
Proof.
  revert b; induction a as [|x a IH]; intros [|y b]; cbn [jsstring_eqb];
    try (split; congruence).
  unfold unit_eqb. rewrite andb_true_iff, N.eqb_eq, IH.
  split; [intros [-> ->]; reflexivity | intros H; injection H; auto].
Qed.

Lemma fold_left_map_keys {K E} (eqb : K -> K -> bool) (f : E -> K)
    (l : list E) : forall acc,
  fold_left (fun counts e => bump eqb (f e) counts) l acc
  = fold_left (fun counts k => bump eqb k counts) (map f l) acc.
Proof. induction l as [|e l IH]; intros acc; cbn; [reflexivity | apply IH]. Qed.

Lemma fold_left_filter_keys {K} (eqb : K -> K -> bool) (f : K -> bool)
    (l : list K) : forall acc,
  fold_left (fun counts k => if f k then bump eqb k counts else counts) l acc
  = fold_left (fun counts k => bump eqb k counts) (filter f l) acc.
Proof.
  induction l as [|k l IH]; intros acc; cbn [fold_left filter]; [reflexivity|].
  destruct (f k); cbn [fold_left]; apply IH.
Qed.

Lemma bestPatterns_ranked (g : Guard) :
  bestPatterns g = ranked Pattern_eqb 3 (observedPatterns g).
Proof.
  unfold bestPatterns, ranked, counted, observedPatterns. cbv zeta.
  now rewrite fold_left_map_keys.
Qed.

Lemma nested_fold_flat_map {K E} (eqb : K -> K -> bool)
    (test : E -> K -> bool) (bs : list K) (l : list E) : forall acc,
  fold_left (fun counts entry =>
               fold_left (fun counts b =>
                            if test entry b then bump eqb b counts else counts)
                         bs counts)
            l acc
  = fold_left (fun counts k => bump eqb k counts)
              (flat_map (fun entry => filter (test entry) bs) l) acc.
Proof.
  induction l as [|entry l IH]; intros acc; cbn [fold_left flat_map];
    [reflexivity|].
  rewrite fold_left_app, <- fold_left_filter_keys. apply IH.
Qed.

Lemma topBehaviors_ranked (g : Guard) :
  topBehaviors g = ranked jsstring_eqb 5 (observedBehaviors g).
Proof.
  unfold topBehaviors, ranked, counted, observedBehaviors. cbv zeta.
  rewrite (nested_fold_flat_map jsstring_eqb
             (fun entry behavior => includes (processedResponse entry) behavior)
             allBehaviors).
  reflexivity.
Qed.



(** ** What holds along a conversation *)

(** The guard after an exchange: one entry is logged in the guard as it
    was, and the adaptation may run on the enhance branch. *)
Lemma exchange_guard (toLowerCase : jsstring -> jsstring)
    (userMessage aiResponse : jsstring) (w : World) :
  exists r wg w',
    processChatMessage toLowerCase (VString userMessage)
                       (VString aiResponse) w = (Normal r, w')
    /\ guard wg = guard w /\ clock wg = clock w
    /\ (res_action r = act_fix_or_fallback ->
        res_reason r = Some personality_inconsistent)
    /\ (let wu := exec (updateLearningData aiResponse (res_response r)
                          (res_action r) (res_reason r)) wg in
        w' = wu \/ w' = exec adaptPersonality wu).
Proof.
  destruct (processChatMessage_anatomy toLowerCase userMessage aiResponse w)
    as [r [wg [G [C [E Hcase]]]]].
  cbv zeta in E. eexists r, wg, _. split; [exact E|].
  split; [exact G|]. split; [exact C|]. split.
  - destruct Hcase as [[_ [_ [A _]]] | [[_ [_ [_ [_ [R _]]]]]
                                        | [_ [_ [_ [A _]]]]]];
      intros H; congruence.
  - cbv zeta.
    destruct (match res_action r with act_enhance => _ | _ => false end);
      [now right | now left].
Qed.

Lemma converse_invariant (P : Guard -> Prop)
    (toLowerCase : jsstring -> jsstring) :
  (forall userMessage aiResponse w,
     P (guard w) ->
     P (guard (exec (processChatMessage toLowerCase (VString userMessage)
                                        (VString aiResponse)) w))) ->
  forall exchanges w,
    P (guard w) -> P (guard (converse toLowerCase exchanges w)).
Proof.
  intros Hstep exchanges.
  induction exchanges as [|[um ai] rest IH]; intros w H; cbn [converse];
    [exact H|].
  apply IH. now apply Hstep.
Qed.

Lemma shift_if_over_In {A} (n : nat) (l : list A) (x : A) :
  In x (shift_if_over n l) -> In x l.
Proof.
  unfold shift_if_over. destruct (n <? List.length l)%nat; [|auto].
  destruct l; [auto | now right].
Qed.

Lemma shift_if_over_length {A} (n : nat) (l : list A) :
  (List.length l <= S n)%nat -> (List.length (shift_if_over n l) <= n)%nat.
Proof.
  intros H. rewrite shift_if_over_slice by exact H.
  rewrite slice_last_length. lia.
Qed.

Lemma logs_wf_step (toLowerCase : jsstring -> jsstring)
    (userMessage aiResponse : jsstring) (w : World) :
  logs_wf (learningData (guard w)) ->
  logs_wf (learningData (guard
    (exec (processChatMessage toLowerCase (VString userMessage)
                              (VString aiResponse)) w))).
Proof.
  intros [Hs [Hf [Hse Hfe]]].
  destruct (exchange_guard toLowerCase userMessage aiResponse w)
    as [r [wg [w' [E [G [C [Hfix Hw']]]]]]].
  unfold exec. rewrite E. cbn [snd]. cbv zeta in Hw'.
  destruct (updateLearningData_guard aiResponse (res_response r)
              (res_action r) (res_reason r) wg) as [Es [Ef _]].
  rewrite G, C in Es, Ef.
  set (wu := exec _ wg) in *.
  set (e := learningEntry_at _ _ _ _ _) in *.
  assert (L : same_logs (guard w') (guard wu)).
  { destruct Hw' as [-> | ->];
      [apply same_logs_refl | apply adaptPersonality_same_logs]. }
  destruct L as [Ls Lf]. unfold logs_wf. rewrite Ls, Lf, Es, Ef.
  assert (Hfit : entry_fits e).
  { subst e. split; cbn [learningEntry_at originalResponse processedResponse];
      apply firstn_le_length. }
  assert (Hse' : forall x, In x (successes [e]) ->
            success x = true /\ action x <> act_fix_or_fallback /\ entry_fits x).
  { intros x Hx. unfold successes in Hx. apply filter_In in Hx.
    destruct Hx as [[<- | []] Hsx]. split; [exact Hsx|]. split; [|exact Hfit].
    subst e. cbn [learningEntry_at success action] in *.
    intros Ha. rewrite Ha in Hsx. discriminate. }
  assert (Hfe' : forall x, In x (failures [e]) ->
            success x = false /\ action x = act_fix_or_fallback
            /\ reason x = Some personality_inconsistent /\ entry_fits x).
  { intros x Hx. unfold failures in Hx. apply filter_In in Hx.
    destruct Hx as [[<- | []] Hsx]. apply negb_true_iff in Hsx.
    split; [exact Hsx|].
    assert (Ha : action e = act_fix_or_fallback).
    { subst e. cbn [learningEntry_at success action] in *.
      destruct (res_action r); cbn in Hsx; congruence. }
    split; [exact Ha|]. split; [|exact Hfit].
    subst e. cbn [learningEntry_at reason action] in *. now apply Hfix. }
  assert (Ln : forall l : list LearningEntry, (List.length l <= 1)%nat ->
                 forall l0, (List.length l0 <= 100)%nat ->
                   (List.length (l0 ++ l) <= 101)%nat).
  { intros l Hl l0 Hl0. rewrite length_app. lia. }
  assert (L1 : (List.length (successes [e]) <= 1)%nat)
    by (unfold successes; etransitivity; [apply filter_length_le | cbn; lia]).
  assert (L2 : (List.length (failures [e]) <= 1)%nat)
    by (unfold failures; etransitivity; [apply filter_length_le | cbn; lia]).
  split; [apply shift_if_over_length; now apply Ln|].
  split; [apply shift_if_over_length; now apply Ln|].
  split.
  - intros x Hx. apply shift_if_over_In, in_app_or in Hx.
    destruct Hx; [now apply Hse | now apply Hse'].
  - intros x Hx. apply shift_if_over_In, in_app_or in Hx.
    destruct Hx; [now apply Hfe | now apply Hfe'].
Qed.

Lemma rules_wf_adapted (t : N) (g : Guard) :
  rules_wf (adaptationRules g) ->
  rules_wf (adaptationRules (stamped t (preferring (learned (adjusted g))))).
Proof.
  intros [P1 [P2 [B1 B2]]]. rewrite adaptation_rules.
  destruct (ranked_spec Pattern_eqb Pattern_eqb_eq 3 (observedPatterns g))
    as [_ [Lp [Cp _]]].
  destruct (ranked_spec jsstring_eqb jsstring_eqb_eq 5 (observedBehaviors g))
    as [_ [Lb [Cb _]]].
  rewrite <- bestPatterns_ranked in Lp, Cp.
  rewrite <- topBehaviors_ranked in Lb, Cb.
  unfold rules_wf. cbn [enhancementPatterns preferredBehaviors].
  assert (Np : ~ In prefix_emoji (bestPatterns g)).
  { intros H. apply Cp in H. unfold observedPatterns in H.
    apply in_map_iff in H. destruct H as [entry [H _]].
    now apply analyze_never_prefix in H. }
  assert (Ab : forall b, In b (topBehaviors g) -> In b allBehaviors).
  { intros b Hb. apply Cb in Hb. unfold observedBehaviors in Hb.
    apply in_flat_map in Hb. destruct Hb as [entry [_ Hf]].
    apply filter_In in Hf. tauto. }
  destruct (bestPatterns g) as [|p ps] eqn:Eb;
    destruct (topBehaviors g) as [|b bs] eqn:Et; repeat split; assumption.
Qed.

Lemma rules_wf_step (toLowerCase : jsstring -> jsstring)
    (userMessage aiResponse : jsstring) (w : World) :
  rules_wf (adaptationRules (guard w)) ->
  rules_wf (adaptationRules (guard
    (exec (processChatMessage toLowerCase (VString userMessage)
                              (VString aiResponse)) w))).
Proof.
  intros H.
  destruct (exchange_guard toLowerCase userMessage aiResponse w)
    as [r [wg [w' [E [G [C [_ Hw']]]]]]].
  unfold exec at 1. rewrite E. cbn [snd]. cbv zeta in Hw'.
  destruct (updateLearningData_guard aiResponse (res_response r)
              (res_action r) (res_reason r) wg) as [_ [_ [_ [_ Er]]]].
  rewrite G in Er. set (wu := exec _ wg) in *.
  rewrite <- Er in H.
  destruct Hw' as [-> | ->]; [exact H|].
  destruct (adaptPersonality_guard_cases wu) as [[_ ->] | [_ ->]];
    [exact H | now apply rules_wf_adapted].
Qed.

Lemma thresholds_wf_shrunk (q q' : QualityMetrics) :
  kept_or_shrunk q q' -> thresholds_wf q -> thresholds_wf q'.
Proof.
  intros [Hmin [Hmax [_ Hr]]] [Wmin [Wmax [[D1 D2] [E1 E2]]]].
  unfold thresholds_wf. rewrite Hmin, Hmax.
  split; [exact Wmin|]. split; [exact Wmax|].
  destruct Hr as [[-> ->] | [-> ->]]; repeat split; try assumption; lra.
Qed.

Lemma thresholds_wf_step (toLowerCase : jsstring -> jsstring)
    (userMessage aiResponse : jsstring) (w : World) :
  thresholds_wf (qualityMetrics (guard w)) ->
  thresholds_wf (qualityMetrics (guard
    (exec (processChatMessage toLowerCase (VString userMessage)
                              (VString aiResponse)) w))).
Proof.
  intros H.
  destruct (exchange_guard toLowerCase userMessage aiResponse w)
    as [r [wg [w' [E [G [C [_ Hw']]]]]]].
  unfold exec at 1. rewrite E. cbn [snd]. cbv zeta in Hw'.
  destruct (updateLearningData_guard aiResponse (res_response r)
              (res_action r) (res_reason r) wg) as [_ [_ [_ [Eq _]]]].
  rewrite G in Eq. set (wu := exec _ wg) in *.
  rewrite <- Eq in H.
  destruct Hw' as [-> | ->]; [exact H|].
  eapply thresholds_wf_shrunk; [apply adaptPersonality_thresholds | exact H].
Qed.

Lemma fresh_logs_wf : logs_wf (learningData newGuard).
Proof.
  unfold logs_wf. cbn [newGuard learningData successfulResponses
                       failedResponses List.length In].
  split; [lia|]. split; [lia|]. split; intros e [].
Qed.

Lemma fresh_rules_wf : rules_wf (adaptationRules newGuard).
Proof.
  unfold rules_wf. cbn [newGuard adaptationRules enhancementPatterns
                        preferredBehaviors List.length In].
  split; [lia|]. split; [tauto|]. split; [lia|]. intros b [].
Qed.

Lemma fresh_thresholds_wf : thresholds_wf (qualityMetrics newGuard).
Proof.
  unfold thresholds_wf.
  cbn [newGuard qualityMetrics qualityThresholds minLength maxLength
       dogWordRatio emojiRatio].
  split; [reflexivity|]. split; [reflexivity|]. split; split; lra.
Qed.

(** X12. Along any conversation that starts with a fresh guard the length
    bounds stay 10 and 2000 and the two ratio thresholds stay positive and
    at most the configured 0.08 and 0.015.  So what the guard accepts never
    changes with its history: a response is valid exactly when it includes
    no avoid-phrase and has 10 to 2000 code units. *)
Theorem acceptance_never_adapts (toLowerCase : jsstring -> jsstring)
    (exchanges : list (jsstring * jsstring)) (rs : list nat) (ts : list N)
    (response userMessage : jsstring) :
  let g := guard (converse toLowerCase exchanges (world0 rs ts)) in
  thresholds_wf (qualityMetrics g)
  /\ (isValid (validateResponse toLowerCase (qualityMetrics g)
                                response userMessage) = true
      <-> ~ hasForbiddenPhrase toLowerCase response
          /\ (10 <= List.length response <= 2000)%nat).
Proof.
  intros g.
  assert (W : thresholds_wf (qualityMetrics g)).
  { subst g. apply (converse_invariant
                      (fun g => thresholds_wf (qualityMetrics g))).
    - intros um ai w. apply thresholds_wf_step.
    - apply fresh_thresholds_wf. }
  split; [exact W|].
  destruct W as [Wmin [Wmax _]].
  unfold validateResponse; cbn [isValid]. rewrite Wmin, Wmax.
  set (broken := existsb _ avoidPhrases).
  assert (Hb : hasForbiddenPhrase toLowerCase response <-> broken = true).
  { unfold hasForbiddenPhrase. subst broken. now rewrite existsb_exists. }
  rewrite Hb, !andb_true_iff, negb_true_iff, !Nat.leb_le.
  destruct broken; intuition congruence.
Qed.

(** ** Failure reasons and statistics *)

Lemma total_count_bump {K} (eqb : K -> K -> bool) (k : K)
    (counts : list (K * nat)) :
  total_count (bump eqb k counts) = S (total_count counts).
Proof.
  induction counts as [|[k' n] rest IH]; cbn [bump total_count]; [reflexivity|].
  destruct (eqb k' k); cbn [total_count]; lia.
Qed.

Lemma total_count_fold {K E} (eqb : K -> K -> bool) (f : E -> K)
    (l : list E) : forall acc,
  total_count (fold_left (fun counts e => bump eqb (f e) counts) l acc)
  = (total_count acc + List.length l)%nat.
Proof.
  induction l as [|e l IH]; intros acc; cbn [fold_left List.length]; [lia|].
  rewrite IH, total_count_bump. lia.
Qed.

Lemma optReason_eqb_eq (a b : option Reason) :
  optReason_eqb a b = true <-> a = b.
Proof.
  destruct a as [[]|], b as [[]|]; cbn; split; congruence.
Qed.

(** X13. [getCommonFailureReasons] lists each reason of the failure log
    once, with the number of failed entries that carry it, so the counts
    add up to the length of the failure log; a reason that no failed entry
    carries is not listed. *)
Theorem commonFailureReasons_count (g : Guard) :
  let reasons := getCommonFailureReasons g in
  let failed := map reason (failedResponses (learningData g)) in
  NoDup (map fst reasons)
  /\ total_count reasons = List.length (failedResponses (learningData g))
  /\ (forall k n, In (k, n) reasons ->
        n = occurrences optReason_eqb k failed /\ (0 < n)%nat)
  /\ (forall k, In k (map fst reasons) <-> In k failed).
Proof.
  intros reasons failed.
  assert (E : reasons = fold_left (fun counts k => bump optReason_eqb k counts)
                                  failed []).
  { subst reasons failed. unfold getCommonFailureReasons.
    apply fold_left_map_keys. }
  destruct (fold_bump_invariants optReason_eqb optReason_eqb_eq failed []
              (NoDup_nil _) (Forall_nil _)) as [Hnd [Hpos [Hst Hkeys]]].
  rewrite <- E in Hnd, Hpos, Hst, Hkeys.
  split; [exact Hnd|]. split; [|split].
  - subst reasons. unfold getCommonFailureReasons.
    rewrite total_count_fold. reflexivity.
  - intros k n Hin. split.
    + rewrite <- (stored_of_entry optReason_eqb optReason_eqb_eq
                    reasons k n Hnd Hin), Hst.
      unfold stored. cbn [find]. lia.
    + rewrite Forall_forall in Hpos. exact (Hpos (k, n) Hin).
  - intros k. rewrite Hkeys. cbn [map In]. tauto.
Qed.

Lemma reasons_of_uniform (l : list LearningEntry) (k : option Reason) :
  (forall e, In e l -> reason e = k) -> forall n,
  fold_left (fun reasons entry => bump optReason_eqb (reason entry) reasons)
            l [(k, S n)]
  = [(k, (S n + List.length l)%nat)].
Proof.
  induction l as [|e l IH]; intros H n; cbn [fold_left List.length].
  - f_equal. f_equal. lia.
  - rewrite (H e (or_introl eq_refl)). cbn [bump].
    assert (R : optReason_eqb k k = true) by now apply optReason_eqb_eq.
    rewrite R, IH by (intros x Hx; apply H; now right).
    f_equal. f_equal. lia.
Qed.

(** X14. Along any conversation that starts with a fresh guard each log
    holds at most 100 entries, each with texts of at most 200 code units;
    the success log holds only redirects and enhancements and the failure
    log only repairs, all with the reason [personality_inconsistent].  So
    [getPersonalityStats] never counts more than 200 entries, its success
    rate lies between 0 and 1, and its failure reasons are empty or the one
    reason with the length of the failure log. *)
Theorem conversation_logs (toLowerCase : jsstring -> jsstring)
    (exchanges : list (jsstring * jsstring)) (rs : list nat) (ts : list N) :
  let g := guard (converse toLowerCase exchanges (world0 rs ts)) in
  let stats := getPersonalityStats g in
  logs_wf (learningData g)
  /\ (totalProcessed stats <= 200)%nat
  /\ 0 <= successRate stats <= 1
  /\ commonFailureReasons stats
     = match failedResponses (learningData g) with
       | [] => []
       | failed => [(Some personality_inconsistent, List.length failed)]
       end.
Proof.
  intros g stats.
  assert (W : logs_wf (learningData g)).
  { subst g. apply (converse_invariant (fun g => logs_wf (learningData g))).
    - intros um ai w. apply logs_wf_step.
    - apply fresh_logs_wf. }
  split; [exact W|].
  destruct W as [Hs [Hf [_ Hfe]]].
  subst stats. unfold getPersonalityStats.
  cbn [totalProcessed successRate commonFailureReasons].
  split; [lia|]. split; [split|].
  - apply ratio_nonneg.
  - apply ratio_le_1; lia.
  - unfold getCommonFailureReasons.
    destruct (failedResponses (learningData g)) as [|e l]; [reflexivity|].
    cbn [fold_left bump].
    destruct (Hfe e (or_introl eq_refl)) as [_ [_ [-> _]]].
    rewrite reasons_of_uniform; [reflexivity|].
    intros x Hx. now destruct (Hfe x (or_intror Hx)) as [_ [_ [? _]]].
Qed.

(** X15. Along any conversation that starts with a fresh guard the learned
    rules hold at most three patterns, never [prefix_emoji], and at most
    five preferred behaviours, each a configured behaviour phrase: the
    branch of [enhancedEnhanceResponse] that calls [applyPrefixEmoji] is
    never taken by such a guard. *)
Theorem conversation_rules (toLowerCase : jsstring -> jsstring)
    (exchanges : list (jsstring * jsstring)) (rs : list nat) (ts : list N) :
  let rules :=
    adaptationRules (guard (converse toLowerCase exchanges (world0 rs ts))) in
  (List.length (enhancementPatterns rules) <= 3)%nat
  /\ ~ In prefix_emoji (enhancementPatterns rules)
  /\ (forall i, nth i (enhancementPatterns rules) other <> prefix_emoji)
  /\ (List.length (preferredBehaviors rules) <= 5)%nat
  /\ (forall b, In b (preferredBehaviors rules) -> In b allBehaviors).
Proof.
  intros rules.
  assert (W : rules_wf rules).
  { subst rules.
    apply (converse_invariant (fun g => rules_wf (adaptationRules g))).
    - intros um ai w. apply rules_wf_step.
    - apply fresh_rules_wf. }
  destruct W as [A [B [C D]]].
  split; [exact A|]. split; [exact B|]. split; [|split; assumption].
  intros i Hi.
  destruct (Nat.lt_ge_cases i (List.length (enhancementPatterns rules)))
    as [Hlt | Hge].
  - apply B. rewrite <- Hi. now apply nth_In.
  - rewrite nth_overflow in Hi by exact Hge. discriminate.
Qed.

(** ** How much an enhancement adds *)

Lemma behavior_lengths (b : jsstring) :
  In b allBehaviors -> (15 <= List.length b <= 35)%nat.
Proof.
  intros H.
  assert (K : forallb (fun b => (15 <=? List.length b)%nat
                                && (List.length b <=? 35)%nat)
                      allBehaviors = true) by (vm_compute; reflexivity).
  rewrite forallb_forall in K. specialize (K b H).
  apply andb_true_iff in K. destruct K as [K1 K2].
  apply Nat.leb_le in K1, K2. lia.
Qed.

Lemma emoji_lengths (e : jsstring) :
  In e Config.requiredElements_emojis -> List.length e = 2%nat.
Proof.
  intros [<- | [<- | [<- | []]]]; vm_compute; reflexivity.
Qed.

Lemma getRandomDogEmoji_len (w : World) :
  exists emoji,
    getRandomDogEmoji w = (Normal emoji, after_draw w)
    /\ List.length emoji = 2%nat.
Proof.
  unfold getRandomDogEmoji, bind, ret.
  destruct (randomIndex_run (List.length Config.requiredElements_emojis) w)
    as [i [-> Hi]].
  eexists. split; [reflexivity|].
  apply emoji_lengths, nth_In, Hi. cbn. lia.
Qed.

Lemma getRandomBehavior_len (w : World) :
  (forall b, In b (preferredBehaviors (adaptationRules (guard w))) ->
             In b allBehaviors) ->
  exists behavior,
    getRandomBehavior w = (Normal behavior, after_draw w)
    /\ (17 <= List.length behavior <= 37)%nat.
Proof.
  intros Hp. unfold getRandomBehavior, bind, ret, getGuard.
  assert (Hstar : List.length star = 1%nat) by (vm_compute; reflexivity).
  destruct (preferredBehaviors (adaptationRules (guard w))) as [|p ps] eqn:E.
  - destruct (randomIndex_run (List.length allBehaviors) w) as [i [-> Hi]].
    eexists. split; [reflexivity|].
    rewrite !length_app, Hstar.
    assert (Hin : In (nth i allBehaviors []) allBehaviors).
    { apply nth_In, Hi. vm_compute. lia. }
    apply behavior_lengths in Hin. lia.
  - destruct (randomIndex_run (List.length (p :: ps)) w) as [i [-> Hi]].
    eexists. split; [reflexivity|].
    rewrite !length_app, Hstar.
    assert (Hin : In (nth i (p :: ps) []) (p :: ps)).
    { apply nth_In, Hi. cbn [List.length]. lia. }
    apply Hp, behavior_lengths in Hin. lia.
Qed.

Lemma enhanceResponse_growth (response : jsstring) (w : World) :
  exists s w',
    enhanceResponse response w = (Normal s, w')
    /\ (List.length response + 3 <= List.length s
        <= List.length response + 41)%nat.
Proof.
  unfold enhanceResponse, bind, ret.
  destruct (randomIndex_run
              (List.length (map (fun behavior => star ++ behavior ++ star)
                                allBehaviors)) w) as [ib [-> Hib]].
  destruct (randomIndex_run (List.length Config.requiredElements_emojis)
              (after_draw w)) as [ie [-> Hie]].
  set (randomBehavior :=
         nth ib (map (fun behavior => star ++ behavior ++ star) allBehaviors) []).
  set (randomEmoji := nth ie Config.requiredElements_emojis []).
  assert (Hstar : List.length star = 1%nat) by (vm_compute; reflexivity).
  assert (Sp : List.length (lit " ") = 1%nat) by (vm_compute; reflexivity).
  assert (Wt : List.length (lit "*wags tail* ") = 12%nat)
    by (vm_compute; reflexivity).
  assert (Le : List.length randomEmoji = 2%nat).
  { apply emoji_lengths, nth_In, Hie. cbn. lia. }
  assert (Lb : (17 <= List.length randomBehavior <= 37)%nat).
  { subst randomBehavior. rewrite length_map in Hib.
    assert (Hlt : (ib < List.length allBehaviors)%nat)
      by (apply Hib; vm_compute; lia).
    rewrite (nth_indep _ [] (star ++ [] ++ star))
      by (now rewrite length_map).
    rewrite (map_nth (fun behavior => star ++ behavior ++ star)).
    rewrite !length_app, Hstar.
    pose proof (behavior_lengths _ (nth_In allBehaviors [] Hlt)) as Hb.
    unfold jsstring in *. lia. }
  match goal with |- context [if ?c then _ else _] => destruct c end.
  - eexists _, _. split; [reflexivity|]. rewrite !length_app, Sp, Le. lia.
  - destruct (randomIndex_run 5 (after_draw (after_draw w))) as [k [Ek Hk]].
    cbn [List.length]. rewrite Ek.
    destruct k as [|[|[|[|[|k]]]]]; cbn [nth];
      try (eexists _, _; split; [reflexivity|];
           rewrite !length_app, ?Sp, ?Le, ?Wt; lia).
    exfalso. assert (Hlt : (0 < 5)%nat) by lia. specialize (Hk Hlt). lia.
Qed.

Lemma enhancedEnhanceResponse_growth (response : jsstring) (w : World) :
  rules_wf (adaptationRules (guard w)) ->
  exists s w',
    enhancedEnhanceResponse response w = (Normal s, w')
    /\ (List.length response + 3 <= List.length s
        <= List.length response + 41)%nat.
Proof.
  intros W.
  destruct W as [_ [_ [_ Hp]]].
  assert (Sp : List.length (lit " ") = 1%nat) by (vm_compute; reflexivity).
  unfold enhancedEnhanceResponse, bind, getGuard.
  destruct (enhancementPatterns (adaptationRules (guard w))) as [|p ps];
    [apply enhanceResponse_growth|].
  destruct (randomIndex_run (List.length (p :: ps)) w) as [i [-> _]].
  assert (Hp' : forall b,
            In b (preferredBehaviors (adaptationRules (guard (after_draw w)))) ->
            In b allBehaviors) by exact Hp.
  destruct (nth i (p :: ps) other).
  - unfold applyBehaviorAndEmoji, bind, ret.
    destruct (getRandomBehavior_len (after_draw w) Hp') as [b [-> Lb]].
    destruct (getRandomDogEmoji_len (after_draw (after_draw w))) as [e [-> Le]].
    eexists _, _. split; [reflexivity|]. rewrite !length_app, Sp, Le. lia.
  - unfold applyBehaviorOnly, bind, ret.
    destruct (getRandomBehavior_len (after_draw w) Hp') as [b [-> Lb]].
    eexists _, _. split; [reflexivity|]. rewrite !length_app, Sp. lia.
  - unfold applyEmojiOnly, bind, ret.
    destruct (getRandomDogEmoji_len (after_draw w)) as [e [-> Le]].
    eexists _, _. split; [reflexivity|]. rewrite !length_app, Sp, Le. lia.
  - unfold applyPrefixEmoji, bind, ret.
    destruct (getRandomDogEmoji_len (after_draw w)) as [e [-> Le]].
    eexists _, _. split; [reflexivity|]. rewrite !length_app, Sp, Le. lia.
  - apply enhanceResponse_growth.
Qed.

Lemma conversation_rules_wf (toLowerCase : jsstring -> jsstring)
    (exchanges : list (jsstring * jsstring)) (rs : list nat) (ts : list N) :
  rules_wf (adaptationRules
              (guard (converse toLowerCase exchanges (world0 rs ts)))).
Proof.
  apply (converse_invariant (fun g => rules_wf (adaptationRules g))).
  - intros um ai w0. apply rules_wf_step.
  - apply fresh_rules_wf.
Qed.

(** X16. In a guard whose preferred behaviours are configured behaviour
    phrases, which is every guard of a conversation started fresh, the
    enhancement returns a text that is longer than the raw response by at
    least 3 and at most 41 code units. *)
Theorem enhancement_growth (toLowerCase : jsstring -> jsstring)
    (exchanges : list (jsstring * jsstring)) (rs : list nat) (ts : list N)
    (response : jsstring) :
  let w := converse toLowerCase exchanges (world0 rs ts) in
  exists s w',
    enhancedEnhanceResponse response w = (Normal s, w')
    /\ (List.length response + 3 <= List.length s
        <= List.length response + 41)%nat.
Proof.
  intros w. apply enhancedEnhanceResponse_growth.
  apply conversation_rules_wf.
Qed.

(** ** Personality strength along a conversation *)








(** ** The file and a restart *)






(** ** Replies that pass the guard's own validation *)

Lemma isValid_by_lengths (toLowerCase : jsstring -> jsstring)
    (q : QualityMetrics) (s userMessage : jsstring) :
  minLength q = 10%nat -> maxLength q = 2000%nat ->
  isValid (validateResponse toLowerCase q s userMessage)
  = isValid (validateResponse toLowerCase qualityThresholds s []).
Proof.
  intros Hmin Hmax. unfold validateResponse. cbn [isValid].
  now rewrite Hmin, Hmax.
Qed.

Lemma getRandomTemplate_in (type : TemplateType) (w : World) :
  exists s,
    getRandomTemplate type w = (Normal s, after_draw w)
    /\ In s (responseTemplates type).
Proof.
  unfold getRandomTemplate.
  destruct (responseTemplates type) as [|t ts] eqn:E.
  - destruct type; discriminate E.
  - unfold bind, ret.
    destruct (randomIndex_run (List.length (t :: ts)) w) as [i [-> Hi]].
    eexists. split; [reflexivity|]. apply nth_In, Hi. cbn. lia.
Qed.

Lemma generateFallbackResponse_redirect_in (toLowerCase : jsstring -> jsstring)
    (userMessage : jsstring) (w : World) :
  exists s,
    generateFallbackResponse toLowerCase userMessage redirect w
    = (Normal s, after_draw w)
    /\ In s redirectReplies.
Proof.
  assert (Raw : forall s, In s (responseTemplates redirect) ->
                          In s redirectReplies).
  { intros s Hs. unfold redirectReplies. apply in_or_app. now left. }
  unfold generateFallbackResponse at 1. cbv zeta.
  destruct (negb (isEmpty userMessage)).
  - destruct (find _ Config.redirectTopics) as [[singular plural]|] eqn:F.
    + apply find_some in F. destruct F as [Hin _].
      unfold bind at 1 2.
      destruct (getRandomTemplate_in redirect w) as [t [-> Ht]].
      cbn [ret].
      set (reply := replace_all (replace_all t (lit "{animal}") singular)
                                (lit "{plural}") plural).
      destruct reply as [|c r] eqn:Er.
      * destruct (getRandomTemplate_in redirect (after_draw w)) as [t' [_ Ht']].
        exfalso.
        assert (K : forallb (fun s => negb (isEmpty s)) redirectReplies = true)
          by (vm_compute; reflexivity).
        rewrite forallb_forall in K.
        assert (Hr : In reply redirectReplies).
        { unfold redirectReplies. apply in_or_app. right.
          apply in_flat_map. exists (singular, plural). split; [exact Hin|].
          apply in_map_iff. exists t. split; [reflexivity | exact Ht]. }
        specialize (K reply Hr). subst reply. rewrite Er in K. discriminate.
      * eexists. split; [reflexivity|]. rewrite <- Er.
        unfold redirectReplies. apply in_or_app. right.
        apply in_flat_map. exists (singular, plural). split; [exact Hin|].
        apply in_map_iff. exists t. split; [reflexivity | exact Ht].
    + unfold bind, ret.
      destruct (getRandomTemplate_in redirect w) as [t [-> Ht]].
      eexists. split; [reflexivity | now apply Raw].
  - unfold bind, ret.
    destruct (getRandomTemplate_in redirect w) as [t [-> Ht]].
    eexists. split; [reflexivity | now apply Raw].
Qed.

Lemma redirect_replies_valid (s : jsstring) :
  In s redirectReplies ->
  isValid (validateResponse asciiLowerCase qualityThresholds s []) = true.
Proof.
  intros H.
  assert (K : forallb (fun s => isValid (validateResponse asciiLowerCase
                                           qualityThresholds s []))
                      redirectReplies = true)
    by (vm_compute; reflexivity).
  rewrite forallb_forall in K. now apply K.
Qed.

(** The third confused template says "uncertainly", which includes the
    avoid-phrase "certainly". *)
Lemma confused_templates_validity (k : nat) :
  (k < 4)%nat ->
  isValid (validateResponse asciiLowerCase qualityThresholds
             (nth k Config.templates_confused []) [])
  = negb (k =? 2)%nat.
Proof.
  intros H. destruct k as [|[|[|[|k]]]]; try lia; vm_compute; reflexivity.
Qed.

Lemma confused_template_index (k : nat) :
  (k < 4)%nat ->
  (nth k Config.templates_confused [] = nth 2 Config.templates_confused []
   <-> k = 2%nat).
Proof.
  intros H. split; [|now intros ->].
  destruct k as [|[|[|[|k]]]]; try lia; try reflexivity;
    intros E; vm_compute in E; discriminate E.
Qed.

Lemma existsb_ext_in {A} (f g : A -> bool) (l : list A) :
  (forall x, In x l -> f x = g x) -> existsb f l = existsb g l.
Proof.
  induction l as [|x l IH]; intros H; [reflexivity|]. cbn [existsb].
  rewrite (H x) by now left. rewrite IH; [reflexivity|].
  intros y Hy. apply H. now right.
Qed.

(** Where the lower-casing is the Basic Latin one on a text and on the
    avoid-phrases, so is the verdict on the text. *)
Lemma isValid_lowered (toLowerCase : jsstring -> jsstring)
    (q : QualityMetrics) (s userMessage : jsstring) :
  lowers_as_ascii toLowerCase avoidPhrases ->
  toLowerCase s = asciiLowerCase s ->
  isValid (validateResponse toLowerCase q s userMessage)
  = isValid (validateResponse asciiLowerCase q s userMessage).
Proof.
  intros Hp Hs. unfold validateResponse. cbn [isValid]. rewrite Hs.
  f_equal. f_equal. apply existsb_ext_in.
  intros phrase Hin. now rewrite (Hp phrase Hin).
Qed.

(** X19. Along any conversation that starts with a fresh guard, and with a
    lower-casing that is the Basic Latin one on the avoid-phrases and on
    the texts of the redirect and confused templates, the text of a
    redirect always passes the guard's own validation, with or without the
    replacements.  The text of a repair passes it except in one case: when
    the prepended text is invalid and the draw selects the third confused
    template, whose "uncertainly" includes the avoid-phrase "certainly",
    the user receives a text that the validator rejects. *)
Theorem canned_replies_and_validation (toLowerCase : jsstring -> jsstring)
    (exchanges : list (jsstring * jsstring)) (rs : list nat) (ts : list N)
    (userMessage aiResponse : jsstring) :
  lowers_as_ascii toLowerCase
    (avoidPhrases ++ redirectReplies ++ Config.templates_confused) ->
  let w := converse toLowerCase exchanges (world0 rs ts) in
  exists r w',
    processChatMessage toLowerCase (VString userMessage)
                       (VString aiResponse) w = (Normal r, w')
    /\ (res_action r = act_redirect ->
        isValid (validateResponse toLowerCase (qualityMetrics (guard w))
                                  (res_response r) userMessage) = true)
    /\ (res_action r = act_fix_or_fallback ->
        (isValid (validateResponse toLowerCase (qualityMetrics (guard w))
                                   (res_response r) userMessage) = false
         <-> res_response r = nth 2 Config.templates_confused [])).
Proof.
  intros Hlow w.
  assert (Hp : lowers_as_ascii toLowerCase avoidPhrases)
    by (intros s Hs; apply Hlow, in_or_app; now left).
  assert (Hred : forall s, In s redirectReplies ->
                           toLowerCase s = asciiLowerCase s)
    by (intros s Hs; apply Hlow, in_or_app; right; apply in_or_app; now left).
  assert (Hcon : forall s, In s Config.templates_confused ->
                           toLowerCase s = asciiLowerCase s)
    by (intros s Hs; apply Hlow, in_or_app; right; apply in_or_app; now right).
  assert (W : thresholds_wf (qualityMetrics (guard w))).
  { subst w. apply (converse_invariant
                      (fun g => thresholds_wf (qualityMetrics g))).
    - intros um ai w0. apply thresholds_wf_step.
    - apply fresh_thresholds_wf. }
  destruct W as [Wmin [Wmax _]].
  assert (Canned : forall s,
            toLowerCase s = asciiLowerCase s ->
            isValid (validateResponse toLowerCase (qualityMetrics (guard w))
                                      s userMessage)
            = isValid (validateResponse asciiLowerCase qualityThresholds s [])).
  { intros s Hs. rewrite (isValid_lowered _ _ _ _ Hp Hs).
    apply (isValid_by_lengths _ _ _ _ Wmin Wmax). }
  destruct (processChatMessage_anatomy toLowerCase userMessage aiResponse w)
    as [r [wg [_ [_ [E Hcase]]]]].
  cbv zeta in E. eexists r, _. split; [exact E|]. clear E.
  assert (T2 : isValid (validateResponse toLowerCase
                          (qualityMetrics (guard w))
                          (nth 2 Config.templates_confused []) userMessage)
               = false).
  { rewrite Canned by (apply Hcon, nth_In;
          change (List.length Config.templates_confused) with 4%nat; lia).
    now rewrite confused_templates_validity by lia. }
  destruct Hcase as [[_ [G [A _]]] | [[_ [_ [F [A _]]]] | [_ [_ [_ [A _]]]]]];
    (split; [intros Ha | intros Ha]); try congruence.
  - destruct (generateFallbackResponse_redirect_in toLowerCase
                userMessage w) as [s [G' Hs]].
    assert (Es : s = res_response r) by congruence. subst s.
    rewrite Canned by now apply Hred.
    now apply redirect_replies_valid.
  - unfold attemptResponseFix, bind, getGuard in F.
    destruct (randomIndex_run (List.length dogIntros) w) as [i [Ei _]].
    rewrite Ei in F. cbn [guard after_draw] in F.
    destruct (isValid (validateResponse toLowerCase (qualityMetrics (guard w))
                         (nth i dogIntros [] ++ aiResponse) userMessage))
      eqn:V.
    + assert (Es : nth i dogIntros [] ++ aiResponse = res_response r)
        by (unfold ret in F; congruence).
      rewrite <- Es, V. split; [discriminate|].
      intros Et. rewrite Et in V. congruence.
    + rewrite generateFallbackResponse_confused in F.
      set (k := (hd 0%nat (randoms (after_draw w)) mod 4)%nat) in *.
      assert (Hk : (k < 4)%nat)
        by (apply Nat.mod_upper_bound; discriminate).
      assert (Es : nth k Config.templates_confused [] = res_response r)
        by congruence.
      rewrite <- Es, Canned by (apply Hcon, nth_In;
          change (List.length Config.templates_confused) with 4%nat; lia).
      rewrite (confused_templates_validity k Hk),
        (confused_template_index k Hk).
      destruct (Nat.eqb_spec k 2); cbn [negb]; intuition congruence.
Qed.

Lemma canned_replies_and_validation_witness :
  exists r w',
    processChatMessage asciiLowerCase (VString (lit "Tell me a story"))
      (VString (lit "Certainly! Once upon a time..."))
      (world0 [0; 2]%nat [5%N]) = (Normal r, w')
    /\ res_action r = act_fix_or_fallback
    /\ res_response r = nth 2 Config.templates_confused []
    /\ isValid (validateResponse asciiLowerCase qualityThresholds
                  (res_response r) (lit "Tell me a story")) = false.
Proof.
  destruct (canned_replies_and_validation asciiLowerCase []
              [0; 2]%nat [5%N] (lit "Tell me a story")
              (lit "Certainly! Once upon a time..."))
    as [r [w' [E [_ Hfix]]]].
  - intros s _. reflexivity.
  - assert (A : res_action r = act_fix_or_fallback /\
                res_response r = nth 2 Config.templates_confused []).
    { vm_compute in E. injection E as <- _. split; reflexivity. }
    destruct A as [A R].
    exists r, w'. split; [exact E|]. split; [exact A|]. split; [exact R|].
    now apply (Hfix A).
Defined.

(** ** Enhancement and the avoid-phrases *)

Lemma includes_separator (a b p : jsstring) (x : N) :
  existsb (unit_eqb x) p = false ->
  includes (a ++ x :: b) p = true ->
  includes a p = true \/ includes b p = true.
Proof.
  intros Hx H. apply includes_iff in H. destruct H as [pre [post H]].
  assert (Hnot : forall p1 p2, p <> p1 ++ x :: p2).
  { intros p1 p2 ->. rewrite existsb_app in Hx. cbn [existsb] in Hx.
    unfold unit_eqb in Hx. rewrite N.eqb_refl in Hx.
    now rewrite orb_true_r in Hx. }
  apply app_eq_app in H. destruct H as [l [[Ha Hp] | [Hpre Hb]]].
  - apply app_eq_app in Hp. destruct Hp as [m [[Hp Hm] | [Hl Hpost]]].
    + destruct m as [|y m].
      * rewrite app_nil_r in Hp. subst p a. left.
        apply includes_iff. exists pre, []. now rewrite app_nil_r.
      * injection Hm as -> _. exfalso. now apply (Hnot l m).
    + subst l a. left. apply includes_iff. now exists pre, m.
  - destruct l as [|y l].
    + cbn [app] in Hb. destruct p as [|y p'].
      * left. apply includes_iff. exists a, []. now rewrite app_nil_r.
      * injection Hb as -> _. exfalso. now apply (Hnot [] p').
    + injection Hb as _ ->. right. apply includes_iff. now exists l, post.
Qed.

Lemma exists_last_or_nil {A : Type} (l : list A) :
  l = [] \/ exists l0 d, l = l0 ++ [d].
Proof.
  destruct l as [|a l]; [now left|]. right.
  destruct (@exists_last _ (a :: l)) as [l0 [d E]]; [discriminate|].
  now exists l0, d.
Qed.

Lemma includes_snoc (a p : jsstring) (c : N) :
  includes (a ++ [c]) p = true ->
  includes a p = true
  \/ match rev p with d :: _ => unit_eqb d c | [] => false end = true.
Proof.
  intros H. apply includes_iff in H. destruct H as [pre [post H]].
  destruct (exists_last_or_nil post) as [-> | [post0 [d ->]]].
  - rewrite app_nil_r in H.
    destruct (exists_last_or_nil p) as [-> | [p0 [d ->]]].
    + left. apply includes_iff. exists a, []. now rewrite app_nil_r.
    + right. rewrite app_assoc in H. apply app_inj_tail in H.
      destruct H as [_ ->]. rewrite rev_app_distr. cbn.
      unfold unit_eqb. apply N.eqb_refl.
  - left. rewrite !app_assoc in H. apply app_inj_tail in H.
    destruct H as [-> _]. apply includes_iff. exists pre, post0.
    now rewrite <- app_assoc.
Qed.

Lemma includes_cons (b p : jsstring) (c : N) :
  includes (c :: b) p = true ->
  includes b p = true
  \/ match p with d :: _ => unit_eqb d c | [] => false end = true.
Proof.
  intros H. apply includes_iff in H. destruct H as [pre [post H]].
  destruct pre as [|y pre].
  - cbn [app] in H. destruct p as [|d p'].
    + left. apply includes_iff. exists b, []. now rewrite app_nil_r.
    + injection H as -> _. right. unfold unit_eqb. apply N.eqb_refl.
  - injection H as _ ->. left. apply includes_iff. now exists pre, post.
Qed.

Lemma okPost_sound (p s post : jsstring) :
  okPost p post = true -> includes (s ++ post) p = true ->
  includes s p = true.
Proof.
  unfold okPost. destruct post as [|c [|x rest]]; try discriminate.
  - intros _. now rewrite app_nil_r.
  - rewrite !andb_true_iff, !negb_true_iff. intros [[He Hx] Hr] H.
    change (s ++ c :: x :: rest) with (s ++ [c] ++ x :: rest) in H.
    rewrite app_assoc in H.
    apply (includes_separator _ _ _ _ Hx) in H.
    destruct H as [H | H]; [|congruence].
    apply includes_snoc in H. destruct H as [H | H]; [exact H | congruence].
Qed.

Lemma okPre_sound (p s pre : jsstring) :
  okPre p pre = true -> includes (pre ++ s) p = true ->
  includes s p = true.
Proof.
  unfold okPre. rewrite <- (rev_involutive pre) at 2.
  destruct (rev pre) as [|c [|x rest]]; try discriminate.
  - intros _ H. exact H.
  - rewrite !andb_true_iff, !negb_true_iff. intros [[Hs Hx] Hr] H.
    cbn [rev] in H. rewrite <- !app_assoc in H. cbn [app] in H.
    apply (includes_separator _ _ _ _ Hx) in H.
    destruct H as [H | H]; [congruence|].
    apply includes_cons in H. destruct H as [H | H]; [exact H | congruence].
Qed.

Lemma decorations_ok (p : jsstring) :
  In p (map asciiLowerCase avoidPhrases) ->
  (forall pre, In pre decorationsPre -> okPre p (asciiLowerCase pre) = true)
  /\ (forall post, In post decorationsPost ->
        okPost p (asciiLowerCase post) = true).
Proof.
  intros Hp.
  assert (K : forallb (fun p =>
                forallb (fun pre => okPre p (asciiLowerCase pre)) decorationsPre
                && forallb (fun post => okPost p (asciiLowerCase post))
                           decorationsPost)
              (map asciiLowerCase avoidPhrases) = true)
    by (vm_compute; reflexivity).
  rewrite forallb_forall in K. specialize (K p Hp).
  apply andb_true_iff in K. destruct K as [K1 K2].
  rewrite forallb_forall in K1, K2. now split.
Qed.

Lemma decorations_at_spaces :
  (forall pre, In pre decorationsPre ->
     pre = [] \/ exists p, pre = p ++ lit " ")
  /\ (forall post, In post decorationsPost -> exists q, post = lit " " ++ q).
Proof.
  split.
  - intros pre H.
    assert (K : forallb (fun pre => match rev pre with
                                    | [] => true
                                    | c :: _ => unit_eqb c 32
                                    end) decorationsPre = true)
      by (vm_compute; reflexivity).
    rewrite forallb_forall in K. specialize (K pre H).
    destruct (exists_last_or_nil pre) as [-> | [p [c ->]]]; [now left|].
    right. exists p. rewrite rev_app_distr in K. cbn in K.
    apply N.eqb_eq in K. now subst c.
  - intros post H.
    assert (K : forallb (fun post => match post with
                                     | c :: _ => unit_eqb c 32
                                     | [] => false
                                     end) decorationsPost = true)
      by (vm_compute; reflexivity).
    rewrite forallb_forall in K. specialize (K post H).
    destruct post as [|c q]; [discriminate K|].
    apply N.eqb_eq in K. subst c. now exists q.
Qed.

(** The lowering of a decorated text, from the lowering of the text. *)
Lemma decorated_lowered (toLowerCase : jsstring -> jsstring)
    (pre s post : jsstring) :
  splits_at_spaces toLowerCase ->
  lowers_as_ascii toLowerCase (decorationsPre ++ decorationsPost) ->
  In pre decorationsPre -> In post decorationsPost ->
  toLowerCase (pre ++ s ++ post)
  = asciiLowerCase pre ++ toLowerCase s ++ asciiLowerCase post.
Proof.
  intros Hsp Hlow Hpre Hpost.
  destruct decorations_at_spaces as [Dpre Dpost].
  assert (Lnil : toLowerCase [] = []).
  { rewrite (Hlow []); [reflexivity|]. apply in_or_app. left. now left. }
  assert (Lpost : forall t, toLowerCase (t ++ post)
                            = toLowerCase t ++ asciiLowerCase post).
  { intros t. rewrite <- (Hlow post) by (apply in_or_app; now right).
    destruct (Dpost post Hpost) as [q ->].
    pose proof (Hsp [] q) as H0. rewrite Lnil in H0.
    change (toLowerCase (lit " " ++ q) = lit " " ++ toLowerCase q) in H0.
    now rewrite (Hsp t q), H0. }
  destruct (Dpre pre Hpre) as [-> | [p Ep]].
  - cbn [app asciiLowerCase map]. apply Lpost.
  - rewrite <- (Hlow pre) by (apply in_or_app; now left).
    subst pre. rewrite <- !app_assoc.
    rewrite (Hsp p (s ++ post)), Lpost.
    pose proof (Hsp p []) as H0. rewrite Lnil, !app_nil_r in H0.
    now rewrite H0, <- !app_assoc.
Qed.

(** A decorated text includes an avoid-phrase only if the text did. *)
Lemma decorated_no_phrase (toLowerCase : jsstring -> jsstring)
    (pre s post : jsstring) :
  splits_at_spaces toLowerCase ->
  lowers_as_ascii toLowerCase (avoidPhrases ++ decorationsPre ++ decorationsPost) ->
  In pre decorationsPre -> In post decorationsPost ->
  hasForbiddenPhrase toLowerCase (pre ++ s ++ post) ->
  hasForbiddenPhrase toLowerCase s.
Proof.
  intros Hsp Hlow Hpre Hpost [phrase [Hin H]].
  exists phrase. split; [exact Hin|].
  assert (Hd : lowers_as_ascii toLowerCase (decorationsPre ++ decorationsPost))
    by (intros t Ht; apply Hlow, in_or_app; now right).
  rewrite (decorated_lowered toLowerCase pre s post Hsp Hd Hpre Hpost) in H.
  rewrite (Hlow phrase) in * by (apply in_or_app; now left).
  destruct (decorations_ok (asciiLowerCase phrase)) as [Kpre Kpost].
  { now apply (in_map asciiLowerCase). }
  apply (okPre_sound _ _ _ (Kpre pre Hpre)) in H.
  now apply (okPost_sound _ _ _ (Kpost post Hpost)) in H.
Qed.

Lemma post_behavior_in (b : jsstring) :
  In b allBehaviors -> In (lit " " ++ star ++ b ++ star) decorationsPost.
Proof.
  intros H. unfold decorationsPost. apply in_or_app. left.
  apply in_flat_map. exists b. split; [exact H | now left].
Qed.

Lemma post_both_in (b e : jsstring) :
  In b allBehaviors -> In e Config.requiredElements_emojis ->
  In (lit " " ++ (star ++ b ++ star) ++ lit " " ++ e) decorationsPost.
Proof.
  intros Hb He. unfold decorationsPost. apply in_or_app. left.
  apply in_flat_map. exists b. split; [exact Hb|]. right.
  apply (in_map (fun emoji =>
                   lit " " ++ (star ++ b ++ star) ++ lit " " ++ emoji)), He.
Qed.

Lemma post_emoji_in (e : jsstring) :
  In e Config.requiredElements_emojis -> In (lit " " ++ e) decorationsPost.
Proof.
  intros He. unfold decorationsPost. apply in_or_app. right.
  apply (in_map (fun emoji => lit " " ++ emoji)), He.
Qed.

Lemma pre_emoji_in (e : jsstring) :
  In e Config.requiredElements_emojis -> In (e ++ lit " ") decorationsPre.
Proof.
  intros He. unfold decorationsPre. right. right.
  apply (in_map (fun emoji => emoji ++ lit " ")), He.
Qed.

Lemma getRandomDogEmoji_in (w : World) :
  exists emoji,
    getRandomDogEmoji w = (Normal emoji, after_draw w)
    /\ In emoji Config.requiredElements_emojis.
Proof.
  unfold getRandomDogEmoji, bind, ret.
  destruct (randomIndex_run (List.length Config.requiredElements_emojis) w)
    as [i [-> Hi]].
  eexists. split; [reflexivity|]. apply nth_In, Hi. cbn. lia.
Qed.

Lemma getRandomBehavior_in (w : World) :
  (forall b, In b (preferredBehaviors (adaptationRules (guard w))) ->
             In b allBehaviors) ->
  exists b,
    getRandomBehavior w = (Normal (star ++ b ++ star), after_draw w)
    /\ In b allBehaviors.
Proof.
  intros Hp. unfold getRandomBehavior, bind, ret, getGuard.
  destruct (preferredBehaviors (adaptationRules (guard w))) as [|p ps] eqn:E.
  - destruct (randomIndex_run (List.length allBehaviors) w) as [i [-> Hi]].
    eexists. split; [reflexivity|]. apply nth_In, Hi. vm_compute. lia.
  - destruct (randomIndex_run (List.length (p :: ps)) w) as [i [-> Hi]].
    eexists. split; [reflexivity|]. apply Hp, nth_In, Hi.
    cbn [List.length]. lia.
Qed.

(** The enhanced text is the raw response between two decorations. *)
Lemma enhanceResponse_decorated (response : jsstring) (w : World) :
  exists pre post w',
    enhanceResponse response w = (Normal (pre ++ response ++ post), w')
    /\ In pre decorationsPre /\ In post decorationsPost.
Proof.
  unfold enhanceResponse, bind, ret.
  destruct (randomIndex_run
              (List.length (map (fun behavior => star ++ behavior ++ star)
                                allBehaviors)) w) as [ib [-> Hib]].
  destruct (randomIndex_run (List.length Config.requiredElements_emojis)
              (after_draw w)) as [ie [-> Hie]].
  assert (He : In (nth ie Config.requiredElements_emojis [])
                  Config.requiredElements_emojis)
    by (apply nth_In, Hie; cbn; lia).
  set (randomEmoji := nth ie Config.requiredElements_emojis []) in *.
  rewrite length_map in Hib.
  assert (Hlt : (ib < List.length allBehaviors)%nat)
    by (apply Hib; vm_compute; lia).
  rewrite (nth_indep _ [] (star ++ [] ++ star)) by (now rewrite length_map).
  rewrite (map_nth (fun behavior => star ++ behavior ++ star)).
  pose proof (nth_In allBehaviors [] Hlt) as Hb.
  set (b := nth ib allBehaviors []) in *.
  assert (Pnil : In [] decorationsPre) by now left.
  assert (Pwag : In (lit "*wags tail* ") decorationsPre) by (right; now left).
  match goal with |- context [if ?c then _ else _] => destruct c end.
  - exists [], (lit " " ++ randomEmoji). eexists.
    split; [reflexivity|]. split; [exact Pnil | now apply post_emoji_in].
  - destruct (randomIndex_run 5 (after_draw (after_draw w))) as [k [Ek Hk]].
    cbn [List.length]. rewrite Ek.
    destruct k as [|[|[|[|[|k]]]]]; cbn [nth].
    + exists [], (lit " " ++ star ++ b ++ star). eexists.
      split; [reflexivity|]. split; [exact Pnil | now apply post_behavior_in].
    + exists [], (lit " " ++ randomEmoji). eexists.
      split; [reflexivity|]. split; [exact Pnil | now apply post_emoji_in].
    + exists [], (lit " " ++ (star ++ b ++ star) ++ lit " " ++ randomEmoji).
      eexists.
      split; [reflexivity|]. split; [exact Pnil | now apply post_both_in].
    + exists (randomEmoji ++ lit " "), (lit " " ++ star ++ b ++ star). eexists.
      split; [now rewrite <- !app_assoc|].
      split; [now apply pre_emoji_in | now apply post_behavior_in].
    + exists (lit "*wags tail* "), (lit " " ++ randomEmoji). eexists.
      split; [reflexivity|]. split; [exact Pwag | now apply post_emoji_in].
    + exfalso. assert (H5 : (0 < 5)%nat) by lia. specialize (Hk H5). lia.
Qed.

Lemma enhancedEnhanceResponse_decorated (response : jsstring) (w : World) :
  rules_wf (adaptationRules (guard w)) ->
  exists pre post w',
    enhancedEnhanceResponse response w
    = (Normal (pre ++ response ++ post), w')
    /\ In pre decorationsPre /\ In post decorationsPost.
Proof.
  intros [_ [Hno [_ Hp]]].
  assert (Pnil : In [] decorationsPre) by now left.
  unfold enhancedEnhanceResponse, bind, getGuard.
  destruct (enhancementPatterns (adaptationRules (guard w))) as [|p ps] eqn:E;
    [apply enhanceResponse_decorated|].
  destruct (randomIndex_run (List.length (p :: ps)) w) as [i [-> Hi]].
  assert (Hp' : forall b,
            In b (preferredBehaviors (adaptationRules (guard (after_draw w)))) ->
            In b allBehaviors) by exact Hp.
  assert (Hin : In (nth i (p :: ps) other) (p :: ps))
    by (apply nth_In, Hi; cbn [List.length]; lia).
  destruct (nth i (p :: ps) other).
  - unfold applyBehaviorAndEmoji, bind, ret.
    destruct (getRandomBehavior_in (after_draw w) Hp') as [b [-> Hb]].
    destruct (getRandomDogEmoji_in (after_draw (after_draw w))) as [e [-> He]].
    exists [], (lit " " ++ (star ++ b ++ star) ++ lit " " ++ e). eexists.
    split; [reflexivity|]. split; [exact Pnil | now apply post_both_in].
  - unfold applyBehaviorOnly, bind, ret.
    destruct (getRandomBehavior_in (after_draw w) Hp') as [b [-> Hb]].
    exists [], (lit " " ++ star ++ b ++ star). eexists.
    split; [reflexivity|]. split; [exact Pnil | now apply post_behavior_in].
  - unfold applyEmojiOnly, bind, ret.
    destruct (getRandomDogEmoji_in (after_draw w)) as [e [-> He]].
    exists [], (lit " " ++ e). eexists.
    split; [reflexivity|]. split; [exact Pnil | now apply post_emoji_in].
  - exfalso. now apply Hno.
  - apply enhanceResponse_decorated.
Qed.

(** X20. Enhancement and the guard's own validator, at any point of a
    conversation started fresh, with a lower-casing that lowers the text
    on each side of a space by itself and is the Basic Latin one on the
    avoid-phrases and on the decorations: an enhanced reply includes no
    avoid-phrase (the raw response had none and the decorations neither
    hold nor complete one), so [validateResponse] accepts it exactly when
    it has at most 2000 code units.  It does when the raw response has at
    most 1959, and it never does when the raw response has 1998 or more: a
    response that passed validation is then turned into a reply that would
    fail it. *)
Theorem enhanced_reply_validity (toLowerCase : jsstring -> jsstring)
    (exchanges : list (jsstring * jsstring)) (rs : list nat) (ts : list N)
    (userMessage aiResponse : jsstring) :
  splits_at_spaces toLowerCase ->
  lowers_as_ascii toLowerCase
    (avoidPhrases ++ decorationsPre ++ decorationsPost) ->
  let w := converse toLowerCase exchanges (world0 rs ts) in
  exists r w',
    processChatMessage toLowerCase (VString userMessage)
                       (VString aiResponse) w = (Normal r, w')
    /\ (res_action r = act_enhance ->
        let accepted :=
          isValid (validateResponse toLowerCase (qualityMetrics (guard w))
                                    (res_response r) userMessage) in
        ~ hasForbiddenPhrase toLowerCase (res_response r)
        /\ (accepted = true <-> (List.length (res_response r) <= 2000)%nat)
        /\ ((List.length aiResponse <= 1959)%nat -> accepted = true)
        /\ ((1998 <= List.length aiResponse)%nat -> accepted = false)).
Proof.
  intros Hsp Hlow w.
  assert (W : rules_wf (adaptationRules (guard w)))
    by apply conversation_rules_wf.
  assert (T : thresholds_wf (qualityMetrics (guard w))).
  { subst w.
    apply (converse_invariant (fun g => thresholds_wf (qualityMetrics g))).
    - intros um ai w0. apply thresholds_wf_step.
    - apply fresh_thresholds_wf. }
  destruct T as [Tmin [Tmax _]].
  destruct (processChatMessage_anatomy toLowerCase userMessage aiResponse w)
    as [r [wg [_ [_ [E Cases]]]]].
  cbv zeta in E. exists r. eexists. split; [exact E|].
  intros Hact. cbv zeta.
  destruct Cases as [[_ [_ [A _]]] | [[_ [_ [_ [A _]]]] | [_ [Hv [Er _]]]]];
    try congruence.
  destruct (enhancedEnhanceResponse_decorated aiResponse w W)
    as [pre [post [w1 [Ed [Hpre Hpost]]]]].
  destruct (enhancedEnhanceResponse_growth aiResponse w W)
    as [s [w2 [Eg Hlen]]].
  rewrite Er in Ed, Eg.
  assert (Rd : res_response r = pre ++ aiResponse ++ post) by congruence.
  assert (Rs : res_response r = s) by congruence.
  subst s. clear Ed Eg.
  unfold validateResponse in Hv. cbn [isValid] in Hv.
  rewrite Tmin, Tmax in Hv.
  apply andb_true_iff in Hv. destruct Hv as [Hbreak Hl].
  apply andb_true_iff in Hl. destruct Hl as [Hl1 Hl2].
  apply Nat.leb_le in Hl1, Hl2. apply negb_true_iff in Hbreak.
  assert (Raw : ~ hasForbiddenPhrase toLowerCase aiResponse).
  { intros [phrase [Hin Hinc]].
    rewrite existsb_false_iff in Hbreak. specialize (Hbreak phrase Hin).
    congruence. }
  assert (Clean : ~ hasForbiddenPhrase toLowerCase (res_response r)).
  { intros H. apply Raw. rewrite Rd in H.
    now apply (decorated_no_phrase toLowerCase pre aiResponse post). }
  assert (Acc : isValid (validateResponse toLowerCase
                           (qualityMetrics (guard w)) (res_response r)
                           userMessage) = true
                <-> (List.length (res_response r) <= 2000)%nat).
  { unfold validateResponse. cbn [isValid]. rewrite Tmin, Tmax.
    rewrite !andb_true_iff, negb_true_iff, !Nat.leb_le, existsb_false_iff.
    split; [tauto|]. intros Hle. split; [|split; [|exact Hle]].
    - intros phrase Hin.
      destruct (includes _ _) eqn:Hinc; [|reflexivity].
      exfalso. apply Clean. now exists phrase.
    - unfold jsstring in *. lia. }
  split; [exact Clean|]. split; [exact Acc|]. split.
  - intros Hshort. apply Acc. unfold jsstring in *. lia.
  - intros Hlong.
    destruct (isValid _) eqn:V; [|reflexivity].
    exfalso. assert (Hle : (List.length (res_response r) <= 2000)%nat)
      by now apply Acc.
    unfold jsstring in *. lia.
Qed.

Lemma enhanced_reply_validity_witness :
  exists r w',
    processChatMessage asciiLowerCase (VString (lit "How was your walk?"))
      (VString (lit "Woof! The walk was great, I sniffed every tree."))
      (world0 [3; 1; 2]%nat [5%N]) = (Normal r, w')
    /\ res_action r = act_enhance
    /\ ~ hasForbiddenPhrase asciiLowerCase (res_response r)
    /\ isValid (validateResponse asciiLowerCase qualityThresholds
                  (res_response r) (lit "How was your walk?")) = true.
Proof.
  destruct (enhanced_reply_validity asciiLowerCase [] [3; 1; 2]%nat [5%N]
              (lit "How was your walk?")
              (lit "Woof! The walk was great, I sniffed every tree."))
    as [r [w' [E H]]].
  - intros a b. apply asciiLowerCase_app.
  - intros s _. reflexivity.
  - assert (A : res_action r = act_enhance).
    { vm_compute in E. injection E as <- _. reflexivity. }
    destruct (H A) as [Clean [_ [Short _]]].
    exists r, w'. split; [exact E|]. split; [exact A|].
    split; [exact Clean|]. apply Short. vm_compute. lia.
Defined.


(** ** The earlier guard and route *)

Lemma updateLearningData_legacy (o p : jsstring) (a : Action)
    (r : option Reason) (w : World) :
  exists wl,
    Legacy.updateLearningData o p a r w = (Normal tt, wl)
    /\ guard (exec (updateLearningData o p a r) w) = guard wl
    /\ randoms wl = randoms w
    /\ qualityMetrics (guard wl) = qualityMetrics (guard w)
    /\ adaptationRules (guard wl) = adaptationRules (guard w)
    /\ learningDataFile wl = learningDataFile w.
Proof.
  unfold exec, updateLearningData, Legacy.updateLearningData, saveLearningData,
    bind, now, modifyGuard, getGuard, writeFile, ret.
  cbn [fst snd guard randoms clock learningDataFile].
  eexists. split; [reflexivity|].
  cbn [fst snd guard randoms clock learningDataFile].
  split; [reflexivity|]. split; [reflexivity|].
  split; [|split; reflexivity].
  destruct (success _); reflexivity.
Qed.

Lemma enhancedEnhanceResponse_unlearned (response : jsstring) (w : World) :
  enhancementPatterns (adaptationRules (guard w)) = [] ->
  enhancedEnhanceResponse response w = enhanceResponse response w.
Proof.
  intros H. unfold enhancedEnhanceResponse, bind, getGuard. now rewrite H.
Qed.

(** X21. Moving the log update from the [/chat] route into
    [processChatMessage] kept what the route does, as long as the guard
    holds no learned enhancement pattern: on any message and raw response
    the earlier route with the earlier guard and the later route with the
    later guard send the same reply, leave the same two logs and consume
    the same random draws.  The earlier pair changes neither the
    thresholds nor the rules, and writes no file. *)
Theorem legacy_route_agrees (toLowerCase : jsstring -> jsstring)
    (userMessage : jsvalue) (rawResponse : jsstring) (w : World) :
  enhancementPatterns (adaptationRules (guard w)) = [] ->
  exists reply wl wn,
    Legacy.chat_guardBlock toLowerCase userMessage rawResponse w
    = (Normal reply, wl)
    /\ chat_guardBlock toLowerCase userMessage rawResponse w
       = (Normal reply, wn)
    /\ same_logs (guard wn) (guard wl)
    /\ randoms wn = randoms wl
    /\ qualityMetrics (guard wl) = qualityMetrics (guard w)
    /\ adaptationRules (guard wl) = adaptationRules (guard w)
    /\ learningDataFile wl = learningDataFile w.
Proof.
  intros Hun.
  destruct userMessage as [| | b | z | um |];
    try (exists rawResponse, w, w; split; [reflexivity|];
         split; [reflexivity|]; split; [apply same_logs_refl|];
         repeat split; reflexivity).
  destruct (processChatMessage_anatomy toLowerCase um rawResponse w)
    as [r [wg [G [C [E Cases]]]]].
  cbv zeta in E.
  destruct (updateLearningData_legacy rawResponse (res_response r)
              (res_action r) (res_reason r) wg)
    as [wl [El [Gl [Rl [Ql [Al Fl]]]]]].
  assert (Fg : learningDataFile wg = learningDataFile w /\
               Legacy.processChatMessage toLowerCase (VString um)
                 (VString rawResponse) w = (Normal r, wg)).
  { unfold Legacy.processChatMessage, asString, bind, ret, getGuard.
    destruct Cases as [[Hs [Eg [A [R V]]]]
                      | [[Hs [Hv [Eg [A [R V]]]]]
                        | [Hs [Hv [Eg [A [R V]]]]]]];
      rewrite Hs; try rewrite Hv; cbn [negb].
    - destruct (only_draws_generateFallbackResponse toLowerCase um redirect w)
        as [a [w1 [E1 [_ [_ F1]]]]].
      rewrite Eg in E1. injection E1 as <- <-.
      split; [exact F1|]. rewrite Eg. destruct r. cbn in *. congruence.
    - destruct (only_draws_attemptResponseFix toLowerCase rawResponse um w)
        as [a [w1 [E1 [_ [_ F1]]]]].
      rewrite Eg in E1. injection E1 as <- <-.
      split; [exact F1|]. rewrite Eg. destruct r. cbn in *. congruence.
    - destruct (only_draws_enhancedEnhanceResponse rawResponse w)
        as [a [w1 [E1 [_ [_ F1]]]]].
      rewrite Eg in E1. injection E1 as <- <-.
      split; [exact F1|].
      rewrite <- (enhancedEnhanceResponse_unlearned rawResponse w Hun), Eg.
      destruct r. cbn in *. congruence. }
  destruct Fg as [Fg Elp].
  exists (res_response r), wl. eexists.
  split.
  { unfold Legacy.chat_guardBlock, try_catch, bind. rewrite Elp, El.
    reflexivity. }
  split.
  { unfold chat_guardBlock, try_catch, bind. rewrite E. reflexivity. }
  set (wu := exec (updateLearningData rawResponse (res_response r)
                     (res_action r) (res_reason r)) wg) in *.
  assert (Ru : randoms wu = randoms wl).
  { subst wu. unfold exec. rewrite updateLearningData_randoms. now rewrite Rl. }
  split; [|split; [|split; [|split]]].
  - destruct (match res_action r with act_enhance => _ | _ => false end).
    + destruct (adaptPersonality_same_logs wu) as [S1 S2].
      split; [rewrite S1 | rewrite S2]; now rewrite Gl.
    + split; now rewrite Gl.
  - destruct (match res_action r with act_enhance => _ | _ => false end);
      [|exact Ru].
    destruct (adaptationNeeded (guard wu)) eqn:N.
    + destruct (adaptPersonality_adapts wu N) as [_ [_ ->]]. exact Ru.
    + unfold exec. rewrite (adaptPersonality_skips wu N). exact Ru.
  - now rewrite Ql, G.
  - now rewrite Al, G.
  - now rewrite Fl, Fg.
Qed.

Lemma legacy_route_agrees_witness :
  exists reply wl wn,
    Legacy.chat_guardBlock asciiLowerCase (VString (lit "Hello Coco"))
      (lit "Woof! I love going on walks with you.") (world0 [0; 0; 0]%nat [7%N])
    = (Normal reply, wl)
    /\ chat_guardBlock asciiLowerCase (VString (lit "Hello Coco"))
         (lit "Woof! I love going on walks with you.")
         (world0 [0; 0; 0]%nat [7%N])
       = (Normal reply, wn)
    /\ same_logs (guard wn) (guard wl)
    /\ randoms wn = randoms wl
    /\ qualityMetrics (guard wl)
       = qualityMetrics (guard (world0 [0; 0; 0]%nat [7%N]))
    /\ adaptationRules (guard wl)
       = adaptationRules (guard (world0 [0; 0; 0]%nat [7%N]))
    /\ learningDataFile wl = learningDataFile (world0 [0; 0; 0]%nat [7%N]).
Proof.
  apply (legacy_route_agrees asciiLowerCase (VString (lit "Hello Coco"))
           (lit "Woof! I love going on walks with you.")
           (world0 [0; 0; 0]%nat [7%N])).
  reflexivity.
Defined.
